(** * ScholarStream ingestion pipeline: a shallow embedding and its properties

    The development follows the Python package [ingestion]:
    - [utils.py]            : [synthetic_email]
    - [openalex_client.py]  : [OpenAlexClient.works_stream]
    - [schema.py]           : [OpenAlexWork], [Envelope]
    - [firehose_client.py]  : [FirehoseSink.put_records]
    - [config.py]           : [Settings.validate]
    - [producer.py]         : [main], [flush]

    and, beside it, the two scripts around it:
    - [sql/apply.py]        : [_natural_sql_order], [_resolve_files], [main]
    - [app/home.py]         : [pick], [selectbox_with_default]

    Python [str] values are modelled by [string], read as a sequence of code
    points below 256, but for the names and domains of [synthetic_email],
    which are texts of any code points ([Text.text]); Python [int] by [Z];
    [float] durations by [Q];
    dictionaries with string keys built by the code by [gmap string _];
    decoded JSON documents by the inductive [Json]. *)

From Stdlib Require Import ZArith QArith Ascii String List Lia Bool Sorted.
From stdpp Require Import base option list gmap strings.
Import ListNotations.
Local Open Scope string_scope.
Local Open Scope list_scope.
Local Open Scope Z_scope.

(** ** Strings *)

Module Str.

Definition code (c : ascii) : Z := Z.of_N (N_of_ascii c).

Definition chars (s : string) : list ascii := list_ascii_of_string s.

(** [s.encode("utf-8")] for a string of code points below 256, where it
    cannot raise; [Text.encode_utf8] is the encoder of any [str]. *)
Definition utf8_char (c : ascii) : list Z :=
  let n := code c in
  if n <? 128 then [n]
  else [Z.lor 192 (Z.shiftr n 6); Z.lor 128 (Z.land n 63)].

Definition encode_utf8 (s : string) : list Z := flat_map utf8_char (chars s).

(** Python truthiness of a [str]. *)
Definition truthy (s : string) : bool :=
  match s with EmptyString => false | String _ _ => true end.

(** [o or d] where [o] is an optional [str]. *)
Definition or_else (o : option string) (d : string) : string :=
  match o with
  | Some s => if truthy s then s else d
  | None => d
  end.

(** [s[:n]] *)
Fixpoint prefix (n : nat) (s : string) : string :=
  match n, s with
  | S n', String c r => String c (prefix n' r)
  | _, _ => EmptyString
  end.

Definition newline : string := String (ascii_of_nat 10) EmptyString.

(** [s.rstrip("/")] *)
Fixpoint rstrip_slash (s : string) : string :=
  match s with
  | EmptyString => EmptyString
  | String c r =>
      match rstrip_slash r with
      | EmptyString => if Ascii.eqb c "/"%char then EmptyString else String c EmptyString
      | r' => String c r'
      end
  end.

End Str.

(** ** hashlib.sha1 (FIPS 180-4), on byte lists *)

Module Sha1.

Definition w32 (x : Z) : Z := Z.land x 0xFFFFFFFF.
Definition add32 (x y : Z) : Z := w32 (x + y).
Definition rotl (n x : Z) : Z := w32 (Z.lor (Z.shiftl x n) (Z.shiftr x (32 - n))).
Definition not32 (x : Z) : Z := Z.lxor x 0xFFFFFFFF.

(** The [n] low-order bytes of [v], most significant first. *)
Fixpoint be_bytes (n : nat) (v : Z) : list Z :=
  match n with
  | O => []
  | S n' => Z.land (Z.shiftr v (8 * Z.of_nat n')) 255 :: be_bytes n' v
  end.

Definition pad (msg : list Z) : list Z :=
  let l := Z.of_nat (length msg) in
  msg ++ [128] ++ repeat 0 (Z.to_nat ((55 - l) mod 64)) ++ be_bytes 8 (8 * l).

Fixpoint words (bs : list Z) : list Z :=
  match bs with
  | a :: b :: c :: d :: r =>
      Z.lor (Z.shiftl a 24) (Z.lor (Z.shiftl b 16) (Z.lor (Z.shiftl c 8) d)) :: words r
  | _ => []
  end.

Fixpoint blocks (fuel : nat) (ws : list Z) : list (list Z) :=
  match fuel, ws with
  | S fuel', _ :: _ => firstn 16 ws :: blocks fuel' (skipn 16 ws)
  | _, _ => []
  end.

Definition wd (w : list Z) (i : nat) : Z := nth i w 0.

Fixpoint schedule (n : nat) (w : list Z) : list Z :=
  match n with
  | O => w
  | S n' =>
      let i := length w in
      schedule n'
        (w ++ [rotl 1 (Z.lxor (Z.lxor (wd w (i - 3)) (wd w (i - 8)))
                              (Z.lxor (wd w (i - 14)) (wd w (i - 16))))])
  end.

Record regs := Regs { ra : Z; rb : Z; rc : Z; rd : Z; re : Z }.

Definition f_k (i : nat) (b c d : Z) : Z * Z :=
  if (i <? 20)%nat then (Z.lor (Z.land b c) (Z.land (not32 b) d), 0x5A827999)
  else if (i <? 40)%nat then (Z.lxor (Z.lxor b c) d, 0x6ED9EBA1)
  else if (i <? 60)%nat then
    (Z.lor (Z.lor (Z.land b c) (Z.land b d)) (Z.land c d), 0x8F1BBCDC)
  else (Z.lxor (Z.lxor b c) d, 0xCA62C1D6).

Definition round (w : list Z) (r : regs) (i : nat) : regs :=
  let '(f, k) := f_k i (rb r) (rc r) (rd r) in
  let t := add32 (add32 (add32 (add32 (rotl 5 (ra r)) f) (re r)) k) (wd w i) in
  Regs t (ra r) (rotl 30 (rb r)) (rc r) (rd r).

Definition compress (h : regs) (block : list Z) : regs :=
  let w := schedule 64 block in
  let r := fold_left (round w) (seq 0 80) h in
  Regs (add32 (ra h) (ra r)) (add32 (rb h) (rb r)) (add32 (rc h) (rc r))
       (add32 (rd h) (rd r)) (add32 (re h) (re r)).

Definition init : regs :=
  Regs 0x67452301 0xEFCDAB89 0x98BADCFE 0x10325476 0xC3D2E1F0.

Definition digest (msg : list Z) : regs :=
  let ws := words (pad msg) in
  fold_left compress (blocks (length ws) ws) init.

Definition hexchar (n : Z) : ascii :=
  if n <? 10 then ascii_of_N (Z.to_N (48 + n)) else ascii_of_N (Z.to_N (87 + n)).

Definition nibbles (w : Z) : list Z :=
  map (fun s => Z.land (Z.shiftr w s) 15) [28; 24; 20; 16; 12; 8; 4; 0].

Definition hex32 (w : Z) : list ascii := map hexchar (nibbles w).

(** [hashlib.sha1(msg).hexdigest()] *)
Definition hexdigest (msg : list Z) : string :=
  let r := digest msg in
  string_of_list_ascii
    (hex32 (ra r) ++ hex32 (rb r) ++ hex32 (rc r) ++ hex32 (rd r) ++ hex32 (re r)).

End Sha1.

(** ** Python exceptions *)

Inductive exn : Type :=
| ValueError (msg : string)
| TypeError
| AttributeError
| OverflowError
| HTTPError (status : Z)
| JSONDecodeError
| ValidationError
| BadParameter (msg : string)
| ExternalError (tag : string)    (* raised by the network or by a test double *)
| UnicodeEncodeError.

(** ** Text: a Python [str] of any code points *)

Module Text.

(** A [str] as the list of its code points, each from 0 to 0x10FFFF, the
    surrogates 0xD800 to 0xDFFF included (a [str] may hold them). *)
Definition text : Type := list Z.

(** The text of a string of code points below 256. *)
Definition of_string (s : string) : text := map Str.code (Str.chars s).

(** The string of a text of code points below 256. *)
Definition to_string (t : text) : string :=
  string_of_list_ascii (map (fun n => ascii_of_N (Z.to_N n)) t).

Definition is_surrogate (n : Z) : bool := (0xD800 <=? n) && (n <=? 0xDFFF).

(** The UTF-8 bytes of one code point; a surrogate has none. *)
Definition utf8_point (n : Z) : exn + list Z :=
  if n <? 0x80 then inr [n]
  else if n <? 0x800 then
    inr [Z.lor 192 (Z.shiftr n 6); Z.lor 128 (Z.land n 63)]
  else if n <? 0x10000 then
    if is_surrogate n then inl UnicodeEncodeError
    else inr [Z.lor 224 (Z.shiftr n 12);
              Z.lor 128 (Z.land (Z.shiftr n 6) 63);
              Z.lor 128 (Z.land n 63)]
  else
    inr [Z.lor 240 (Z.shiftr n 18);
         Z.lor 128 (Z.land (Z.shiftr n 12) 63);
         Z.lor 128 (Z.land (Z.shiftr n 6) 63);
         Z.lor 128 (Z.land n 63)].

(** [t.encode("utf-8")]: raises [UnicodeEncodeError] on a surrogate. *)
Fixpoint encode_utf8 (t : text) : exn + list Z :=
  match t with
  | [] => inr []
  | n :: rest =>
      match utf8_point n with
      | inl e => inl e
      | inr bytes =>
          match encode_utf8 rest with
          | inl e => inl e
          | inr more => inr (bytes ++ more)
          end
      end
  end.

End Text.

(** ** utils.py *)

Definition default_domain : string := "example.com".

(** [synthetic_email(name, domain="example.com")], on any [str]; [domain =
    None] stands for a call that leaves the keyword out. *)
Definition synthetic_email (name : option Text.text) (domain : option Text.text)
  : exn + Text.text :=
  let named :=
    match name with
    | Some (c :: r) => c :: r
    | Some [] | None => Text.of_string "unknown"
    end in
  match Text.encode_utf8 named with
  | inl e => inl e
  | inr seed =>
      let h := Str.prefix 10 (Sha1.hexdigest seed) in
      inr (Text.of_string ("user_" +:+ h +:+ "@")
           ++ default (Text.of_string default_domain) domain)
  end.

(** [synthetic_email] as the pipeline calls it, on the strings of this
    development (code points below 256): there it cannot raise, see
    [synthetic_email_latin1_eq]. *)
Definition synthetic_email_latin1 (name : option string) (domain : option string)
  : string :=
  match synthetic_email (Text.of_string <$> name) (Text.of_string <$> domain) with
  | inr address => Text.to_string address
  | inl _ => EmptyString
  end.

(** ** Python values and built-ins *)

(** A decoded JSON document ([resp.json()], a raw work, a serialised record).
    The keys of a [JObj] are distinct, as in a Python [dict]. *)
#[warnings="-register-all"] Inductive Json : Type :=
| JNull
| JBool (b : bool)
| JNum (n : Z)
| JFloat (q : Q)
| JStr (s : string)
| JArr (l : list Json)
| JObj (kvs : list (string * Json)).

Module Py.

Definition q_truthy (q : Q) : bool := negb (Qnum q =? 0).

(** [bool(v)] *)
Definition truthy (v : Json) : bool :=
  match v with
  | JNull => false
  | JBool b => b
  | JNum n => negb (n =? 0)
  | JFloat q => q_truthy q
  | JStr s => Str.truthy s
  | JArr l => match l with [] => false | _ => true end
  | JObj kvs => match kvs with [] => false | _ => true end
  end.

Fixpoint assoc (k : string) (kvs : list (string * Json)) : option Json :=
  match kvs with
  | [] => None
  | (k', v) :: r => if String.eqb k k' then Some v else assoc k r
  end.

(** [d.get(k, dflt)]; only a [dict] has the method. *)
Definition get (d : Json) (k : string) (dflt : Json) : exn + Json :=
  match d with
  | JObj kvs => inr (default dflt (assoc k kvs))
  | _ => inl AttributeError
  end.

(** The items a [for] loop draws from [v]. *)
Definition iter (v : Json) : exn + list Json :=
  match v with
  | JArr l => inr l
  | JObj kvs => inr (map (fun kv => JStr (fst kv)) kvs)
  | JStr s => inr (map (fun c => JStr (String c EmptyString)) (Str.chars s))
  | _ => inl TypeError
  end.

(** *** [int(s)] for a [str] of code points below 256 *)

Definition is_space (c : ascii) : bool :=
  let n := Str.code c in
  ((9 <=? n) && (n <=? 13)) || (n =? 32) || (n =? 133) || (n =? 160).

Fixpoint lstrip (s : list ascii) : list ascii :=
  match s with
  | c :: r => if is_space c then lstrip r else s
  | [] => []
  end.

Definition strip (s : list ascii) : list ascii := rev (lstrip (rev (lstrip s))).

Definition digit (c : ascii) : option Z :=
  let n := Str.code c in
  if (48 <=? n) && (n <=? 57) then Some (n - 48) else None.

(** [sys.int_info.default_max_str_digits] *)
Definition max_str_digits : nat := 4300.

(** Digits with single underscores between them; [after_digit] tells whether
    the previous character was a digit. Returns the value and the number of
    digits read. *)
Fixpoint digits (s : list ascii) (acc : Z) (count : nat) (after_digit : bool)
  : option (Z * nat) :=
  match s with
  | [] => if after_digit then Some (acc, count) else None
  | c :: r =>
      if Ascii.eqb c "_"%char then
        if after_digit then digits r acc count false else None
      else
        match digit c with
        | Some d => digits r (10 * acc + d) (S count) true
        | None => None
        end
  end.

Definition unsigned (s : list ascii) : option Z :=
  match digits s 0 O false with
  | Some (v, count) => if (count <=? max_str_digits)%nat then Some v else None
  | None => None
  end.

Definition int (s : string) : option Z :=
  match strip (Str.chars s) with
  | c :: r =>
      if Ascii.eqb c "-"%char then Z.opp <$> unsigned r
      else if Ascii.eqb c "+"%char then unsigned r
      else unsigned (c :: r)
  | [] => None
  end.

End Py.

(** ** Results and the effect monad *)

Inductive result (A : Type) : Type :=
| Ok (a : A)
| Raised (e : exn)
| Diverged.                       (* the fuel of a loop ran out *)
Arguments Ok {A} a.
Arguments Raised {A} e.
Arguments Diverged {A}.

Definition M (W A : Type) : Type := W -> result A * W.

Definition ret {W A} (a : A) : M W A := fun w => (Ok a, w).
Definition raise {W A} (e : exn) : M W A := fun w => (Raised e, w).
Definition bind {W A B} (c : M W A) (k : A -> M W B) : M W B :=
  fun w =>
    match c w with
    | (Ok a, w') => k a w'
    | (Raised e, w') => (Raised e, w')
    | (Diverged, w') => (Diverged, w')
    end.
Definition lift {W A} (r : exn + A) : M W A :=
  match r with inl e => raise e | inr a => ret a end.

Notation "'let!' x ':=' c 'in' k" := (bind c (fun x => k))
  (at level 10, x name, c at level 100, k at level 200).

(** [for x in xs: acc = body(acc, x)] *)
Fixpoint for_each {W A X} (body : A -> X -> M W A) (xs : list X) (acc : A) : M W A :=
  match xs with
  | [] => ret acc
  | x :: r => let! acc' := body acc x in for_each body r acc'
  end.

(** ** The outside world *)

(** What [session.get(url, params=..., timeout=...)] sends. *)
Record Request := {
  req_url : string;
  req_params : gmap string Json;
  req_headers : gmap string string;
  req_timeout : Z
}.

(** A [requests.Response]: [json_body = None] when [resp.json()] raises.
    Header names are in their canonical spelling. *)
Record Response := {
  status_code : Z;
  headers : gmap string string;
  json_body : option Json
}.

(** One element of [RequestResponses] in a PutRecordBatch response. *)
Record RequestResponse := {
  RecordId : option string;
  ErrorCode : option string;
  ErrorMessage : option string
}.

(** The [dict] returned by [put_record_batch]; a field is [None] when the
    key is absent (or, for the count, null). *)
Record PutResponse := {
  FailedPutCount : option Z;
  RequestResponses : option (list RequestResponse)
}.

(** Lines written by [print]. *)
Inductive Msg : Type :=
| MsgStarting (stream region : string) (per_page batch : Z) (pause : Q) (dry_run : bool)
| MsgDryRun (n : Z)
| MsgBatchHadFailures
| MsgFailure (code message : option string)
| MsgSummary (sent failed : Z)
| MsgSomeFailed.

Inductive Event : Type :=
| EvGet (r : Request)                              (* an HTTP GET to the upstream API *)
| EvSleep (d : Q)                                  (* [time.sleep(d)] returned *)
| EvPut (stream : string) (entries : list (list Z)) (* a PutRecordBatch call *)
| EvPrint (m : Msg).

(** The libraries and services the package runs against. *)
Class Platform := {
  server : Type;
  session_get : server -> Request -> (exn + Response) * server;
  transport : Type;
  put_record_batch : transport -> string -> list (list Z) -> (exn + PutResponse) * transport;
  sleep_max : Q;                       (* longest delay [time.sleep] accepts *)
  datetime : Type;
  utcnow : nat -> datetime;            (* n-th reading of the clock *)
  uuid4 : nat -> string;               (* n-th identifier drawn *)
  json_dumps : Json -> string;         (* [json.dumps(r, separators=(",", ":"))] *)
  datetime_json : datetime -> Json;    (* pydantic's [mode="json"] rendering *)
  validate_int : Json -> option Z;     (* pydantic's coercion to [int] *)
  validate_datetime : Json -> option datetime
}.

Section Pipeline.

Context {P : Platform}.

Record World := {
  w_server : server;
  w_transport : transport;
  w_ticks : nat;                       (* clock readings so far *)
  w_uuids : nat;                       (* identifiers drawn so far *)
  w_log : list Event                   (* oldest first *)
}.

Definition log (e : Event) (w : World) : World :=
  {| w_server := w_server w; w_transport := w_transport w; w_ticks := w_ticks w;
     w_uuids := w_uuids w; w_log := w_log w ++ [e] |}.

Definition print (m : Msg) : M World unit := fun w => (Ok tt, log (EvPrint m) w).

(** [time.sleep(d)]: a negative delay is a [ValueError]; a delay beyond what
    the platform's timer takes is refused too. *)
Definition sleep (d : Q) : M World unit :=
  fun w =>
    if Qnum d <? 0 then (Raised (ValueError "sleep length must be non-negative"), w)
    else if Qle_bool d sleep_max then (Ok tt, log (EvSleep d) w)
    else (Raised OverflowError, w).

Definition get (r : Request) : M World Response :=
  fun w =>
    let '(out, srv) := session_get (w_server w) r in
    let w' := log (EvGet r)
                {| w_server := srv; w_transport := w_transport w; w_ticks := w_ticks w;
                   w_uuids := w_uuids w; w_log := w_log w |} in
    match out with
    | inr resp => (Ok resp, w')
    | inl e => (Raised e, w')
    end.

Definition now : M World datetime :=
  fun w =>
    (Ok (utcnow (w_ticks w)),
     {| w_server := w_server w; w_transport := w_transport w; w_ticks := S (w_ticks w);
        w_uuids := w_uuids w; w_log := w_log w |}).

Definition new_uuid : M World string :=
  fun w =>
    (Ok (uuid4 (w_uuids w)),
     {| w_server := w_server w; w_transport := w_transport w; w_ticks := w_ticks w;
        w_uuids := S (w_uuids w); w_log := w_log w |}).

(** ** openalex_client.py *)

Definition DEFAULT_TIMEOUT : Z := 30.

Definition headers_template (mail : string) : gmap string string :=
  {[ "User-Agent" := "ScholarStream/0.1 (+mailto:" +:+ mail +:+ ")" ]}.

Record OpenAlexClient := { base_url : string; mailto : string }.

(** [OpenAlexClient.__init__] *)
Definition OpenAlexClient_init (url mail : string) : exn + OpenAlexClient :=
  if Str.truthy mail then inr {| base_url := Str.rstrip_slash url; mailto := mail |}
  else inl (ValueError "OpenAlex requires a contact email (mailto). Set OPENALEX_EMAIL.").

Definition initial_params (self : OpenAlexClient) (per_page : Z)
    (updated_since : option string) (query_params : option (gmap string Json))
  : gmap string Json :=
  let params : gmap string Json :=
    {[ "per_page" := JNum per_page; "mailto" := JStr (mailto self); "cursor" := JStr "*" ]} in
  let params :=
    match updated_since with
    | Some u => if Str.truthy u then <["from_updated_date" := JStr u]> params else params
    | None => params
    end in
  match query_params with
  | Some q => q ∪ params
  | None => params
  end.

Definition request (self : OpenAlexClient) (params : gmap string Json) : Request :=
  {| req_url := base_url self +:+ "/works"; req_params := params;
     req_headers := headers_template (mailto self); req_timeout := DEFAULT_TIMEOUT |}.

(** [resp.raise_for_status()] *)
Definition raise_for_status (resp : Response) : M World unit :=
  if (400 <=? status_code resp) && (status_code resp <? 600)
  then raise (HTTPError (status_code resp)) else ret tt.

Definition resp_json (resp : Response) : M World Json :=
  match json_body resp with Some j => ret j | None => raise JSONDecodeError end.

(** [int(resp.headers.get("Retry-After", "2"))] *)
Definition retry_after (resp : Response) : option Z :=
  Py.int (default "2" (headers resp !! "Retry-After")).

(** [max_pages and page_count >= max_pages] *)
Definition cap_reached (max_pages : option Z) (page_count : Z) : bool :=
  match max_pages with
  | Some m => negb (m =? 0) && (m <=? page_count)
  | None => false
  end.

(** [results = payload.get("results", [])] and the items its [for] loop draws *)
Definition page_items (payload : Json) : exn + list Json :=
  match Py.get payload "results" (JArr []) with
  | inr results => Py.iter results
  | inl e => inl e
  end.

(** [payload.get("meta", {}).get("next_cursor")] *)
Definition page_cursor (payload : Json) : exn + Json :=
  match Py.get payload "meta" (JObj []) with
  | inr meta => Py.get meta "next_cursor" JNull
  | inl e => inl e
  end.

(** How one pass through the body of [while True] ends: [break], or back to
    the top with these values of [params] and [page_count]. *)
Inductive Next (A : Type) : Type :=
| Break (acc : A)
| Again (params : gmap string Json) (page_count : Z) (acc : A).
Arguments Break {A} acc.
Arguments Again {A} params page_count acc.

(** One pass through the body of [while True] in [works_stream]. The
    generator is driven by a [for] loop whose body is [body] and whose running
    state is [acc]: each [yield item] runs [body acc item]. *)
Definition iteration {A} (self : OpenAlexClient) (max_pages : option Z)
    (sleep_seconds : Q) (params : gmap string Json) (page_count : Z)
    (body : A -> Json -> M World A) (acc : A) : M World (Next A) :=
  let! resp := get (request self params) in
  if status_code resp =? 429 then
    match retry_after resp with
    | None => raise (ValueError "invalid literal for int() with base 10")
    | Some delay =>
        let! _ := sleep (inject_Z delay) in
        ret (Again params page_count acc)
    end
  else
    let! _ := raise_for_status resp in
    let! payload := resp_json resp in
    let! items := lift (page_items payload) in
    let! acc := for_each body items acc in
    let! next_cursor := lift (page_cursor payload) in
    if negb (Py.truthy next_cursor) then ret (Break acc)
    else
      let params := <["cursor" := next_cursor]> params in
      let page_count := page_count + 1 in
      if cap_reached max_pages page_count then ret (Break acc)
      else
        let! _ := (if Py.q_truthy sleep_seconds then sleep sleep_seconds else ret tt) in
        ret (Again params page_count acc).

(** The [while True] loop, one unit of [fuel] per request. *)
Fixpoint works_loop {A} (fuel : nat) (self : OpenAlexClient) (max_pages : option Z)
    (sleep_seconds : Q) (params : gmap string Json) (page_count : Z)
    (body : A -> Json -> M World A) (acc : A) : M World A :=
  match fuel with
  | O => fun w => (Diverged, w)
  | S fuel' =>
      let! next := iteration self max_pages sleep_seconds params page_count body acc in
      match next with
      | Break acc => ret acc
      | Again params page_count acc =>
          works_loop fuel' self max_pages sleep_seconds params page_count body acc
      end
  end.

(** [for raw in self.works_stream(...): acc = body(acc, raw)] *)
Definition works_stream {A} (fuel : nat) (self : OpenAlexClient) (per_page : Z)
    (updated_since : option string) (max_pages : option Z) (sleep_seconds : Q)
    (query_params : option (gmap string Json))
    (body : A -> Json -> M World A) (acc : A) : M World A :=
  works_loop fuel self max_pages sleep_seconds
    (initial_params self per_page updated_since query_params) 0 body acc.

(** [list(self.works_stream(...))] *)
Definition collect (acc : list Json) (item : Json) : M World (list Json) :=
  ret (acc ++ [item]).

Definition works_list (fuel : nat) (self : OpenAlexClient) (per_page : Z)
    (updated_since : option string) (max_pages : option Z) (sleep_seconds : Q)
    (query_params : option (gmap string Json)) : M World (list Json) :=
  works_stream fuel self per_page updated_since max_pages sleep_seconds query_params
    collect [].

(** ** schema.py *)

Record HostVenue := { hv_display_name : option string }.
Record AuthorRef := { ar_display_name : option string }.
Record Authorship := { author : option AuthorRef }.

Record OpenAlexWork := {
  oa_id : option string;
  oa_doi : option string;
  oa_title : option string;
  oa_publication_year : option Z;
  oa_host_venue : option HostVenue;
  oa_authorships : option (list Authorship);
  oa_email : option string;
  oa_event_ts : option datetime
}.

(** Validation of one field; [None] is a pydantic [ValidationError]. A field
    of type [Optional[T] = None] takes a missing key and a null as [None]. *)
Definition optional {A} (validate : Json -> option A) (v : option Json)
  : option (option A) :=
  match v with
  | None | Some JNull => Some None
  | Some j => Some <$> validate j
  end.

Definition validate_str (v : Json) : option string :=
  match v with JStr s => Some s | _ => None end.

(** A nested model: a [dict], unknown keys ignored. *)
Definition validate_model {A} (build : list (string * Json) -> option A) (v : Json)
  : option A :=
  match v with JObj kvs => build kvs | _ => None end.

Definition validate_list {A} (validate : Json -> option A) (v : Json)
  : option (list A) :=
  match v with JArr l => mapM validate l | _ => None end.

Definition HostVenue_validate : Json -> option HostVenue :=
  validate_model (fun kvs =>
    n ← optional validate_str (Py.assoc "display_name" kvs);
    Some {| hv_display_name := n |}).

Definition AuthorRef_validate : Json -> option AuthorRef :=
  validate_model (fun kvs =>
    n ← optional validate_str (Py.assoc "display_name" kvs);
    Some {| ar_display_name := n |}).

Definition Authorship_validate : Json -> option Authorship :=
  validate_model (fun kvs =>
    a ← optional AuthorRef_validate (Py.assoc "author" kvs);
    Some {| author := a |}).

(** [OpenAlexWork.model_validate(raw)] *)
Definition model_validate (raw : Json) : exn + OpenAlexWork :=
  let parsed :=
    validate_model (fun kvs =>
      id ← optional validate_str (Py.assoc "id" kvs);
      doi ← optional validate_str (Py.assoc "doi" kvs);
      title ← optional validate_str (Py.assoc "title" kvs);
      year ← optional validate_int (Py.assoc "publication_year" kvs);
      venue ← optional HostVenue_validate (Py.assoc "host_venue" kvs);
      auths ← optional (validate_list Authorship_validate) (Py.assoc "authorships" kvs);
      email ← optional validate_str (Py.assoc "email" kvs);
      ts ← optional validate_datetime (Py.assoc "event_ts" kvs);
      Some {| oa_id := id; oa_doi := doi; oa_title := title;
              oa_publication_year := year; oa_host_venue := venue;
              oa_authorships := auths; oa_email := email; oa_event_ts := ts |}) raw in
  match parsed with Some w => inr w | None => inl ValidationError end.

Record Envelope := {
  id : option string;
  doi : option string;
  title : option string;
  publication_year : option Z;
  host_venue : option string;
  primary_author : option string;
  email : option string;
  event_ts : datetime;
  ingest_ts : datetime;
  source : string;
  load_id : string
}.

(** [w.authorships[0].author], when the list is there and non-empty *)
Definition first_author (w : OpenAlexWork) : option AuthorRef :=
  match oa_authorships w with
  | Some (a :: _) => author a
  | _ => None
  end.

(** [Envelope.from_openalex]; the default factory of [load_id] draws an
    identifier. *)
Definition from_openalex (w : OpenAlexWork) (event_ts ingest_ts : datetime)
    (email : option string) (source : string) : M World Envelope :=
  let primary := a ← first_author w; ar_display_name a in
  let! uid := new_uuid in
  ret {| id := oa_id w; doi := oa_doi w; title := oa_title w;
         publication_year := oa_publication_year w;
         host_venue := (v ← oa_host_venue w; hv_display_name v);
         primary_author := primary; email := email;
         event_ts := event_ts; ingest_ts := ingest_ts;
         source := source; load_id := uid |}.

Definition opt_field (k : string) (v : option Json) : list (string * Json) :=
  match v with Some j => [(k, j)] | None => [] end.

(** [b.model_dump(by_alias=True, mode="json", exclude_none=True)] as the
    key/value pairs of the resulting [dict], in field order. *)
Definition dump_fields (b : Envelope) : list (string * Json) :=
  opt_field "id" (JStr <$> id b) ++
  opt_field "doi" (JStr <$> doi b) ++
  opt_field "title" (JStr <$> title b) ++
  opt_field "publication_year" (JNum <$> publication_year b) ++
  opt_field "host_venue" (JStr <$> host_venue b) ++
  opt_field "primary_author" (JStr <$> primary_author b) ++
  opt_field "email" (JStr <$> email b) ++
  [("event_ts", datetime_json (event_ts b));
   ("ingest_ts", datetime_json (ingest_ts b));
   ("source", JStr (source b));
   ("_LOAD_ID", JStr (load_id b))].

Definition model_dump (b : Envelope) : Json := JObj (dump_fields b).

(** ** firehose_client.py *)

Record FirehoseSink := { stream_name : string }.

(** [(json.dumps(r, separators=(",", ":")) + "\n").encode("utf-8")] for each record *)
Definition entries_of (records_json : list Json) : list (list Z) :=
  map (fun r => Str.encode_utf8 (json_dumps r +:+ Str.newline)) records_json.

(** [FirehoseSink.put_records] *)
Definition put_records (self : FirehoseSink) (records_json : list Json)
  : M World PutResponse :=
  let entries := entries_of records_json in
  fun w =>
    let '(out, t) := put_record_batch (w_transport w) (stream_name self) entries in
    let w' := log (EvPut (stream_name self) entries)
                {| w_server := w_server w; w_transport := t; w_ticks := w_ticks w;
                   w_uuids := w_uuids w; w_log := w_log w |} in
    match out with
    | inr resp => (Ok resp, w')
    | inl e => (Raised e, w')
    end.

(** ** config.py *)

Record Settings := {
  aws_region : string;
  firehose_name : string;
  openalex_base_url : string;
  openalex_email : string;
  batch_size : Z;
  sleep_seconds : Q;
  source_tag : string
}.

(** [Settings.validate] *)
Definition validate (self : Settings) : M World unit :=
  if negb (Str.truthy (openalex_email self)) then
    raise (ValueError "OPENALEX_EMAIL is required for polite use of the OpenAlex API.")
  else if negb (Str.truthy (aws_region self)) then
    raise (ValueError "AWS_REGION is required.")
  else if negb (Str.truthy (firehose_name self)) then
    raise (ValueError "FIREHOSE_NAME is required.")
  else ret tt.

(** ** producer.py *)

Definition len {A} (l : list A) : Z := Z.of_nat (length l).

Definition opt_truthy (o : option string) : bool :=
  match o with Some s => Str.truthy s | None => false end.

(** The loop of [flush] that picks the first error examples. *)
Fixpoint examples_loop (rr : list RequestResponse)
    (examples : list (option string * option string))
  : list (option string * option string) :=
  match rr with
  | [] => examples
  | r :: rest =>
      let examples :=
        if opt_truthy (ErrorCode r) || opt_truthy (ErrorMessage r)
        then examples ++ [(ErrorCode r, ErrorMessage r)] else examples in
      if 3 <=? len examples then examples else examples_loop rest examples
  end.

Definition print_examples (resp : PutResponse) : M World unit :=
  let examples := examples_loop (default [] (RequestResponses resp)) [] in
  match examples with
  | [] => ret tt
  | _ =>
      let! _ := print MsgBatchHadFailures in
      for_each (fun _ ex => print (MsgFailure (fst ex) (snd ex))) examples tt
  end.

(** [int(resp.get("FailedPutCount", 0) or 0)] *)
Definition failed_put_count (resp : PutResponse) : Z := default 0 (FailedPutCount resp).

(** [flush(batch, sink, dry_run, total, failed)] *)
Definition flush (batch : list Envelope) (sink : FirehoseSink) (dry_run : bool)
    (total failed : Z) : M World (Z * Z) :=
  let records := map model_dump batch in
  if dry_run then
    let! _ := print (MsgDryRun (len records)) in
    ret (total, failed)
  else
    let! resp := put_records sink records in
    let total := total + len records in
    let failed_count := failed_put_count resp in
    let failed := failed + failed_count in
    let! _ := (if negb (failed_count =? 0) then print_examples resp else ret tt) in
    ret (total, failed).

(** The running state of [main]'s loop: [batch], [total_sent], [total_failed]. *)
Record Loop := { batch : list Envelope; total_sent : Z; total_failed : Z }.

(** The body of [for raw in oa.works_stream(...)]. *)
Definition main_body (cfg : Settings) (sink : FirehoseSink) (dry_run : bool)
    (eff_batch_size : Z) (st : Loop) (raw : Json) : M World Loop :=
  let! t := now in
  let! w := lift (model_validate raw) in
  let email :=
    Str.or_else (oa_email w)
      (synthetic_email_latin1 (a ← first_author w; ar_display_name a) None) in
  let! env := from_openalex w t t (Some email) (source_tag cfg) in
  let batch := batch st ++ [env] in
  if eff_batch_size <=? len batch then
    let! counters := flush batch sink dry_run (total_sent st) (total_failed st) in
    ret {| batch := []; total_sent := fst counters; total_failed := snd counters |}
  else
    ret {| batch := batch; total_sent := total_sent st; total_failed := total_failed st |}.

(** [batch_size or cfg.batch_size] *)
Definition eff_batch_size_of (arg : option Z) (cfg : Settings) : Z :=
  match arg with
  | Some n => if n =? 0 then batch_size cfg else n
  | None => batch_size cfg
  end.

(** [main(per_page, updated_since, max_pages, batch_size, batch_sleep, dry_run)]
    with [cfg] the [Settings()] read from the environment. *)
Definition main (fuel : nat) (cfg : Settings) (per_page : Z)
    (updated_since : option string) (max_pages : option Z) (batch_size : option Z)
    (batch_sleep : option Q) (dry_run : bool) : M World unit :=
  let! _ := validate cfg in
  let eff_batch_size := eff_batch_size_of batch_size cfg in
  let eff_batch_sleep := default (sleep_seconds cfg) batch_sleep in
  if (eff_batch_size <=? 0) || (500 <? eff_batch_size) then
    raise (BadParameter "batch_size must be between 1 and 500 for Firehose PutRecordBatch")
  else
    let! _ := print (MsgStarting (firehose_name cfg) (aws_region cfg) per_page
                       eff_batch_size eff_batch_sleep dry_run) in
    let! oa := lift (OpenAlexClient_init (openalex_base_url cfg) (openalex_email cfg)) in
    let sink := {| stream_name := firehose_name cfg |} in
    let! st := works_stream fuel oa per_page updated_since max_pages eff_batch_sleep None
                 (main_body cfg sink dry_run eff_batch_size)
                 {| batch := []; total_sent := 0; total_failed := 0 |} in
    let! counters :=
      (match batch st with
       | [] => ret (total_sent st, total_failed st)
       | _ => flush (batch st) sink dry_run (total_sent st) (total_failed st)
       end) in
    let! _ := print (MsgSummary (fst counters) (snd counters)) in
    if negb (snd counters =? 0) then print MsgSomeFailed else ret tt.

(** [_strip_run_alias(argv)] *)
Definition _strip_run_alias (argv : list string) : list string :=
  match argv with
  | a :: b :: rest => if String.eqb b "run" then a :: rest else argv
  | _ => argv
  end.

End Pipeline.

Arguments Break {A} acc.
Arguments Again {A} params page_count acc.

(** ** sql/apply.py *)

Module Apply.

(** [c.lower()] for a code point below 256 *)
Definition lower_char (c : ascii) : ascii :=
  let n := Str.code c in
  if ((65 <=? n) && (n <=? 90))
     || ((192 <=? n) && (n <=? 222) && negb (n =? 215))
  then ascii_of_N (Z.to_N (n + 32))
  else c.

(** [s.lower()] *)
Fixpoint lower (s : string) : string :=
  match s with
  | EmptyString => EmptyString
  | String c r => String (lower_char c) (lower r)
  end.

(** What [re.match(r"^(\d+)", s)] captures, empty when there is no match:
    below 256 the decimal digits are "0" to "9". *)
Fixpoint leading_digits (s : string) : string :=
  match s with
  | EmptyString => EmptyString
  | String c r =>
      match Py.digit c with
      | Some _ => String c (leading_digits r)
      | None => EmptyString
      end
  end.

(** [k1 < k2] on tuples [(int, str)]: the first components decide unless
    they are equal; strings compare code point by code point. *)
Definition key_lt (k1 k2 : Z * string) : bool :=
  if fst k1 =? fst k2 then String.ltb (snd k1) (snd k2) else fst k1 <? fst k2.

(** [k1] is not greater than [k2]. *)
Definition key_le (k1 k2 : Z * string) : Prop :=
  fst k1 < fst k2 \/ (fst k1 = fst k2 /\ String.leb (snd k1) (snd k2) = true).

Section Order.

(** A [pathlib.Path], with its [name] and [suffix]. *)
Variable Path : Type.
Variables (name suffix : Path -> string).

(** [f.suffix.lower() == ".sql"] *)
Definition is_sql (f : Path) : bool := String.eqb (lower (suffix f)) ".sql".

(** [key(p)] of [_natural_sql_order]; [int] refuses more than 4300 digits. *)
Definition key (p : Path) : exn + Z * string :=
  match leading_digits (name p) with
  | EmptyString => inr (1000000, name p)
  | ds =>
      match Py.int ds with
      | Some n => inr (n, name p)
      | None => inl (ValueError "Exceeds the limit (4300 digits) for integer string conversion")
      end
  end.

(** The keys [sorted] computes before it compares anything. *)
Fixpoint keyed (files : list Path) : exn + list ((Z * string) * Path) :=
  match files with
  | [] => inr []
  | f :: rest =>
      match key f with
      | inl e => inl e
      | inr k =>
          match keyed rest with
          | inl e => inl e
          | inr ks => inr ((k, f) :: ks)
          end
      end
  end.

(** [sorted] is stable and compares keys with [<] only: each element goes
    in front of the first one its key is smaller than. *)
Fixpoint insert (x : (Z * string) * Path) (l : list ((Z * string) * Path))
  : list ((Z * string) * Path) :=
  match l with
  | [] => [x]
  | y :: r => if key_lt (fst x) (fst y) then x :: y :: r else y :: insert x r
  end.

Definition sorted (l : list ((Z * string) * Path)) : list ((Z * string) * Path) :=
  fold_left (fun acc x => insert x acc) l [].

(** [_natural_sql_order(files)] *)
Definition _natural_sql_order (files : list Path) : exn + list Path :=
  match keyed (List.filter is_sql files) with
  | inl e => inl e
  | inr ks => inr (map snd (sorted ks))
  end.

(** The number a file is ordered by: its numeric prefix, 1000000 without
    one. *)
Definition sort_number (p : Path) : Z :=
  match leading_digits (name p) with
  | EmptyString => 1000000
  | ds => default 0 (Py.int ds)
  end.

(** [p] may stand before [q]: a smaller number, or the same number and a name
    that is not greater. *)
Definition before (p q : Path) : Prop :=
  sort_number p < sort_number q
  \/ (sort_number p = sort_number q /\ String.leb (name p) (name q) = true).

End Order.

(** [PurePath.suffix] of a file name, as [pathlib] computes it up to
    Python 3.13. *)
Fixpoint rfind_dot (s : string) (i : nat) (last : option nat) : option nat :=
  match s with
  | EmptyString => last
  | String c r => rfind_dot r (S i) (if Ascii.eqb c "."%char then Some i else last)
  end.

Fixpoint drop (n : nat) (s : string) : string :=
  match n, s with
  | S n', String _ r => drop n' r
  | _, _ => s
  end.

Definition posix_suffix (name : string) : string :=
  match rfind_dot name 0 None with
  | Some i =>
      if ((0 <? i) && (i <? String.length name - 1))%nat then drop i name
      else EmptyString
  | None => EmptyString
  end.

(** [s.endswith(t)] *)
Definition endswith (s t : string) : bool :=
  (String.length t <=? String.length s)%nat
  && String.eqb (drop (String.length s - String.length t) s) t.

(** What [argparse] hands to [main]. *)
Record Args := {
  arg_dir : string;
  arg_files : option (list string);
  arg_dry_run : bool;
  arg_continue_on_error : bool;
  arg_verbose : bool
}.

(** The file system and the database [main] talks to: [pathlib]'s paths
    with the methods the script calls, on a file system that does not change
    during a run; the connection [connect_from_env] opens, what
    [execute_sql_file] does to it and whether it raises, and [conn.close()]. *)
Class Host := {
  Path : Type;
  path_of_str : string -> Path;               (* [Path(s)] *)
  path_join : Path -> Path -> Path;           (* [base / p] *)
  path_name : Path -> string;
  path_suffix : Path -> string;
  is_absolute : Path -> bool;
  path_exists : Path -> bool;
  is_dir : Path -> bool;
  resolve : Path -> Path;
  glob_sql : Path -> list Path;               (* [base.glob("*.sql")] *)
  connection : Type;
  connect_from_env : exn + connection;
  execute_sql_file : connection -> Path -> option exn * connection;
  conn_close : connection -> option exn
}.

Section Runner.

Context {H : Host}.

(** The lines [main] logs. *)
Inductive Note : Type :=
| NoteInvalidDirectory (base_dir : Path)
| NoteNoFiles (base_dir : Path)
| NoteOrder (count : Z)
| NoteFile (name : string)
| NoteConnectFailed (e : exn)
| NoteScriptFailed (name : string) (e : exn)
| NoteAllDone.

(** What a run does, oldest first: a line logged ([error] tells the level),
    the call that opens the connection, the execution of a script, the call
    that closes the connection. *)
Inductive Step : Type :=
| SLog (error : bool) (note : Note)
| SConnect
| SExecute (path : Path)
| SClose.

(** [_resolve_files(base_dir, selected)] *)
Definition _resolve_files (base_dir : Path) (selected : option (list string))
  : exn + list Path :=
  match selected with
  | Some (s :: rest) =>
      let paths :=
        map (fun s => if endswith s ".sql" then path_of_str s
                      else path_join base_dir (path_of_str s)) (s :: rest) in
      inr (map (fun p => if is_absolute p then p
                         else if path_exists p then p else path_join base_dir p) paths)
  | _ => _natural_sql_order Path path_name path_suffix (glob_sql base_dir)
  end.

(** [for path in files: try: execute_sql_file(conn, path) except ...]: whether
    the loop was left by [return 5], the connection and the steps taken. *)
Fixpoint run_files (continue_on_error : bool) (conn : connection) (files : list Path)
  : bool * connection * list Step :=
  match files with
  | [] => (false, conn, [])
  | path :: rest =>
      match execute_sql_file conn path with
      | (None, conn') =>
          let '(returned, conn'', steps) := run_files continue_on_error conn' rest in
          (returned, conn'', SExecute path :: steps)
      | (Some e, conn') =>
          if continue_on_error then
            let '(returned, conn'', steps) := run_files continue_on_error conn' rest in
            (returned, conn'',
             SExecute path :: SLog true (NoteScriptFailed (path_name path) e) :: steps)
          else
            (true, conn', [SExecute path; SLog true (NoteScriptFailed (path_name path) e)])
      end
  end.

(** [main()] on the parsed arguments: the exit code, or the exception that
    escapes, and the steps taken. An exception of [conn.close()] is
    swallowed. *)
Definition main (args : Args) : (exn + Z) * list Step :=
  let base_dir := resolve (path_of_str (arg_dir args)) in
  if negb (path_exists base_dir) || negb (is_dir base_dir) then
    (inr 2, [SLog true (NoteInvalidDirectory base_dir)])
  else
    match _resolve_files base_dir (arg_files args) with
    | inl e => (inl e, [])
    | inr files =>
        match map resolve (List.filter path_exists files) with
        | [] => (inr 3, [SLog true (NoteNoFiles base_dir)])
        | files =>
            let shown :=
              SLog false (NoteOrder (len files))
              :: map (fun f => SLog false (NoteFile (path_name f))) files in
            if arg_dry_run args then (inr 0, shown)
            else
              match connect_from_env with
              | inl e => (inr 4, shown ++ [SConnect; SLog true (NoteConnectFailed e)])
              | inr conn =>
                  let '(returned, _, steps) :=
                    run_files (arg_continue_on_error args) conn files in
                  let steps := shown ++ SConnect :: steps ++ [SClose] in
                  if returned then (inr 5, steps)
                  else (inr 0, steps ++ [SLog false NoteAllDone])
              end
        end
    end.

(** The files a run is to execute, when it gets that far. *)
Definition planned (args : Args) : list Path :=
  match _resolve_files (resolve (path_of_str (arg_dir args))) (arg_files args) with
  | inr files => map resolve (List.filter path_exists files)
  | inl _ => []
  end.

(** The scripts executed among the steps [l], in order. *)
Definition executed (l : list Step) : list Path :=
  flat_map (fun s => match s with SExecute p => [p] | _ => [] end) l.

(** The scripts reported as failed among the steps [l]. *)
Definition failures (l : list Step) : list string :=
  flat_map (fun s => match s with SLog _ (NoteScriptFailed n _) => [n] | _ => [] end) l.

Definition is_log (s : Step) : bool :=
  match s with SLog _ _ => true | _ => false end.

Definition is_close (s : Step) : bool :=
  match s with SClose => true | _ => false end.

Definition is_connect (s : Step) : bool :=
  match s with SConnect => true | _ => false end.

(** Executed one after the other from the connection [conn], the scripts
    [files] all succeed and leave the connection in the state [conn']. *)
Inductive all_succeed : connection -> list Path -> connection -> Prop :=
| succeed_nil conn : all_succeed conn [] conn
| succeed_cons conn path conn' rest conn'' :
    execute_sql_file conn path = (None, conn') ->
    all_succeed conn' rest conn'' ->
    all_succeed conn (path :: rest) conn''.

(** The run gets as far as the database: the directory is one, there is a
    script to execute, it is no dry run and the connection opens. *)
Definition reaches_database (args : Args) : Prop :=
  path_exists (resolve (path_of_str (arg_dir args))) = true
  /\ is_dir (resolve (path_of_str (arg_dir args))) = true
  /\ planned args <> []
  /\ arg_dry_run args = false
  /\ exists conn, connect_from_env = inr conn.

End Runner.

(** A directory of three scripts and a database on which the scripts whose
    name is in [bad] fail. *)
Definition listing : list string := ["10_b.sql"; "2_a.sql"; "01_init.SQL"].

Definition fake_host (bad : list string) : Host := {|
  Path := string;
  path_of_str := fun s => s;
  path_join := fun base p => base +:+ "/" +:+ p;
  path_name := fun p => p;
  path_suffix := posix_suffix;
  is_absolute := fun p => match p with String c _ => Ascii.eqb c "/"%char | _ => false end;
  path_exists := fun p => String.eqb p "/sql" || existsb (String.eqb p) listing;
  is_dir := fun p => String.eqb p "/sql";
  resolve := fun p => p;
  glob_sql := fun _ => listing;
  connection := nat;
  connect_from_env := inr O;
  execute_sql_file := fun n p =>
    (if existsb (String.eqb p) bad then Some (ExternalError "SQL compilation error") else None,
     S n);
  conn_close := fun _ => None
|}.

(** The arguments of a run on that directory. *)
Definition run_args (dry_run continue_on_error : bool) : Args :=
  {| arg_dir := "/sql"; arg_files := None; arg_dry_run := dry_run;
     arg_continue_on_error := continue_on_error; arg_verbose := false |}.

End Apply.

(** ** app/home.py *)

Module Home.

(** [x in options] for a list of [str] *)
Definition contains (x : string) (options : list string) : bool :=
  existsb (String.eqb x) options.

(** [pick(options, default)] *)
Definition pick (options : list string) (default : option string) : option string :=
  match options with
  | [] => default
  | first :: _ =>
      match default with
      | Some d => if Str.truthy d && contains d options then Some d else Some first
      | None => Some first
      end
  end.

(** [options.index(x)], for an [x] that is in [options] *)
Fixpoint index (x : string) (options : list string) : nat :=
  match options with
  | [] => O
  | o :: rest => if String.eqb o x then O else S (index x rest)
  end.

(** The [options] and the [index] that [selectbox_with_default] hands to
    [st.sidebar.selectbox]. *)
Definition selectbox_with_default (options : list string) (default : option string)
  : list string * nat :=
  let options := match options with [] => [EmptyString] | _ => options end in
  let idx :=
    match default with
    | Some d => if contains d options then index d options else O
    | None => O
    end in
  (options, idx).

End Home.

(** ** Test doubles, after [tests/]: a scripted HTTP session ([FakeSession]),
    a scripted delivery stream ([FakeBotoClient]) and a counter clock *)

Module Fake.

(** [FakeSession.get]: pops the next scripted response. *)
Definition pop_response (script : list Response) (_ : Request)
  : (exn + Response) * list Response :=
  match script with
  | [] => (inl (ExternalError "No more fake responses"), [])
  | r :: rest => (inr r, rest)
  end.

Definition accepted : RequestResponse :=
  {| RecordId := Some "ok"; ErrorCode := None; ErrorMessage := None |}.

Definition rejected : RequestResponse :=
  {| RecordId := None; ErrorCode := Some "X"; ErrorMessage := Some "boom" |}.

(** [put_record_batch] of the fake clients: the script gives, call by call,
    how many records the stream rejects; once it is used up every record is
    accepted. The rejected ones are reported first. *)
Definition pop_answer (script : list nat) (_ : string) (entries : list (list Z))
  : (exn + PutResponse) * list nat :=
  let n := hd O script in
  (inr {| FailedPutCount := Some (Z.of_nat n);
          RequestResponses :=
            Some (repeat rejected n ++ repeat accepted (length entries - n)) |},
   tl script).

(** [str(n)] *)
Fixpoint decimal_digits (fuel : nat) (n : Z) (acc : string) : string :=
  match fuel with
  | O => acc
  | S fuel' =>
      let acc' := String (ascii_of_N (Z.to_N (48 + n mod 10))) acc in
      if n <? 10 then acc' else decimal_digits fuel' (n / 10) acc'
  end.

Definition decimal (n : Z) : string :=
  if n <? 0 then "-" +:+ decimal_digits (S (Z.to_nat (Z.log2 (- n)))) (- n) ""
  else decimal_digits (S (Z.to_nat (Z.log2 n))) n "".

Definition quote (s : string) : string :=
  String (ascii_of_nat 34) s +:+ String (ascii_of_nat 34) "".

Definition join (parts : list string) : string :=
  match parts with
  | [] => ""
  | p :: rest => fold_left (fun acc x => acc +:+ "," +:+ x) rest p
  end.

(** A compact printer for documents without floats or escapes. *)
Fixpoint dumps (j : Json) : string :=
  match j with
  | JNull => "null"
  | JBool b => if b then "true" else "false"
  | JNum n => decimal n
  | JFloat _ => "0.0"
  | JStr s => quote s
  | JArr l => "[" +:+ join (map dumps l) +:+ "]"
  | JObj kvs =>
      "{" +:+ join (map (fun kv => quote (fst kv) +:+ ":" +:+ dumps (snd kv)) kvs) +:+ "}"
  end.

#[local] Instance platform : Platform := {|
  server := list Response;
  session_get := pop_response;
  transport := list nat;
  put_record_batch := pop_answer;
  sleep_max := 9223372036 # 1;
  datetime := Z;
  utcnow := fun n => 1704067200 + Z.of_nat n;
  uuid4 := fun n => "uuid-" +:+ decimal (Z.of_nat n);
  json_dumps := dumps;
  datetime_json := fun d => JNum d;
  validate_int := fun j => match j with JNum n => Some n | _ => None end;
  validate_datetime := fun j => match j with JNum n => Some n | _ => None end
|}.

Definition world (responses : list Response) (answers : list nat) : World :=
  {| w_server := responses; w_transport := answers; w_ticks := O; w_uuids := O;
     w_log := [] |}.

Definition page (results : list Json) (next_cursor : Json) : Response :=
  {| status_code := 200; headers := ∅;
     json_body := Some (JObj [("results", JArr results);
                              ("meta", JObj [("next_cursor", next_cursor)])]) |}.

Definition too_many_requests (retry : option string) : Response :=
  {| status_code := 429;
     headers := match retry with Some v => {[ "Retry-After" := v ]} | None => ∅ end;
     json_body := None |}.

Definition client : OpenAlexClient :=
  {| base_url := "https://api.openalex.org"; mailto := "me@example.com" |}.

Definition settings : Settings :=
  {| aws_region := "us-east-1"; firehose_name := "stream";
     openalex_base_url := "https://api.openalex.org"; openalex_email := "me@example.com";
     batch_size := 2; sleep_seconds := 0; source_tag := "openalex" |}.

Definition work (i : Z) : Json :=
  JObj [("id", JStr ("W" +:+ decimal i)); ("title", JStr "T");
        ("host_venue", JObj [("display_name", JStr "V")]);
        ("authorships", JArr [JObj [("author", JObj [("display_name", JStr "A")])]]);
        ("publication_year", JNum 2024)].

(** An envelope as [make_batch] of the unit tests builds it. *)
Definition envelope (i : Z) : Envelope :=
  {| id := Some ("W" +:+ decimal i); doi := None; title := Some "T";
     publication_year := Some 2024; host_venue := Some "V"; primary_author := Some "A";
     email := Some "x@ex.com"; event_ts := 1704067200; ingest_ts := 1704067200;
     source := "openalex"; load_id := "uuid-" +:+ decimal i |}.

Definition sink : FirehoseSink := {| stream_name := "s" |}.

Definition http_date : string := "Wed, 21 Oct 2015 07:28:00 GMT".

(** The responses of [test_works_stream_handles_429_and_pagination], after
    the rate-limit signal. *)
Definition page1 : Response :=
  page [JObj [("id", JNum 1)]; JObj [("id", JNum 2)]] (JStr "abc").
Definition page2 : Response := page [JObj [("id", JNum 3)]] JNull.

End Fake.

(** ** Vocabulary of the statements *)

Definition is_hex_digit (c : ascii) : bool :=
  let n := Str.code c in
  ((48 <=? n) && (n <=? 57)) || ((97 <=? n) && (n <=? 102)).

(** The address as the specification words it: the digest is taken over the
    name, and over the placeholder only when no name is passed. *)
Definition claimed_email (name domain : option Text.text) : exn + Text.text :=
  match Text.encode_utf8 (default (Text.of_string "unknown") name) with
  | inl e => inl e
  | inr seed =>
      inr (Text.of_string ("user_" +:+ Str.prefix 10 (Sha1.hexdigest seed) +:+ "@")
           ++ default (Text.of_string "example.com") domain)
  end.

(** The text [synthetic_email] hashes: the name, or the placeholder when
    the name is [None] or empty. *)
Definition seed_of (name : option Text.text) : Text.text :=
  match name with
  | Some (c :: r) => c :: r
  | Some [] | None => Text.of_string "unknown"
  end.

Section Vocabulary.

Context {P : Platform}.

(** The world [w] with the upstream server in state [srv]. *)
Definition with_server (w : World) (srv : server) : World :=
  {| w_server := srv; w_transport := w_transport w; w_ticks := w_ticks w;
     w_uuids := w_uuids w; w_log := w_log w |}.

(** The world once the server has moved to [srv] while answering [r]. *)
Definition after_get (w : World) (r : Request) (srv : server) : World :=
  log (EvGet r) (with_server w srv).

(** A status that is neither the rate-limit signal nor an error for
    [raise_for_status]. *)
Definition is_success (status : Z) : bool :=
  negb (status =? 429) && negb ((400 <=? status) && (status <? 600)).

(** [resp] is a page carrying [items] and the next-cursor token [cursor]
    ([JNull] when the token is missing). *)
Definition is_page (resp : Response) (items : list Json) (cursor : Json) : Prop :=
  is_success (status_code resp) = true /\
  exists payload, json_body resp = Some payload /\
                  page_items payload = inr items /\
                  page_cursor payload = inr cursor.

(** [time.sleep] accepts the delay. *)
Definition sleepable (d : Q) : Prop := (Qnum d <? 0) = false /\ Qle_bool d sleep_max = true.

(** What the inter-page pause appends to the log. *)
Definition pause_events (sleep_seconds : Q) : list Event :=
  if Py.q_truthy sleep_seconds then [EvSleep sleep_seconds] else [].

(** Starting in state [srv], the server answers the request for [params]
    with a page that carries a next-cursor token, the request for that cursor
    with another, and so on down to a page without token: [pages] lists the
    items of these pages and [srv'] is the state the server ends in. *)
Inductive serves (self : OpenAlexClient)
  : server -> gmap string Json -> list (list Json) -> server -> Prop :=
| serves_last srv params resp srv' items cursor :
    session_get srv (request self params) = (inr resp, srv') ->
    is_page resp items cursor ->
    Py.truthy cursor = false ->
    serves self srv params [items] srv'
| serves_next srv params resp srv1 items cursor rest srv' :
    session_get srv (request self params) = (inr resp, srv1) ->
    is_page resp items cursor ->
    Py.truthy cursor = true ->
    serves self srv1 (<["cursor" := cursor]> params) rest srv' ->
    serves self srv params (items :: rest) srv'.

(** The characters an integer literal for [int] is made of. *)
Definition int_char (c : ascii) : bool :=
  Py.is_space c || bool_decide (Py.digit c <> None)
  || Ascii.eqb c "_"%char || Ascii.eqb c "+"%char || Ascii.eqb c "-"%char.

(** *** Comparing two runs

    Two worlds are similar from the logs [b1] and [b2] on when their upstream
    server, clock and identifier source are in the same state, and the
    requests and sleeps logged since [b1], respectively [b2], are the same. *)

Definition is_fetch (e : Event) : bool :=
  match e with EvGet _ | EvSleep _ => true | _ => false end.

Definition fetch_log (l : list Event) : list Event := List.filter is_fetch l.

Definition sim (b1 b2 : list Event) (w1 w2 : World) : Prop :=
  w_server w1 = w_server w2 /\ w_ticks w1 = w_ticks w2 /\ w_uuids w1 = w_uuids w2 /\
  exists n1 n2, w_log w1 = b1 ++ n1 /\ w_log w2 = b2 ++ n2 /\ fetch_log n1 = fetch_log n2.

Definition rmatch {A B} (R : A -> B -> Prop) (r1 : result A) (r2 : result B) : Prop :=
  match r1, r2 with
  | Ok a, Ok b => R a b
  | Raised e1, Raised e2 => e1 = e2
  | Diverged, Diverged => True
  | _, _ => False
  end.

(** The left run was cut short by an exception in a world singled out by [E]. *)
Definition escaped {A} (E : World -> Prop) (out : result A * World) : Prop :=
  (exists e, fst out = Raised e) /\ E (snd out).

(** From similar worlds, either the left run escapes, or both runs end in
    similar worlds with matching results. *)
Definition rel {A B} (E : World -> Prop) (b1 b2 : list Event)
    (c1 : M World A) (c2 : M World B) (R : A -> B -> Prop) : Prop :=
  forall w1 w2, sim b1 b2 w1 w2 ->
    escaped E (c1 w1) \/
    (sim b1 b2 (snd (c1 w1)) (snd (c2 w2)) /\ rmatch R (fst (c1 w1)) (fst (c2 w2))).

Definition next_match {A B} (R : A -> B -> Prop) (n1 : Next A) (n2 : Next B) : Prop :=
  match n1, n2 with
  | Break a, Break b => R a b
  | Again p1 c1 a, Again p2 c2 b => p1 = p2 /\ c1 = c2 /\ R a b
  | _, _ => False
  end.

(** The last logged event is a delivery call. *)
Definition ends_with_put (w : World) : Prop :=
  exists l stream entries, w_log w = l ++ [EvPut stream entries].

(** *** Invariants of a run *)

(** Since the log was [base], only events satisfying [phi] were appended. *)
Definition grows (phi : Event -> Prop) (base : list Event) (w : World) : Prop :=
  exists new, w_log w = base ++ new /\ Forall phi new.

(** A predicate on worlds that looks at the log only. *)
Definition on_log (X : World -> Prop) : Prop :=
  forall w w', w_log w = w_log w' -> X w -> X w'.

(** From a world in [Pre], the run ends in [Post] when it returns and in [F]
    when it raises or runs out of fuel. *)
Definition hoare {A} (F Pre : World -> Prop) (c : M World A)
    (Post : A -> World -> Prop) : Prop :=
  forall w, Pre w ->
    match fst (c w) with
    | Ok a => Post a (snd (c w))
    | _ => F (snd (c w))
    end.

(** As [grows], with the summary of [sent] and [failed] among the appended
    events. *)
Definition summarised (phi : Event -> Prop) (base : list Event) (sent failed : Z)
    (w : World) : Prop :=
  exists new, w_log w = base ++ new /\ Forall phi new /\
              In (EvPrint (MsgSummary sent failed)) new.

(** A line other than the summary. *)
Definition plain (m : Msg) : Prop :=
  match m with MsgSummary _ _ => False | _ => True end.

(** The invariant [I] of a loop, on the outcome of one pass. *)
Definition next_inv {A} (I : A -> World -> Prop) (n : Next A) (w : World) : Prop :=
  match n with Break a | Again _ _ a => I a w end.

(** A delivery call within the transport's ceiling. *)
Definition put_ok (e : Event) : Prop :=
  match e with
  | EvPut _ entries => 1 <= Z.of_nat (length entries) <= 500
  | _ => True
  end.

(** An event of a dry run: no delivery call, and a summary of zeros. *)
Definition dry_event (e : Event) : Prop :=
  match e with
  | EvPut _ _ => False
  | EvPrint (MsgSummary sent failed) => sent = 0 /\ failed = 0
  | _ => True
  end.

End Vocabulary.

(** ** Vocabulary of the further properties *)

(** [n] characters "/" *)
Fixpoint slashes (n : nat) : string :=
  match n with O => "" | S n' => String "/"%char (slashes n') end.

Definition is_get (e : Event) : bool :=
  match e with EvGet _ => true | _ => false end.

(** The requests among the events [l]. *)
Definition gets (l : list Event) : list Event := List.filter is_get l.

Section MoreVocabulary.

Context {P : Platform}.

(** A request of [self] whose parameters are those of [params0] but for the
    cursor. *)
Definition paging_request (self : OpenAlexClient) (params0 : gmap string Json)
    (e : Event) : Prop :=
  match e with
  | EvGet r =>
      req_url r = base_url self +:+ "/works"
      /\ req_timeout r = 30
      /\ req_headers r = headers_template (mailto self)
      /\ delete "cursor" (req_params r) = delete "cursor" params0
  | EvSleep _ => True
  | _ => False
  end.

(** The keys [OpenAlexWork] declares. *)
Definition declared_fields : list string :=
  ["id"; "doi"; "title"; "publication_year"; "host_venue"; "authorships"; "email";
   "event_ts"].

(** The work all of whose fields are [None]. *)
Definition empty_work : OpenAlexWork :=
  {| oa_id := None; oa_doi := None; oa_title := None; oa_publication_year := None;
     oa_host_venue := None; oa_authorships := None; oa_email := None;
     oa_event_ts := None |}.

(** The envelope [main] builds for a validated work: the clock reading [t]
    for both timestamps, the identifier [uid] drawn for it. *)
Definition envelope_of (cfg : Settings) (work : OpenAlexWork) (t : datetime)
    (uid : string) : Envelope :=
  {| id := oa_id work; doi := oa_doi work; title := oa_title work;
     publication_year := oa_publication_year work;
     host_venue := (v ← oa_host_venue work; hv_display_name v);
     primary_author := (a ← first_author work; ar_display_name a);
     email := Some (Str.or_else (oa_email work)
                      (synthetic_email_latin1 (a ← first_author work; ar_display_name a)
                         None));
     event_ts := t; ingest_ts := t; source := source_tag cfg; load_id := uid |}.

(** The world after one clock reading and one identifier drawn. *)
Definition advance (w : World) : World :=
  {| w_server := w_server w; w_transport := w_transport w; w_ticks := S (w_ticks w);
     w_uuids := S (w_uuids w); w_log := w_log w |}.

(** The world after one clock reading. *)
Definition tick (w : World) : World :=
  {| w_server := w_server w; w_transport := w_transport w; w_ticks := S (w_ticks w);
     w_uuids := w_uuids w; w_log := w_log w |}.

(** The keys of a dumped envelope, in field order. *)
Definition dumped_keys : list string :=
  ["id"; "doi"; "title"; "publication_year"; "host_venue"; "primary_author"; "email";
   "event_ts"; "ingest_ts"; "source"; "_LOAD_ID"].

(** [r.get("ErrorCode") or r.get("ErrorMessage")] is truthy. *)
Definition has_error (r : RequestResponse) : bool :=
  opt_truthy (ErrorCode r) || opt_truthy (ErrorMessage r).

(** The entries handed to the delivery stream by the calls among [l], in
    order. *)
Definition delivered (l : list Event) : list (list Z) :=
  flat_map (fun e => match e with EvPut _ entries => entries | _ => [] end) l.

(** The entries of the batch in flight. *)
Definition pending (st : Loop) : list (list Z) := entries_of (map model_dump (batch st)).

(** A delivery call of exactly [n] entries. *)
Definition put_of (n : Z) (e : Event) : Prop :=
  match e with EvPut _ entries => len entries = n | _ => True end.

(** The run returned. *)
Definition returned {A} (r : result A) : bool :=
  match r with Ok _ => true | _ => false end.

Definition is_put (e : Event) : bool :=
  match e with EvPut _ _ => true | _ => false end.

(** A delivery call of fewer than [n] entries, and at least one. *)
Definition short_put (n : Z) (e : Event) : Prop :=
  match e with EvPut _ entries => 1 <= len entries < n | _ => True end.

(** Since the log was [base]: first events whose delivery calls carry exactly
    [n] entries each, then events with at most one delivery call, a short
    one. *)
Definition batched (n : Z) (base : list Event) (w : World) : Prop :=
  exists full rest,
    w_log w = base ++ full ++ rest
    /\ Forall (put_of n) full
    /\ Forall (short_put n) rest
    /\ (length (List.filter is_put rest) <= 1)%nat.

(** [w'] has the server, the clock and the identifier source of [w] in the
    state they have in [w]. *)
Definition same_sources (w w' : World) : Prop :=
  w_server w' = w_server w /\ w_ticks w' = w_ticks w /\ w_uuids w' = w_uuids w.

(** The envelopes of the works [works], normalised one after the other from
    the clock reading number [t] and the identifier number [u] on. *)
Fixpoint envelopes_of (cfg : Settings) (works : list OpenAlexWork) (t u : nat)
  : list Envelope :=
  match works with
  | [] => []
  | work :: rest =>
      envelope_of cfg work (utcnow t) (uuid4 u) :: envelopes_of cfg rest (S t) (S u)
  end.

(** The invariant of [main]'s loop in non-dry-run mode, once the raw records
    [seen] have been drawn: they all validated; what was handed to the stream
    since [base], followed by the batch in flight, is the entries of their
    envelopes, in order, normalised from the clock reading number [t0] and
    the identifier number [u0] on; and the sent counter is the number of
    records no longer in flight. *)
Definition accounted (cfg : Settings) (base : list (list Z)) (t0 u0 : nat)
    (seen : list Json) (st : Loop) (w : World) : Prop :=
  exists works,
    Forall2 (fun raw work => model_validate raw = inr work) seen works
    /\ delivered (w_log w) ++ pending st
       = base ++ entries_of (map model_dump (envelopes_of cfg works t0 u0))
    /\ w_ticks w = (t0 + length seen)%nat
    /\ w_uuids w = (u0 + length seen)%nat
    /\ total_sent st = len seen - len (batch st).

End MoreVocabulary.

(** * Properties *)

(** ** utils.py: the synthetic address *)

(** The FIPS 180-4 test vector. *)
Example sha1_abc :
  Sha1.hexdigest (Str.encode_utf8 "abc") = "a9993e364706816aba3e25717850c26c9cd0d89d".
Proof. vm_compute. reflexivity. Qed.

Lemma hexchar_is_hex (n : Z) : 0 <= n < 16 -> is_hex_digit (Sha1.hexchar n) = true.
Proof.
  intros Hn.
  assert (Hall : forallb (fun k => is_hex_digit (Sha1.hexchar (Z.of_nat k))) (seq 0 16)
                 = true) by reflexivity.
  rewrite List.forallb_forall in Hall. specialize (Hall (Z.to_nat n)).
  rewrite Z2Nat.id in Hall by lia. apply Hall. apply in_seq. lia.
Qed.

Lemma nibble_range (w s : Z) : 0 <= Z.land (Z.shiftr w s) 15 < 16.
Proof.
  change 15 with (Z.ones 4). rewrite Z.land_ones by lia.
  apply Z.mod_pos_bound. reflexivity.
Qed.

Lemma hex32_is_hex (w : Z) : forallb is_hex_digit (Sha1.hex32 w) = true.
Proof.
  unfold Sha1.hex32, Sha1.nibbles. cbn [List.map forallb].
  rewrite !hexchar_is_hex by apply nibble_range. reflexivity.
Qed.

Lemma hexdigest_prefix10 (msg : list Z) :
  let h := Str.prefix 10 (Sha1.hexdigest msg) in
  String.length h = 10%nat /\ forallb is_hex_digit (Str.chars h) = true.
Proof.
  unfold Sha1.hexdigest. generalize (Sha1.digest msg) as r. intros r.
  unfold Sha1.hex32, Sha1.nibbles.
  cbn [List.map app string_of_list_ascii Str.prefix String.length Str.chars
       list_ascii_of_string forallb].
  split; [reflexivity |].
  rewrite !hexchar_is_hex by apply nibble_range. reflexivity.
Qed.





Lemma of_string_append (s t : string) :
  Text.of_string (s +:+ t) = Text.of_string s ++ Text.of_string t.
Proof.
  unfold Text.of_string, Str.chars.
  induction s as [| c s IH]; [reflexivity |].
  change (String c s +:+ t) with (String c (s +:+ t)).
  cbn [list_ascii_of_string map app]. rewrite IH. reflexivity.
Qed.



Lemma utf8_point_raises (n : Z) :
  Text.utf8_point n = if Text.is_surrogate n then inl UnicodeEncodeError
                      else Text.utf8_point n.
Proof.
  destruct (Text.is_surrogate n) eqn:Hs; [| reflexivity].
  unfold Text.is_surrogate in Hs. apply andb_true_iff in Hs as [Hlo Hhi].
  apply Z.leb_le in Hlo. apply Z.leb_le in Hhi. unfold Text.utf8_point.
  assert (H1 : (n <? 0x80) = false) by (apply Z.ltb_ge; lia).
  assert (H2 : (n <? 0x800) = false) by (apply Z.ltb_ge; lia).
  assert (H3 : (n <? 0x10000) = true) by (apply Z.ltb_lt; lia).
  assert (H4 : Text.is_surrogate n = true).
  { unfold Text.is_surrogate. apply andb_true_iff. split; apply Z.leb_le; lia. }
  rewrite H1, H2, H3, H4. reflexivity.
Qed.

Lemma utf8_point_returns (n : Z) :
  Text.is_surrogate n = false -> exists bytes, Text.utf8_point n = inr bytes.
Proof.
  intros Hs. unfold Text.utf8_point. rewrite Hs.
  destruct (n <? 0x80); [eauto |]. destruct (n <? 0x800); [eauto |].
  destruct (n <? 0x10000); eauto.
Qed.

(** [encode] returns exactly on the texts without surrogate. *)
Lemma encode_utf8_returns (t : Text.text) :
  Forall (fun n => Text.is_surrogate n = false) t ->
  exists bytes, Text.encode_utf8 t = inr bytes.
Proof.
  induction 1 as [| n t Hn Ht IH]; simpl; [eauto |].
  destruct (utf8_point_returns n Hn) as [b ->]. destruct IH as [bs ->]. eauto.
Qed.

Lemma encode_utf8_raises (t : Text.text) :
  Exists (fun n => Text.is_surrogate n = true) t ->
  Text.encode_utf8 t = inl UnicodeEncodeError.
Proof.
  induction t as [| n t IH]; intros Hex; [inversion Hex |]. simpl.
  destruct (Text.is_surrogate n) eqn:Hn.
  - rewrite utf8_point_raises, Hn. reflexivity.
  - destruct (utf8_point_returns n Hn) as [b ->].
    inversion Hex as [? ? Hhere | ? ? Hlater]; subst; [congruence |].
    rewrite (IH Hlater). reflexivity.
Qed.

(** C5 (as amended). [synthetic_email] is a function of the name and the
    domain alone (it reads neither the clock nor a random source). For every
    name, of whatever code points, that holds no surrogate its value is
    [user_<h>@<domain>], where [h] is the first 10 characters, all of them
    lower-case hexadecimal digits, of the SHA-1 hex digest of the UTF-8 bytes
    of the name, or of "unknown" when the name is [None] or the empty string;
    the domain is example.com when the argument is left out. A name that
    holds a surrogate has no UTF-8 bytes: the call raises
    [UnicodeEncodeError]. *)
Theorem synthetic_email_form (name domain : option Text.text) :
  (Forall (fun n => Text.is_surrogate n = false) (seed_of name) ->
   exists seed h,
     Text.encode_utf8 (seed_of name) = inr seed
     /\ h = Str.prefix 10 (Sha1.hexdigest seed)
     /\ synthetic_email name domain
        = inr (Text.of_string "user_" ++ Text.of_string h ++ Text.of_string "@"
               ++ default (Text.of_string "example.com") domain)
     /\ String.length h = 10%nat
     /\ forallb is_hex_digit (Str.chars h) = true)
  /\ (Exists (fun n => Text.is_surrogate n = true) (seed_of name) ->
      synthetic_email name domain = inl UnicodeEncodeError).
Proof.
  split.
  - intros Hplain. destruct (encode_utf8_returns _ Hplain) as [seed Hseed].
    exists seed, (Str.prefix 10 (Sha1.hexdigest seed)).
    split; [exact Hseed |]. split; [reflexivity |].
    split; [| apply hexdigest_prefix10].
    unfold synthetic_email. fold (seed_of name). rewrite Hseed.
    rewrite !of_string_append, <- !app_assoc. reflexivity.
  - intros Hsur. unfold synthetic_email. fold (seed_of name).
    rewrite (encode_utf8_raises _ Hsur). reflexivity.
Qed.

(** C5 as stated fails for the empty name: the digest is that of "unknown",
    not that of the name. *)
Lemma synthetic_email_empty_name :
  synthetic_email (Some []) None = inr (Text.of_string "user_50d8b4a941@example.com")
  /\ claimed_email (Some []) None = inr (Text.of_string "user_da39a3ee5e@example.com")
  /\ synthetic_email (Some []) None <> claimed_email (Some []) None.
Proof.
  split; [vm_compute; reflexivity |].
  split; [vm_compute; reflexivity |].
  vm_compute. discriminate.
Qed.

Example synthetic_email_alice :
  synthetic_email (Some (Text.of_string "Alice Smith")) None
  = inr (Text.of_string "user_99b060e16d@example.com").
Proof. vm_compute. reflexivity. Qed.

Example synthetic_email_domain_override :
  synthetic_email (Some (Text.of_string "Bob")) (Some (Text.of_string "acme.test"))
  = inr (Text.of_string "user_da6645f6e2@acme.test").
Proof. vm_compute. reflexivity. Qed.

(** Names beyond Latin-1, as [hashlib] and [str.encode] give them: "Łukasz"
    (two bytes for U+0141), "€uro" and "日本語" (three bytes a character), the
    G clef U+1D11E (four bytes). *)
Example synthetic_email_beyond_latin1 :
  synthetic_email (Some [321; 117; 107; 97; 115; 122]) None
  = inr (Text.of_string "user_36d41bea0d@example.com")
  /\ synthetic_email (Some [8364; 117; 114; 111]) None
     = inr (Text.of_string "user_b513a36894@example.com")
  /\ synthetic_email (Some [26085; 26412; 35486]) None
     = inr (Text.of_string "user_c12140a0ff@example.com")
  /\ synthetic_email (Some [119070]) None
     = inr (Text.of_string "user_e4a5ca681e@example.com").
Proof. repeat split; vm_compute; reflexivity. Qed.

Example encode_utf8_boundaries :
  Text.encode_utf8 [0x7F; 0x80; 0x7FF; 0x800; 0xD7FF; 0xE000; 0xFFFF; 0x10000; 0x10FFFF]
  = inr [127; 194; 128; 223; 191; 224; 160; 128; 237; 159; 191; 238; 128; 128;
         239; 191; 191; 240; 144; 128; 128; 244; 143; 191; 191].
Proof. vm_compute. reflexivity. Qed.

(** A lone surrogate, as [json.loads] gives for an escape like \ud800. *)
Example synthetic_email_surrogate :
  synthetic_email (Some [0xD800]) None = inl UnicodeEncodeError
  /\ synthetic_email (Some [97; 0xDFFF; 98]) None = inl UnicodeEncodeError.
Proof. split; vm_compute; reflexivity. Qed.

(** ** openalex_client.py: the paginated fetcher *)

Section Fetcher.

Context {P : Platform}.

Lemma bind_ok {A B} (c : M World A) (k : A -> M World B) w a w' :
  c w = (Ok a, w') -> bind c k w = k a w'.
Proof. intros H. unfold bind. rewrite H. reflexivity. Qed.

Lemma bind_raised {A B} (c : M World A) (k : A -> M World B) w e w' :
  c w = (Raised e, w') -> bind c k w = (Raised e, w').
Proof. intros H. unfold bind. rewrite H. reflexivity. Qed.

Lemma bind_diverged {A B} (c : M World A) (k : A -> M World B) w w' :
  c w = (Diverged, w') -> bind c k w = (Diverged, w').
Proof. intros H. unfold bind. rewrite H. reflexivity. Qed.

Lemma bind_ret_l {A B} (a : A) (k : A -> M World B) w : bind (ret a) k w = k a w.
Proof. reflexivity. Qed.

Lemma bind_ext {A B} (c : M World A) (k1 k2 : A -> M World B) w :
  (forall a w', k1 a w' = k2 a w') -> bind c k1 w = bind c k2 w.
Proof. intros H. unfold bind. destruct (c w) as [[a | e |] w']; auto. Qed.

Lemma get_ok (w : World) (r : Request) resp srv :
  session_get (w_server w) r = (inr resp, srv) -> get r w = (Ok resp, after_get w r srv).
Proof. intros H. unfold get. rewrite H. reflexivity. Qed.

Lemma sleep_ok (d : Q) (w : World) :
  sleepable d -> sleep d w = (Ok tt, log (EvSleep d) w).
Proof. intros [Hneg Hmax]. unfold sleep. rewrite Hneg, Hmax. reflexivity. Qed.

Lemma sleepable_inject (n : Z) :
  0 <= n -> (inject_Z n <= sleep_max)%Q -> sleepable (inject_Z n).
Proof.
  intros Hn Hmax. split.
  - simpl. apply Z.ltb_ge. exact Hn.
  - apply Qle_bool_iff. exact Hmax.
Qed.

Lemma for_each_collect (items acc : list Json) (w : World) :
  for_each collect items acc w = (Ok (acc ++ items), w).
Proof.
  revert acc. induction items as [| x items IH]; intros acc; simpl.
  - rewrite app_nil_r. reflexivity.
  - unfold bind, collect at 1, ret. rewrite IH, <- app_assoc. reflexivity.
Qed.

(** One pass that meets a rate-limit signal whose hint is a usable delay. *)
Lemma iteration_429 {A} self max_pages sleep_seconds params page_count
    (body : A -> Json -> M World A) acc w resp srv delay :
  session_get (w_server w) (request self params) = (inr resp, srv) ->
  status_code resp = 429 ->
  retry_after resp = Some delay ->
  sleepable (inject_Z delay) ->
  iteration self max_pages sleep_seconds params page_count body acc w
  = (Ok (Again params page_count acc),
     log (EvSleep (inject_Z delay)) (after_get w (request self params) srv)).
Proof.
  intros Hget Hst Hretry Hsleep. unfold iteration.
  rewrite (bind_ok _ _ _ _ _ (get_ok _ _ _ _ Hget)).
  rewrite Hst, Z.eqb_refl, Hretry.
  rewrite (bind_ok _ _ _ _ _ (sleep_ok _ _ Hsleep)). reflexivity.
Qed.

(** One pass that meets a rate-limit signal whose hint [int] rejects. *)
Lemma iteration_429_invalid {A} self max_pages sleep_seconds params page_count
    (body : A -> Json -> M World A) acc w resp srv :
  session_get (w_server w) (request self params) = (inr resp, srv) ->
  status_code resp = 429 ->
  retry_after resp = None ->
  iteration self max_pages sleep_seconds params page_count body acc w
  = (Raised (ValueError "invalid literal for int() with base 10"),
     after_get w (request self params) srv).
Proof.
  intros Hget Hst Hretry. unfold iteration.
  rewrite (bind_ok _ _ _ _ _ (get_ok _ _ _ _ Hget)).
  rewrite Hst, Z.eqb_refl, Hretry. reflexivity.
Qed.

Lemma is_success_inv (s : Z) :
  is_success s = true -> (s =? 429) = false /\ ((400 <=? s) && (s <? 600)) = false.
Proof.
  unfold is_success. intros H. apply andb_true_iff in H as [H1 H2].
  apply negb_true_iff in H1. apply negb_true_iff in H2. auto.
Qed.

(** One pass over a page, down to the reading of the next-cursor token. *)
Lemma iteration_page {A} self max_pages sleep_seconds params page_count
    (body : A -> Json -> M World A) acc w resp srv items cursor :
  session_get (w_server w) (request self params) = (inr resp, srv) ->
  is_page resp items cursor ->
  iteration self max_pages sleep_seconds params page_count body acc w
  = (let! acc := for_each body items acc in
     if negb (Py.truthy cursor) then ret (Break acc)
     else if cap_reached max_pages (page_count + 1) then ret (Break acc)
     else
       let! _ := (if Py.q_truthy sleep_seconds then sleep sleep_seconds else ret tt) in
       ret (Again (<["cursor" := cursor]> params) (page_count + 1) acc))
      (after_get w (request self params) srv).
Proof.
  intros Hget [Hok (payload & Hbody & Hitems & Hcursor)].
  apply is_success_inv in Hok as [H429 Herr]. unfold iteration.
  rewrite (bind_ok _ _ _ _ _ (get_ok _ _ _ _ Hget)).
  rewrite H429. unfold raise_for_status. rewrite Herr, bind_ret_l.
  unfold resp_json. rewrite Hbody, bind_ret_l, Hitems. cbn [lift]. rewrite bind_ret_l.
  apply bind_ext. intros acc' w'. rewrite Hcursor. cbn [lift]. rewrite bind_ret_l.
  reflexivity.
Qed.

End Fetcher.

(** ** Two runs side by side *)

Section Relational.

Context {P : Platform}.
Variable E : World -> Prop.
Variables b1 b2 : list Event.

Lemma sim_log_both e w1 w2 : sim b1 b2 w1 w2 -> sim b1 b2 (log e w1) (log e w2).
Proof.
  intros (Hs & Ht & Hu & n1 & n2 & H1 & H2 & Hf). repeat split; simpl; auto.
  exists (n1 ++ [e]), (n2 ++ [e]). rewrite H1, H2, !app_assoc.
  repeat split. unfold fetch_log in *. rewrite !List.filter_app, Hf. reflexivity.
Qed.

Lemma sim_log_l e w1 w2 : is_fetch e = false -> sim b1 b2 w1 w2 -> sim b1 b2 (log e w1) w2.
Proof.
  intros He (Hs & Ht & Hu & n1 & n2 & H1 & H2 & Hf). repeat split; simpl; auto.
  exists (n1 ++ [e]), n2. rewrite H1, app_assoc. repeat split; auto.
  unfold fetch_log in *. rewrite List.filter_app. simpl. rewrite He, app_nil_r. exact Hf.
Qed.

Lemma sim_log_r e w1 w2 : is_fetch e = false -> sim b1 b2 w1 w2 -> sim b1 b2 w1 (log e w2).
Proof.
  intros He (Hs & Ht & Hu & n1 & n2 & H1 & H2 & Hf). repeat split; simpl; auto.
  exists n1, (n2 ++ [e]). rewrite H2, app_assoc. repeat split; auto.
  unfold fetch_log in *. rewrite List.filter_app. simpl. rewrite He, app_nil_r. exact Hf.
Qed.

Lemma rel_ret {A B} (R : A -> B -> Prop) a b : R a b -> rel E b1 b2 (ret a) (ret b) R.
Proof. intros HR w1 w2 Hsim. right. simpl. auto. Qed.

Lemma rel_raise {A B} (R : A -> B -> Prop) e : rel E b1 b2 (raise e) (raise e) R.
Proof. intros w1 w2 Hsim. right. simpl. auto. Qed.

Lemma rel_lift {A} (x : exn + A) : rel E b1 b2 (lift x) (lift x) eq.
Proof. destruct x; [apply rel_raise | apply rel_ret; reflexivity]. Qed.

Lemma rel_bind {A B A' B'} (R : A -> B -> Prop) (R' : A' -> B' -> Prop)
    (c1 : M World A) (c2 : M World B) (k1 : A -> M World A') (k2 : B -> M World B') :
  rel E b1 b2 c1 c2 R ->
  (forall a b, R a b -> rel E b1 b2 (k1 a) (k2 b) R') ->
  rel E b1 b2 (bind c1 k1) (bind c2 k2) R'.
Proof.
  intros Hc Hk w1 w2 Hsim. specialize (Hc w1 w2 Hsim). unfold bind.
  destruct (c1 w1) as [r1 w1'], (c2 w2) as [r2 w2'].
  destruct Hc as [[[e He] HE] | [Hsim' Hm]]; simpl in *.
  - subst r1. left. split; simpl; eauto.
  - destruct r1 as [a | e1 |], r2 as [b | e2 |]; simpl in Hm; try contradiction.
    + apply Hk; assumption.
    + right. simpl. auto.
    + right. simpl. auto.
Qed.

Lemma rel_get r : rel E b1 b2 (get r) (get r) eq.
Proof.
  intros w1 w2 Hsim. right. unfold get.
  destruct Hsim as (Hs & Ht & Hu & n1 & n2 & H1 & H2 & Hf). rewrite <- Hs.
  destruct (session_get (w_server w1) r) as [[e | resp] srv]; simpl.
  all: split; [| reflexivity].
  all: split; [reflexivity |]; split; [assumption |]; split; [assumption |].
  all: exists (n1 ++ [EvGet r]), (n2 ++ [EvGet r]); rewrite H1, H2, !app_assoc.
  all: repeat split; unfold fetch_log in *; rewrite !List.filter_app, Hf; reflexivity.
Qed.

Lemma rel_sleep d : rel E b1 b2 (sleep d) (sleep d) eq.
Proof.
  intros w1 w2 Hsim. right. unfold sleep.
  destruct (Qnum d <? 0); [simpl; auto |].
  destruct (Qle_bool d sleep_max); simpl; [| auto].
  split; [| reflexivity]. apply sim_log_both. exact Hsim.
Qed.

Lemma rel_now : rel E b1 b2 now now eq.
Proof.
  intros w1 w2 (Hs & Ht & Hu & Hl). right. unfold now. simpl. rewrite Ht.
  split; [| reflexivity]. repeat split; auto.
Qed.

Lemma rel_new_uuid : rel E b1 b2 new_uuid new_uuid eq.
Proof.
  intros w1 w2 (Hs & Ht & Hu & Hl). right. unfold new_uuid. simpl. rewrite Hu.
  split; [| reflexivity]. repeat split; auto.
Qed.

Lemma rel_print_l m : rel E b1 b2 (print m) (ret tt) eq.
Proof.
  intros w1 w2 Hsim. right. unfold print. simpl. split; [| reflexivity].
  apply sim_log_l; [reflexivity | exact Hsim].
Qed.

Lemma rel_print_r m : rel E b1 b2 (ret tt) (print m) eq.
Proof.
  intros w1 w2 Hsim. right. unfold print. simpl. split; [| reflexivity].
  apply sim_log_r; [reflexivity | exact Hsim].
Qed.

Lemma rel_print m1 m2 : rel E b1 b2 (print m1) (print m2) eq.
Proof.
  intros w1 w2 Hsim. right. unfold print. simpl. split; [| reflexivity].
  apply sim_log_l; [reflexivity |]. apply sim_log_r; [reflexivity | exact Hsim].
Qed.

Lemma rel_weaken {A B} (R R' : A -> B -> Prop) (c1 : M World A) (c2 : M World B) :
  (forall a b, R a b -> R' a b) -> rel E b1 b2 c1 c2 R -> rel E b1 b2 c1 c2 R'.
Proof.
  intros HR Hc w1 w2 Hsim. destruct (Hc w1 w2 Hsim) as [Hesc | [Hsim' Hm]]; [left; exact Hesc |].
  right. split; [exact Hsim' |].
  destruct (fst (c1 w1)), (fst (c2 w2)); simpl in *; auto.
Qed.

Lemma rel_for_each {A B X} (R : A -> B -> Prop)
    (body1 : A -> X -> M World A) (body2 : B -> X -> M World B) (xs : list X) :
  (forall a b x, R a b -> rel E b1 b2 (body1 a x) (body2 b x) R) ->
  forall a b, R a b -> rel E b1 b2 (for_each body1 xs a) (for_each body2 xs b) R.
Proof.
  intros Hbody. induction xs as [| x xs IH]; intros a b HR; simpl.
  - apply rel_ret. exact HR.
  - eapply rel_bind; [apply Hbody; exact HR |]. intros a' b' HR'. apply IH. exact HR'.
Qed.

Lemma rel_iteration {A B} (R : A -> B -> Prop) self max_pages sleep_seconds params
    page_count (body1 : A -> Json -> M World A) (body2 : B -> Json -> M World B) a b :
  (forall a b x, R a b -> rel E b1 b2 (body1 a x) (body2 b x) R) ->
  R a b ->
  rel E b1 b2 (iteration self max_pages sleep_seconds params page_count body1 a)
              (iteration self max_pages sleep_seconds params page_count body2 b)
              (next_match R).
Proof.
  intros Hbody HR. unfold iteration.
  eapply rel_bind; [apply rel_get |]. intros resp ? <-.
  destruct (status_code resp =? 429).
  - destruct (retry_after resp) as [delay |]; [| apply rel_raise].
    eapply rel_bind; [apply rel_sleep |]. intros _ _ _. apply rel_ret. simpl. auto.
  - eapply rel_bind with (R := eq).
    { unfold raise_for_status. destruct (_ && _); [apply rel_raise | apply rel_ret; reflexivity]. }
    intros _ _ _. eapply rel_bind with (R := eq).
    { unfold resp_json. destruct (json_body resp); [apply rel_ret; reflexivity | apply rel_raise]. }
    intros payload ? <-. eapply rel_bind; [apply rel_lift |]. intros items ? <-.
    eapply rel_bind; [apply rel_for_each; eassumption |]. intros a' b' HR'.
    eapply rel_bind; [apply rel_lift |]. intros cursor ? <-.
    destruct (negb (Py.truthy cursor)); [apply rel_ret; exact HR' |].
    destruct (cap_reached max_pages (page_count + 1)); [apply rel_ret; exact HR' |].
    eapply rel_bind with (R := eq).
    { destruct (Py.q_truthy sleep_seconds); [apply rel_sleep | apply rel_ret; reflexivity]. }
    intros _ _ _. apply rel_ret. simpl. auto.
Qed.

Lemma rel_works_loop {A B} (R : A -> B -> Prop) fuel self max_pages sleep_seconds
    (body1 : A -> Json -> M World A) (body2 : B -> Json -> M World B) :
  (forall a b x, R a b -> rel E b1 b2 (body1 a x) (body2 b x) R) ->
  forall params page_count a b, R a b ->
  rel E b1 b2 (works_loop fuel self max_pages sleep_seconds params page_count body1 a)
              (works_loop fuel self max_pages sleep_seconds params page_count body2 b) R.
Proof.
  intros Hbody. induction fuel as [| fuel IH]; intros params page_count a b HR; simpl.
  - intros w1 w2 Hsim. right. simpl. auto.
  - eapply rel_bind; [apply rel_iteration; eassumption |].
    intros [a' | p1 c1 a'] [b' | p2 c2 b']; simpl; try contradiction.
    + intros HR'. apply rel_ret. exact HR'.
    + intros (-> & -> & HR'). apply IH. exact HR'.
Qed.

End Relational.

(** ** The fetcher's claims *)

Section FetcherClaims.

Context {P : Platform}.

Lemma rmatch_eq {A} (r1 r2 : result A) : rmatch eq r1 r2 -> r1 = r2.
Proof. destruct r1, r2; simpl; intros H; subst; try contradiction; reflexivity. Qed.

Lemma retry_after_hint (resp : Response) (delay : Z) :
  match headers resp !! "Retry-After" with
  | Some v => Py.int v = Some delay
  | None => delay = 2
  end ->
  retry_after resp = Some delay.
Proof.
  unfold retry_after. destruct (headers resp !! "Retry-After") as [v |]; simpl.
  - auto.
  - intros ->. reflexivity.
Qed.

(** C3 (as amended). When the server answers a request with status 429 and
    the Retry-After header is absent (the delay is then 2 seconds) or holds an
    integer literal that [time.sleep] accepts, the fetcher logs the request,
    sleeps for that delay, and goes round the loop with the same parameters
    (cursor included), the same page count and the same running state: the
    rest of the run is the run of one unit of fuel less from that world. The
    items it yields are the items of a run in which the server had been in its
    post-429 state from the start. *)
Theorem rate_limit_backoff {A} (fuel : nat) (self : OpenAlexClient) (max_pages : option Z)
    (sleep_seconds : Q) (params : gmap string Json) (page_count : Z)
    (body : A -> Json -> M World A) (acc : A) (w : World)
    (resp : Response) (srv : server) (delay : Z) :
  session_get (w_server w) (request self params) = (inr resp, srv) ->
  status_code resp = 429 ->
  match headers resp !! "Retry-After" with
  | Some v => Py.int v = Some delay
  | None => delay = 2
  end ->
  0 <= delay ->
  (inject_Z delay <= sleep_max)%Q ->
  iteration self max_pages sleep_seconds params page_count body acc w
  = (Ok (Again params page_count acc),
     log (EvSleep (inject_Z delay)) (after_get w (request self params) srv))
  /\ works_loop (S fuel) self max_pages sleep_seconds params page_count body acc w
     = works_loop fuel self max_pages sleep_seconds params page_count body acc
         (log (EvSleep (inject_Z delay)) (after_get w (request self params) srv))
  /\ forall items0,
       fst (works_loop (S fuel) self max_pages sleep_seconds params page_count
              collect items0 w)
       = fst (works_loop fuel self max_pages sleep_seconds params page_count
                collect items0 (with_server w srv)).
Proof.
  intros Hget Hst Hhint Hpos Hmax.
  pose proof (retry_after_hint _ _ Hhint) as Hretry.
  pose proof (sleepable_inject _ Hpos Hmax) as Hsleep.
  assert (Hloop : forall B (bd : B -> Json -> M World B) b,
    works_loop (S fuel) self max_pages sleep_seconds params page_count bd b w
    = works_loop fuel self max_pages sleep_seconds params page_count bd b
        (log (EvSleep (inject_Z delay)) (after_get w (request self params) srv))).
  { intros B bd b. cbn [works_loop].
    rewrite (bind_ok _ _ _ _ _
               (iteration_429 self max_pages sleep_seconds params page_count bd b
                  w resp srv delay Hget Hst Hretry Hsleep)).
    reflexivity. }
  split; [eapply iteration_429; eassumption |]. split; [apply Hloop |].
  intros items0. rewrite Hloop. apply rmatch_eq.
  pose proof (rel_works_loop (fun _ => False)
                (w_log w ++ [EvGet (request self params); EvSleep (inject_Z delay)])
                (w_log w) (@eq (list Json)) fuel self max_pages sleep_seconds
                collect collect) as Hrel.
  destruct (Hrel (fun a b x Hab => rel_ret _ _ _ _ _ _
                    (f_equal (fun l => l ++ [x]) Hab))
                 params page_count items0 items0 eq_refl
                 (log (EvSleep (inject_Z delay)) (after_get w (request self params) srv))
                 (with_server w srv)) as [[_ []] | [_ Hm]]; [| exact Hm].
  repeat split. exists [], []. simpl. rewrite !app_nil_r, <- app_assoc. auto.
Qed.

(** C10. When the server answers with status 429 and a Retry-After value
    that [int] does not read as a decimal integer, [works_stream] raises the
    [ValueError] of the conversion: the run ends there, with the request
    logged and neither a sleep nor a retry after it. *)
Theorem retry_after_parse_error {A} (fuel : nat) (self : OpenAlexClient)
    (max_pages : option Z) (sleep_seconds : Q) (params : gmap string Json)
    (page_count : Z) (body : A -> Json -> M World A) (acc : A) (w : World)
    (resp : Response) (srv : server) (v : string) :
  session_get (w_server w) (request self params) = (inr resp, srv) ->
  status_code resp = 429 ->
  headers resp !! "Retry-After" = Some v ->
  Py.int v = None ->
  works_loop (S fuel) self max_pages sleep_seconds params page_count body acc w
  = (Raised (ValueError "invalid literal for int() with base 10"),
     after_get w (request self params) srv).
Proof.
  intros Hget Hst Hhdr Hint. cbn [works_loop].
  apply bind_raised. eapply iteration_429_invalid; try eassumption.
  unfold retry_after. rewrite Hhdr. exact Hint.
Qed.

Lemma pause_ok (sleep_seconds : Q) (w : World) :
  (Py.q_truthy sleep_seconds = true -> sleepable sleep_seconds) ->
  (if Py.q_truthy sleep_seconds then sleep sleep_seconds else ret tt) w
  = (Ok tt, {| w_server := w_server w; w_transport := w_transport w;
               w_ticks := w_ticks w; w_uuids := w_uuids w;
               w_log := w_log w ++ pause_events sleep_seconds |}).
Proof.
  intros H. unfold pause_events. destruct (Py.q_truthy sleep_seconds).
  - rewrite sleep_ok by auto. reflexivity.
  - unfold ret. rewrite app_nil_r. destruct w; reflexivity.
Qed.

(** A page whose next-cursor token is missing or empty ends the loop, whatever
    the page cap and the page count. *)
Lemma last_page_ends {A} (fuel : nat) self max_pages sleep_seconds params page_count
    (body : A -> Json -> M World A) acc w resp srv items cursor :
  session_get (w_server w) (request self params) = (inr resp, srv) ->
  is_page resp items cursor ->
  Py.truthy cursor = false ->
  works_loop (S fuel) self max_pages sleep_seconds params page_count body acc w
  = for_each body items acc (after_get w (request self params) srv).
Proof.
  intros Hget Hpage Hc. cbn [works_loop].
  unfold bind at 1. rewrite (iteration_page _ _ _ _ _ _ _ _ _ _ _ _ Hget Hpage).
  rewrite Hc. simpl. unfold bind.
  destruct (for_each body items acc _) as [[a | e |] w']; reflexivity.
Qed.

(** A page with a next-cursor token, below the page cap: the loop goes on
    with the cursor advanced and the page counted. *)
Lemma next_page_follows (fuel : nat) self max_pages sleep_seconds params page_count
    acc w resp srv items cursor :
  session_get (w_server w) (request self params) = (inr resp, srv) ->
  is_page resp items cursor ->
  Py.truthy cursor = true ->
  cap_reached max_pages (page_count + 1) = false ->
  (Py.q_truthy sleep_seconds = true -> sleepable sleep_seconds) ->
  works_loop (S fuel) self max_pages sleep_seconds params page_count collect acc w
  = works_loop fuel self max_pages sleep_seconds (<["cursor" := cursor]> params)
      (page_count + 1) collect (acc ++ items)
      {| w_server := srv; w_transport := w_transport w; w_ticks := w_ticks w;
         w_uuids := w_uuids w;
         w_log := (w_log w ++ [EvGet (request self params)])
                    ++ pause_events sleep_seconds |}.
Proof.
  intros Hget Hpage Hc Hcap Hsleep. cbn [works_loop].
  unfold bind at 1. rewrite (iteration_page _ _ _ _ _ _ _ _ _ _ _ _ Hget Hpage).
  rewrite Hc, Hcap. simpl. unfold bind at 1. rewrite for_each_collect.
  unfold bind at 1. rewrite (pause_ok _ _ Hsleep). reflexivity.
Qed.

(** C4. When the server answers the first request with a page whose
    next-cursor token is truthy (such as "abc") and the request for that
    cursor with a page whose token is null, absent or empty, and neither a
    page cap of 1 nor an invalid inter-page delay cuts the run short,
    [works_stream] yields the items of the first page followed by those of the
    second, each in source order, and returns after exactly these two
    requests. *)
Theorem two_pages_in_order (fuel : nat) (self : OpenAlexClient) (per_page : Z)
    (updated_since : option string) (max_pages : option Z) (sleep_seconds : Q)
    (query_params : option (gmap string Json)) (w : World)
    (r1 r2 : Response) (s1 s2 : server) (items1 items2 : list Json) (c1 c2 : Json) :
  session_get (w_server w)
    (request self (initial_params self per_page updated_since query_params))
  = (inr r1, s1) ->
  is_page r1 items1 c1 ->
  Py.truthy c1 = true ->
  session_get s1
    (request self (<["cursor" := c1]>
                     (initial_params self per_page updated_since query_params)))
  = (inr r2, s2) ->
  is_page r2 items2 c2 ->
  Py.truthy c2 = false ->
  cap_reached max_pages 1 = false ->
  (Py.q_truthy sleep_seconds = true -> sleepable sleep_seconds) ->
  exists w',
    works_list (S (S fuel)) self per_page updated_since max_pages sleep_seconds
      query_params w = (Ok (items1 ++ items2), w')
    /\ w_server w' = s2
    /\ w_log w'
       = w_log w
         ++ [EvGet (request self (initial_params self per_page updated_since query_params))]
         ++ pause_events sleep_seconds
         ++ [EvGet (request self
                      (<["cursor" := c1]>
                         (initial_params self per_page updated_since query_params)))].
Proof.
  intros Hget1 Hp1 Hc1 Hget2 Hp2 Hc2 Hcap Hsleep.
  unfold works_list, works_stream.
  rewrite (next_page_follows (S fuel) self max_pages sleep_seconds _ 0 [] w r1 s1
             items1 c1 Hget1 Hp1 Hc1 Hcap Hsleep).
  erewrite last_page_ends; [| exact Hget2 | exact Hp2 | exact Hc2].
  rewrite for_each_collect. eexists. split; [reflexivity |].
  split; [reflexivity |]. simpl. rewrite <- !app_assoc. reflexivity.
Qed.

End FetcherClaims.


(** ** [int] on header values *)

Lemma lstrip_keeps (c : ascii) (l : list ascii) :
  In c l -> Py.is_space c = false -> In c (Py.lstrip l).
Proof.
  intros Hin Hc. induction l as [| x l IH]; [contradiction |].
  simpl. destruct (Py.is_space x) eqn:Hx.
  - destruct Hin as [-> | Hin]; [congruence | auto].
  - exact Hin.
Qed.

Lemma strip_keeps (c : ascii) (l : list ascii) :
  In c l -> Py.is_space c = false -> In c (Py.strip l).
Proof.
  intros Hin Hc. unfold Py.strip. apply in_rev. rewrite rev_involutive.
  apply lstrip_keeps; [| exact Hc]. apply -> in_rev. apply lstrip_keeps; assumption.
Qed.

Lemma digits_foreign (c : ascii) (l : list ascii) :
  In c l -> Py.digit c = None -> Ascii.eqb c "_"%char = false ->
  forall acc count after_digit, Py.digits l acc count after_digit = None.
Proof.
  intros Hin Hd Hu. induction l as [| x l IH]; [contradiction |].
  intros acc count after_digit. simpl.
  destruct (Ascii.eqb x "_"%char) eqn:Hx.
  - destruct after_digit; [| reflexivity].
    destruct Hin as [-> | Hin]; [congruence | auto].
  - destruct (Py.digit x) eqn:Hdx; [| reflexivity].
    destruct Hin as [-> | Hin]; [congruence | auto].
Qed.

Lemma unsigned_foreign (c : ascii) (l : list ascii) :
  In c l -> Py.digit c = None -> Ascii.eqb c "_"%char = false -> Py.unsigned l = None.
Proof. intros. unfold Py.unsigned. erewrite digits_foreign; eauto. Qed.

(** [int] rejects every string with a character other than digits, signs,
    underscores and white space, the HTTP-date form of Retry-After among
    them. *)
Lemma int_rejects_foreign (s : string) :
  forallb int_char (Str.chars s) = false -> Py.int s = None.
Proof.
  intros H.
  assert (Hex : exists c, In c (Str.chars s) /\ int_char c = false).
  { induction (Str.chars s) as [| x l IH]; [discriminate |].
    simpl in H. destruct (int_char x) eqn:Hx.
    - destruct (IH H) as (c & Hin & Hc). exists c. split; [right |]; assumption.
    - exists x. split; [left; reflexivity | assumption]. }
  destruct Hex as (c & Hin & Hc). unfold int_char in Hc.
  apply orb_false_iff in Hc as [Hc Hcm]. apply orb_false_iff in Hc as [Hc Hcp].
  apply orb_false_iff in Hc as [Hc Hcu]. apply orb_false_iff in Hc as [Hc Hcd].
  assert (Hd : Py.digit c = None).
  { apply bool_decide_eq_false in Hcd. destruct (Py.digit c); [exfalso; apply Hcd |]; congruence. }
  pose proof (strip_keeps c _ Hin Hc) as Hin'. unfold Py.int.
  destruct (Py.strip (Str.chars s)) as [| x r]; [reflexivity |].
  destruct (Ascii.eqb x "-"%char) eqn:Hminus.
  - destruct Hin' as [-> | Hin']; [congruence |].
    rewrite (unsigned_foreign c r) by assumption. reflexivity.
  - destruct (Ascii.eqb x "+"%char) eqn:Hplus.
    + destruct Hin' as [-> | Hin']; [congruence |].
      apply (unsigned_foreign c r); assumption.
    + apply (unsigned_foreign c (x :: r)); assumption.
Qed.

Example int_rejects_http_date : Py.int "Wed, 21 Oct 2015 07:28:00 GMT" = None.
Proof. apply int_rejects_foreign. reflexivity. Qed.

Example int_reads_seconds :
  Py.int "120" = Some 120 /\ Py.int " 5 " = Some 5 /\ Py.int "1_0" = Some 10
  /\ Py.int "-1" = Some (-1) /\ Py.int "" = None /\ Py.int "1.5" = None.
Proof. repeat split. Qed.

(** ** Invariants of a run *)

Section Hoare.

Context {P : Platform}.
Variable F : World -> Prop.

Lemma hoare_ret {A} (Pre : World -> Prop) (Post : A -> World -> Prop) a :
  (forall w, Pre w -> Post a w) -> hoare F Pre (ret a) Post.
Proof. intros H w Hw. simpl. auto. Qed.

Lemma hoare_raise {A} (Pre : World -> Prop) (Post : A -> World -> Prop) e :
  (forall w, Pre w -> F w) -> hoare F Pre (raise e) Post.
Proof. intros H w Hw. simpl. auto. Qed.

Lemma hoare_lift {A} (X : World -> Prop) (x : exn + A) :
  (forall w, X w -> F w) -> hoare F X (lift x) (fun _ => X).
Proof. intros H. destruct x; [apply hoare_raise; exact H | apply hoare_ret; auto]. Qed.

Lemma hoare_bind {A B} (Pre : World -> Prop) (Mid : A -> World -> Prop)
    (Post : B -> World -> Prop) (c : M World A) (k : A -> M World B) :
  hoare F Pre c Mid -> (forall a, hoare F (Mid a) (k a) Post) ->
  hoare F Pre (bind c k) Post.
Proof.
  intros Hc Hk w Hw. specialize (Hc w Hw). unfold bind.
  destruct (c w) as [[a | e |] w']; simpl in *; auto. apply Hk. exact Hc.
Qed.

Lemma hoare_conseq {A} (Pre Pre' : World -> Prop) (Post Post' : A -> World -> Prop)
    (c : M World A) :
  (forall w, Pre' w -> Pre w) -> (forall a w, Post a w -> Post' a w) ->
  hoare F Pre c Post -> hoare F Pre' c Post'.
Proof.
  intros Hpre Hpost Hc w Hw. specialize (Hc w (Hpre w Hw)).
  destruct (fst (c w)); auto.
Qed.

Lemma hoare_now (X : World -> Prop) : on_log X -> hoare F X now (fun _ => X).
Proof. intros HX w Hw. simpl. eapply HX; [| exact Hw]. reflexivity. Qed.

Lemma hoare_new_uuid (X : World -> Prop) : on_log X -> hoare F X new_uuid (fun _ => X).
Proof. intros HX w Hw. simpl. eapply HX; [| exact Hw]. reflexivity. Qed.

Lemma hoare_print (X Y : World -> Prop) m :
  (forall w, X w -> Y (log (EvPrint m) w)) -> hoare F X (print m) (fun _ => Y).
Proof. intros H w Hw. simpl. auto. Qed.

Lemma hoare_get (X : World -> Prop) r :
  on_log X -> (forall w, X w -> X (log (EvGet r) w)) -> (forall w, X w -> F w) ->
  hoare F X (get r) (fun _ => X).
Proof.
  intros HX Hlog HF w Hw. unfold get.
  destruct (session_get (w_server w) r) as [[e | resp] srv]; simpl.
  - apply HF, Hlog. eapply HX; [| exact Hw]. reflexivity.
  - apply Hlog. eapply HX; [| exact Hw]. reflexivity.
Qed.

Lemma hoare_sleep (X : World -> Prop) d :
  (forall w, X w -> X (log (EvSleep d) w)) -> (forall w, X w -> F w) ->
  hoare F X (sleep d) (fun _ => X).
Proof.
  intros Hlog HF w Hw. unfold sleep.
  destruct (Qnum d <? 0); simpl; [auto |].
  destruct (Qle_bool d sleep_max); simpl; auto.
Qed.

Lemma hoare_put_records (X Y : World -> Prop) self records :
  on_log Y ->
  (forall w, X w -> Y (log (EvPut (stream_name self) (entries_of records)) w)) ->
  (forall w, Y w -> F w) ->
  hoare F X (put_records self records) (fun _ => Y).
Proof.
  intros HY Hlog HF w Hw. unfold put_records.
  destruct (put_record_batch _ _ _) as [[e | resp] t]; simpl.
  - apply HF. eapply HY; [| apply (Hlog w Hw)]. reflexivity.
  - eapply HY; [| apply (Hlog w Hw)]. reflexivity.
Qed.

Lemma hoare_for_each {A X} (I : A -> World -> Prop) (body : A -> X -> M World A)
    (xs : list X) :
  (forall a x, hoare F (I a) (body a x) I) ->
  forall a, hoare F (I a) (for_each body xs a) I.
Proof.
  intros Hbody. induction xs as [| x xs IH]; intros a; simpl.
  - apply hoare_ret. auto.
  - eapply hoare_bind; [apply Hbody | exact IH].
Qed.

Section Loop.

Context {A : Type}.
Variable I : A -> World -> Prop.
Variable body : A -> Json -> M World A.
Hypothesis I_on_log : forall a, on_log (I a).
Hypothesis I_fetch : forall a e w, is_fetch e = true -> I a w -> I a (log e w).
Hypothesis I_F : forall a w, I a w -> F w.
Hypothesis I_body : forall a x, hoare F (I a) (body a x) I.

Lemma hoare_iteration self max_pages pause params page_count a :
  hoare F (I a) (iteration self max_pages pause params page_count body a) (next_inv I).
Proof.
  unfold iteration.
  eapply hoare_bind; [apply hoare_get; eauto |]. intros resp.
  destruct (status_code resp =? 429).
  - destruct (retry_after resp) as [delay |]; [| apply hoare_raise; eauto].
    eapply hoare_bind; [apply hoare_sleep; eauto |]. intros ?. apply hoare_ret. auto.
  - eapply hoare_bind with (Mid := fun _ => I a).
    { unfold raise_for_status. destruct (_ && _); [apply hoare_raise | apply hoare_ret]; eauto. }
    intros ?. eapply hoare_bind with (Mid := fun _ => I a).
    { unfold resp_json. destruct (json_body resp); [apply hoare_ret | apply hoare_raise]; eauto. }
    intros payload. eapply hoare_bind; [apply hoare_lift; eauto |]. intros items.
    eapply hoare_bind; [apply hoare_for_each; exact I_body |]. intros a'.
    eapply hoare_bind; [apply hoare_lift; eauto |]. intros cursor.
    destruct (negb (Py.truthy cursor)); [apply hoare_ret; auto |].
    destruct (cap_reached max_pages (page_count + 1)); [apply hoare_ret; auto |].
    eapply hoare_bind with (Mid := fun _ => I a').
    { destruct (Py.q_truthy pause); [apply hoare_sleep | apply hoare_ret]; eauto. }
    intros ?. apply hoare_ret. auto.
Qed.

Lemma hoare_works_loop fuel self max_pages pause :
  forall params page_count a,
    hoare F (I a) (works_loop fuel self max_pages pause params page_count body a) I.
Proof.
  induction fuel as [| fuel IH]; intros params page_count a; simpl.
  - intros w Hw. simpl. eauto.
  - eapply hoare_bind; [apply hoare_iteration |].
    intros [a' | p c a']; simpl; [apply hoare_ret; auto | apply IH].
Qed.

End Loop.

End Hoare.

(** ** producer.py: invariants of [flush] and [main] *)

Section ProducerInvariants.

Context {P : Platform}.
Variable phi : Event -> Prop.
Variable base : list Event.
Hypothesis phi_fetch : forall e, is_fetch e = true -> phi e.
Hypothesis phi_plain : forall m, plain m -> phi (EvPrint m).

Lemma grows_on_log : on_log (grows phi base).
Proof. intros w w' Hlog (new & Hnew & Hall). exists new. rewrite <- Hlog. auto. Qed.

Lemma grows_log e w : phi e -> grows phi base w -> grows phi base (log e w).
Proof.
  intros He (new & Hnew & Hall). exists (new ++ [e]). simpl. rewrite Hnew, app_assoc.
  split; [reflexivity |]. apply Forall_app. auto.
Qed.

Lemma summarised_grows a b w : summarised phi base a b w -> grows phi base w.
Proof. intros (new & Hnew & Hall & _). exists new. auto. Qed.

Lemma summarised_log a b e w :
  phi e -> summarised phi base a b w -> summarised phi base a b (log e w).
Proof.
  intros He (new & Hnew & Hall & Hin). exists (new ++ [e]). simpl.
  rewrite Hnew, app_assoc. split; [reflexivity |]. split; [apply Forall_app; auto |].
  apply in_or_app. left. exact Hin.
Qed.

Lemma summarised_print a b w :
  phi (EvPrint (MsgSummary a b)) -> grows phi base w ->
  summarised phi base a b (log (EvPrint (MsgSummary a b)) w).
Proof.
  intros He (new & Hnew & Hall). exists (new ++ [EvPrint (MsgSummary a b)]). simpl.
  rewrite Hnew, app_assoc. split; [reflexivity |]. split; [apply Forall_app; auto |].
  apply in_or_app. right. left. reflexivity.
Qed.

Abbreviation G := (grows phi base).

Lemma hoare_print_examples resp : hoare G G (print_examples resp) (fun _ => G).
Proof.
  unfold print_examples. destruct (examples_loop _ _) as [| ex exs].
  - apply hoare_ret. auto.
  - eapply hoare_bind.
    + apply hoare_print. intros w Hw. apply grows_log; [apply phi_plain; exact Logic.I | exact Hw].
    + intros ?. apply (hoare_for_each G (fun _ => G)). intros ? x.
      apply hoare_print. intros w Hw. apply grows_log; [apply phi_plain; exact Logic.I | exact Hw].
Qed.

Lemma hoare_flush batch sink dry total failed :
  (dry = false -> phi (EvPut (stream_name sink) (entries_of (map model_dump batch)))) ->
  hoare G G (flush batch sink dry total failed)
    (fun c w => G w /\ (dry = true -> c = (total, failed))).
Proof.
  intros Hput. unfold flush. destruct dry.
  - eapply hoare_bind.
    + apply hoare_print. intros w Hw. apply grows_log; [apply phi_plain; exact Logic.I | exact Hw].
    + intros ?. apply hoare_ret. auto.
  - eapply hoare_bind.
    + apply hoare_put_records with (Y := G); [apply grows_on_log | | auto].
      intros w Hw. apply grows_log; auto.
    + intros resp. eapply hoare_bind with (Mid := fun _ => G).
      * destruct (negb _); [apply hoare_print_examples | apply hoare_ret; auto].
      * intros ?. apply hoare_ret. intros w Hw. split; [exact Hw | discriminate].
Qed.

Section Main.

Variable J : Loop -> Prop.
Variables (cfg : Settings) (sink : FirehoseSink) (dry : bool) (eff : Z).

Hypothesis J_flush : forall st env,
  J st -> (eff <=? len (batch st ++ [env])) = true ->
  (dry = false ->
   phi (EvPut (stream_name sink) (entries_of (map model_dump (batch st ++ [env])))))
  /\ forall c, (dry = true -> c = (total_sent st, total_failed st)) ->
               J {| batch := []; total_sent := fst c; total_failed := snd c |}.

Hypothesis J_keep : forall st env,
  J st -> (eff <=? len (batch st ++ [env])) = false ->
  J {| batch := batch st ++ [env]; total_sent := total_sent st;
       total_failed := total_failed st |}.

Lemma hoare_main_body st raw :
  hoare G (fun w => G w /\ J st) (main_body cfg sink dry eff st raw)
    (fun st' w => G w /\ J st').
Proof.
  unfold main_body.
  eapply hoare_bind with (Mid := fun _ w => G w /\ J st).
  { apply hoare_now. intros w w' Hlog [Hg Hj]. split; [eapply grows_on_log; eauto | auto]. }
  intros t. eapply hoare_bind; [apply hoare_lift; tauto |]. intros work.
  eapply hoare_bind with (Mid := fun _ w => G w /\ J st).
  { unfold from_openalex. eapply hoare_bind.
    - apply hoare_new_uuid. intros w w' Hlog [Hg Hj].
      split; [eapply grows_on_log; eauto | auto].
    - intros ?. apply hoare_ret. auto. }
  intros env. destruct (eff <=? len (batch st ++ [env])) eqn:Hfull.
  - eapply hoare_bind with (Mid := fun c w => G w /\ (J st /\
        (dry = true -> c = (total_sent st, total_failed st)))).
    + intros w [Hg Hj]. destruct (J_flush st env Hj Hfull) as [Hput _].
      pose proof (hoare_flush (batch st ++ [env]) sink dry (total_sent st)
                    (total_failed st) Hput w Hg) as H.
      destruct (fst (flush _ _ _ _ _ w)); tauto.
    + intros c. apply hoare_ret. intros w (Hg & Hj & Hc). split; [exact Hg |].
      apply (J_flush st env Hj Hfull). exact Hc.
  - apply hoare_ret. intros w [Hg Hj]. split; [exact Hg | apply J_keep; assumption].
Qed.

Hypothesis J_rest : forall st,
  J st -> batch st <> [] -> dry = false ->
  phi (EvPut (stream_name sink) (entries_of (map model_dump (batch st)))).

Hypothesis J_summary : forall st c,
  J st -> (dry = true -> c = (total_sent st, total_failed st)) ->
  phi (EvPrint (MsgSummary (fst c) (snd c))).

Lemma hoare_validate : hoare G G (validate cfg) (fun _ => G).
Proof.
  unfold validate.
  repeat (destruct (negb _); [apply hoare_raise; auto |]). apply hoare_ret. auto.
Qed.

Lemma hoare_main fuel per_page updated_since max_pages arg batch_sleep :
  eff = eff_batch_size_of arg cfg ->
  sink = {| stream_name := firehose_name cfg |} ->
  (1 <= eff <= 500 -> J {| batch := []; total_sent := 0; total_failed := 0 |}) ->
  hoare G G (main fuel cfg per_page updated_since max_pages arg batch_sleep dry)
    (fun _ w => exists a b, summarised phi base a b w).
Proof.
  intros Heff Hsink Hinit. unfold main. rewrite <- Heff, <- Hsink.
  eapply hoare_bind; [apply hoare_validate |]. intros ?.
  destruct ((eff <=? 0) || (500 <? eff)) eqn:Hguard; [apply hoare_raise; auto |].
  apply orb_false_iff in Hguard as [Hlo Hhi].
  apply Z.leb_gt in Hlo. apply Z.ltb_ge in Hhi.
  eapply hoare_bind with (Mid := fun _ => G).
  { apply hoare_print. intros w Hw. apply grows_log; [apply phi_plain; exact Logic.I | exact Hw]. }
  intros ?. eapply hoare_bind; [apply hoare_lift; auto |]. intros oa.
  eapply hoare_bind with (Mid := fun st w => G w /\ J st).
  { eapply hoare_conseq;
      [| | apply (hoare_works_loop G (fun st w => G w /\ J st)
                    (main_body cfg sink dry eff))].
    - intros w Hw. split; [exact Hw | apply Hinit; lia].
    - auto.
    - intros st0 w0 w0' Hlog [Hg Hj]. split; [eapply grows_on_log; eauto | exact Hj].
    - intros st0 e w0 He [Hg Hj]. split; [apply grows_log; auto | exact Hj].
    - tauto.
    - apply hoare_main_body. }
  intros st.
  eapply hoare_bind with
    (Mid := fun c w => G w /\ phi (EvPrint (MsgSummary (fst c) (snd c)))).
  { destruct (batch st) as [| env rest] eqn:Hbatch.
    - apply hoare_ret. intros w [Hg Hj]. split; [exact Hg |].
      apply (J_summary st); auto.
    - intros w [Hg Hj].
      assert (Hput : dry = false ->
                phi (EvPut (stream_name sink) (entries_of (map model_dump (env :: rest))))).
      { rewrite <- Hbatch. apply J_rest; [exact Hj | congruence]. }
      pose proof (hoare_flush (env :: rest) sink dry (total_sent st) (total_failed st)
                    Hput w Hg) as H.
      destruct (fst (flush _ _ _ _ _ w)); [| exact H | exact H].
      destruct H as [Hg' Hc]. split; [exact Hg' |]. apply (J_summary st); auto. }
  intros c.
  eapply hoare_bind with
    (Mid := fun _ => summarised phi base (fst c) (snd c)).
  { apply hoare_print. intros w [Hg Hs]. apply summarised_print; assumption. }
  intros ?. destruct (negb (snd c =? 0)).
  - intros w Hw. simpl. exists (fst c), (snd c).
    apply summarised_log; [apply phi_plain; exact Logic.I | exact Hw].
  - apply hoare_ret. eauto.
Qed.

End Main.

End ProducerInvariants.

(** ** producer.py: a dry run beside a normal run *)

Section DryRun.

Context {P : Platform}.
Variable base : list Event.

Abbreviation related := (rel ends_with_put base base).

Lemma sim_transport w1 w2 t :
  sim base base w1 w2 ->
  sim base base {| w_server := w_server w1; w_transport := t; w_ticks := w_ticks w1;
                   w_uuids := w_uuids w1; w_log := w_log w1 |} w2.
Proof. intros (Hs & Ht & Hu & Hl). repeat split; assumption. Qed.

Lemma prints_sim {X} (f : X -> Msg) (xs : list X) w1 w2 :
  sim base base w1 w2 ->
  fst (for_each (fun _ x => print (f x)) xs tt w1) = Ok tt
  /\ sim base base (snd (for_each (fun _ x => print (f x)) xs tt w1)) w2.
Proof.
  revert w1. induction xs as [| x xs IH]; intros w1 Hsim; simpl; [auto |].
  unfold bind, print at 1 3. apply IH. apply sim_log_l; [reflexivity | exact Hsim].
Qed.

Lemma print_examples_sim resp w1 w2 :
  sim base base w1 w2 ->
  fst (print_examples resp w1) = Ok tt
  /\ sim base base (snd (print_examples resp w1)) w2.
Proof.
  intros Hsim. unfold print_examples.
  destruct (examples_loop _ _) as [| ex exs]; [simpl; auto |].
  unfold bind, print at 1 3.
  apply (prints_sim (fun ex => MsgFailure (fst ex) (snd ex))).
  apply sim_log_l; [reflexivity | exact Hsim].
Qed.

Lemma put_records_world self records (w : World) :
  fst (put_records self records w) <> Diverged
  /\ exists t,
       snd (put_records self records w)
       = log (EvPut (stream_name self) (entries_of records))
           {| w_server := w_server w; w_transport := t; w_ticks := w_ticks w;
              w_uuids := w_uuids w; w_log := w_log w |}.
Proof.
  unfold put_records. destruct (put_record_batch _ _ _) as [[e | resp] t]; simpl.
  all: split; [discriminate | exists t; reflexivity].
Qed.

Lemma rel_flush batch sink total failed total' failed' :
  related (flush batch sink false total failed) (flush batch sink true total' failed')
          (fun _ _ => True).
Proof.
  intros w1 w2 Hsim. unfold flush.
  destruct (put_records_world sink (map model_dump batch) w1) as [Hnd [t Hw]].
  destruct (put_records sink (map model_dump batch) w1) as [[resp | e |] w1'] eqn:Hput;
    simpl in Hnd, Hw; [| | congruence].
  - right. rewrite (bind_ok _ _ _ _ _ Hput).
    assert (Hsim' : sim base base w1' w2).
    { rewrite Hw. apply sim_log_l; [reflexivity |]. apply sim_transport. exact Hsim. }
    assert (Hdry : sim base base w1'
                     (log (EvPrint (MsgDryRun (len (map model_dump batch)))) w2)).
    { apply sim_log_r; [reflexivity | exact Hsim']. }
    unfold bind at 2. unfold print at 2. cbn [ret fst snd].
    destruct (negb (failed_put_count resp =? 0)).
    + destruct (print_examples_sim resp w1' _ Hdry) as [Hok Hs].
      unfold bind. destruct (print_examples resp w1') as [r w1'']. simpl in *.
      subst r. simpl. auto.
    + simpl. auto.
  - left. rewrite (bind_raised _ _ _ _ _ Hput). split; simpl; [eauto |].
    rewrite Hw. exists (w_log w1). simpl. eauto.
Qed.

Lemma rel_main_body cfg sink eff st1 st2 raw :
  batch st1 = batch st2 ->
  related (main_body cfg sink false eff st1 raw) (main_body cfg sink true eff st2 raw)
          (fun a b => batch a = batch b).
Proof.
  intros Hb. unfold main_body.
  eapply rel_bind; [apply rel_now |]. intros t ? <-.
  eapply rel_bind; [apply rel_lift |]. intros work ? <-.
  eapply rel_bind with (R := eq).
  { unfold from_openalex. eapply rel_bind; [apply rel_new_uuid |].
    intros uid ? <-. apply rel_ret. reflexivity. }
  intros env ? <-. rewrite Hb.
  destruct (eff <=? len (batch st2 ++ [env])).
  - eapply rel_bind; [apply rel_flush |]. intros c1 c2 _. apply rel_ret. reflexivity.
  - apply rel_ret. reflexivity.
Qed.

Lemma rel_main fuel cfg per_page updated_since max_pages arg batch_sleep :
  related (main fuel cfg per_page updated_since max_pages arg batch_sleep false)
          (main fuel cfg per_page updated_since max_pages arg batch_sleep true) eq.
Proof.
  unfold main.
  eapply rel_bind with (R := eq).
  { unfold validate.
    repeat (destruct (negb _); [apply rel_raise |]). apply rel_ret. reflexivity. }
  intros ? ? _.
  destruct ((_ <=? 0) || (500 <? _)); [apply rel_raise |].
  eapply rel_bind; [apply rel_print |]. intros ? ? _.
  eapply rel_bind; [apply rel_lift |]. intros oa ? <-.
  eapply rel_bind with (R := fun a b => batch a = batch b).
  { apply rel_works_loop; [| reflexivity].
    intros l1 l2 x Hab. apply rel_main_body. exact Hab. }
  intros st1 st2 Hb.
  eapply rel_bind with (R := fun _ _ => True).
  { rewrite Hb. destruct (batch st2); [apply rel_ret; exact Logic.I | apply rel_flush]. }
  intros c1 c2 _.
  eapply rel_bind; [apply rel_print |]. intros ? ? _.
  destruct (negb (snd c1 =? 0)), (negb (snd c2 =? 0)).
  - apply rel_print.
  - apply rel_print_l.
  - apply rel_print_r.
  - apply rel_ret. reflexivity.
Qed.

End DryRun.

(** ** The producer's claims *)

Section ProducerClaims.

Context {P : Platform}.

Lemma grows_start (phi : Event -> Prop) (w : World) : grows phi (w_log w) w.
Proof. exists []. rewrite app_nil_r. auto. Qed.

Lemma sim_refl (w : World) : sim (w_log w) (w_log w) w w.
Proof. repeat split. exists [], []. rewrite app_nil_r. auto. Qed.

Lemma dry_event_fetch (e : Event) : is_fetch e = true -> dry_event e.
Proof. destruct e; simpl; intros H; try discriminate; exact Logic.I. Qed.

Lemma dry_event_plain (m : Msg) : plain m -> dry_event (EvPrint m).
Proof. destruct m; simpl; intros H; try exact Logic.I. contradiction. Qed.

(** C6. In a dry run of [main], whatever is fetched: no delivery call is made
    and every summary printed shows 0 sent and 0 failed, one being printed
    whenever the run returns; and unless the normal run on the same inputs is
    cut short by an exception of a delivery call, it ends as the dry run does,
    with the upstream server, the clock and the identifier source in the same
    state and the same requests and sleeps logged: fetching and normalising
    do not depend on the flag. *)
Theorem dry_run_never_delivers (fuel : nat) (cfg : Settings) (per_page : Z)
    (updated_since : option string) (max_pages : option Z) (arg : option Z)
    (batch_sleep : option Q) (w : World) :
  (exists new,
      w_log (snd (main fuel cfg per_page updated_since max_pages arg batch_sleep true w))
      = w_log w ++ new
      /\ Forall dry_event new
      /\ (fst (main fuel cfg per_page updated_since max_pages arg batch_sleep true w)
          = Ok tt ->
          In (EvPrint (MsgSummary 0 0)) new))
  /\ (escaped ends_with_put
        (main fuel cfg per_page updated_since max_pages arg batch_sleep false w)
      \/ (fst (main fuel cfg per_page updated_since max_pages arg batch_sleep false w)
          = fst (main fuel cfg per_page updated_since max_pages arg batch_sleep true w)
          /\ sim (w_log w) (w_log w)
               (snd (main fuel cfg per_page updated_since max_pages arg batch_sleep false w))
               (snd (main fuel cfg per_page updated_since max_pages arg batch_sleep true w)))).
Proof.
  split.
  - pose proof (hoare_main dry_event (w_log w) dry_event_fetch dry_event_plain
                  (fun st => total_sent st = 0 /\ total_failed st = 0)
                  cfg {| stream_name := firehose_name cfg |} true
                  (eff_batch_size_of arg cfg)) as H.
    specialize (H ltac:(intros st env Hj _; split; [discriminate |];
                        intros c Hc; rewrite (Hc eq_refl); exact Hj)
                  ltac:(intros st env Hj _; exact Hj)
                  ltac:(intros st _ _; discriminate)
                  ltac:(intros st c [Hs Hf] Hc; rewrite (Hc eq_refl); simpl; auto)
                  fuel per_page updated_since max_pages arg batch_sleep
                  eq_refl eq_refl ltac:(simpl; auto) w (grows_start _ w)).
    destruct (fst (main _ _ _ _ _ _ _ true w)) as [[] | e |].
    + destruct H as (a & b & new & Hnew & Hall & Hin).
      exists new. split; [exact Hnew |]. split; [exact Hall |]. intros _.
      rewrite List.Forall_forall in Hall. destruct (Hall _ Hin) as [-> ->]. exact Hin.
    + destruct H as (new & Hnew & Hall). exists new. repeat split; auto. discriminate.
    + destruct H as (new & Hnew & Hall). exists new. repeat split; auto. discriminate.
  - destruct (rel_main (w_log w) fuel cfg per_page updated_since max_pages arg
                batch_sleep w w (sim_refl w)) as [Hesc | [Hsim Hm]].
    + left. exact Hesc.
    + right. split; [apply rmatch_eq; exact Hm | exact Hsim].
Qed.

Lemma bind_inv {A B} (c : M World A) (k : A -> M World B) w b w' :
  bind c k w = (Ok b, w') -> exists a w1, c w = (Ok a, w1) /\ k a w1 = (Ok b, w').
Proof.
  unfold bind. destruct (c w) as [[a | e |] w1]; intros H; try discriminate. eauto.
Qed.

Lemma prints_return {X} (f : X -> Msg) (xs : list X) (w : World) :
  exists w' tail, for_each (fun _ x => print (f x)) xs tt w = (Ok tt, w')
                  /\ w_log w' = w_log w ++ tail.
Proof.
  revert w. induction xs as [| x xs IH]; intros w; simpl.
  - exists w, []. rewrite app_nil_r. auto.
  - unfold bind, print at 1.
    destruct (IH (log (EvPrint (f x)) w)) as (w' & tail & Hrun & Hlog).
    exists w', (EvPrint (f x) :: tail). split; [exact Hrun |].
    rewrite Hlog. simpl. rewrite <- app_assoc. reflexivity.
Qed.

Lemma print_examples_returns resp (w : World) :
  exists w' tail, print_examples resp w = (Ok tt, w') /\ w_log w' = w_log w ++ tail.
Proof.
  unfold print_examples. destruct (examples_loop _ _) as [| ex exs].
  - exists w, []. rewrite app_nil_r. auto.
  - unfold bind, print at 1.
    destruct (prints_return (fun ex => MsgFailure (fst ex) (snd ex)) (ex :: exs)
                (log (EvPrint MsgBatchHadFailures) w)) as (w' & tail & Hrun & Hlog).
    exists w', (EvPrint MsgBatchHadFailures :: tail). split; [exact Hrun |].
    rewrite Hlog. simpl. rewrite <- app_assoc. reflexivity.
Qed.

Lemma len_map {A B} (f : A -> B) (l : list A) : len (map f l) = len l.
Proof. unfold len. rewrite length_map. reflexivity. Qed.

(** A delivery that the stream answers: the counters [flush] returns. *)
Lemma flush_returns batch sink total failed (w : World) resp w1 :
  put_records sink (map model_dump batch) w = (Ok resp, w1) ->
  exists w2 tail,
    flush batch sink false total failed w
    = (Ok (total + len batch, failed + failed_put_count resp), w2)
    /\ w_log w2 = w_log w1 ++ tail.
Proof.
  intros Hput. unfold flush. rewrite (bind_ok _ _ _ _ _ Hput), len_map.
  destruct (negb (failed_put_count resp =? 0)).
  - destruct (print_examples_returns resp w1) as (w2 & tail & Hrun & Hlog).
    exists w2, tail. rewrite (bind_ok _ _ _ _ _ Hrun). auto.
  - exists w1, []. rewrite app_nil_r. auto.
Qed.

Lemma flush_inv batch sink total failed (w : World) c w' :
  flush batch sink false total failed w = (Ok c, w') ->
  exists resp w1,
    put_records sink (map model_dump batch) w = (Ok resp, w1)
    /\ c = (total + len batch, failed + failed_put_count resp).
Proof.
  intros H. unfold flush in H. apply bind_inv in H as (resp & w1 & Hput & H).
  destruct (flush_returns batch sink total failed w resp w1 Hput) as (w2 & tail & Hrun & _).
  unfold flush in Hrun. rewrite (bind_ok _ _ _ _ _ Hput) in Hrun.
  rewrite H in Hrun. exists resp, w1. split; [exact Hput | congruence].
Qed.

Lemma put_records_answer self records (w : World) resp w1 :
  put_records self records w = (Ok resp, w1) ->
  exists t, put_record_batch (w_transport w) (stream_name self) (entries_of records)
            = (inr resp, t).
Proof.
  unfold put_records. destruct (put_record_batch _ _ _) as [[e | r] t]; intros H.
  - discriminate.
  - exists t. congruence.
Qed.

Section Counters.

Hypothesis sink_counts :
  forall t stream entries resp t',
    put_record_batch t stream entries = (inr resp, t') -> 0 <= failed_put_count resp.

Lemma flush_monotone batch sink dry total failed (w : World) c w' :
  flush batch sink dry total failed w = (Ok c, w') ->
  total <= fst c /\ failed <= snd c.
Proof.
  destruct dry.
  - unfold flush, bind, print, ret. intros H. inversion H. simpl. lia.
  - intros H. apply flush_inv in H as (resp & w1 & Hput & ->).
    apply put_records_answer in Hput as [t Hput]. apply sink_counts in Hput.
    simpl. unfold len. lia.
Qed.

Lemma main_body_monotone cfg sink dry eff st raw (w : World) st' w' :
  main_body cfg sink dry eff st raw w = (Ok st', w') ->
  total_sent st <= total_sent st' /\ total_failed st <= total_failed st'.
Proof.
  unfold main_body. intros H.
  apply bind_inv in H as (t & w1 & _ & H).
  apply bind_inv in H as (work & w2 & _ & H).
  apply bind_inv in H as (env & w3 & _ & H).
  destruct (eff <=? len (batch st ++ [env])).
  - apply bind_inv in H as (c & w4 & Hflush & H).
    apply flush_monotone in Hflush. inversion H. simpl. exact Hflush.
  - inversion H. simpl. lia.
Qed.

Lemma works_stream_monotone fuel self per_page updated_since max_pages pause query
    cfg sink dry eff st (w : World) st' w' :
  works_stream fuel self per_page updated_since max_pages pause query
    (main_body cfg sink dry eff) st w = (Ok st', w') ->
  total_sent st <= total_sent st' /\ total_failed st <= total_failed st'.
Proof.
  intros H. unfold works_stream in H.
  pose proof (hoare_works_loop (fun _ => True)
                (fun a _ => total_sent st <= total_sent a /\ total_failed st <= total_failed a)
                (main_body cfg sink dry eff)) as Hloop.
  specialize (Hloop ltac:(intros a0 w0 w0' _ Ha; exact Ha)
                    ltac:(intros a0 e w0 _ Ha; exact Ha)
                    ltac:(intros; exact Logic.I)).
  assert (Hbody : forall a x,
    hoare (fun _ => True)
      (fun _ => total_sent st <= total_sent a /\ total_failed st <= total_failed a)
      (main_body cfg sink dry eff a x)
      (fun a' _ => total_sent st <= total_sent a' /\ total_failed st <= total_failed a')).
  { intros a x w0 Ha.
    destruct (main_body cfg sink dry eff a x w0) as [[a' | e |] w0'] eqn:Hrun; simpl; auto.
    apply main_body_monotone in Hrun. lia. }
  specialize (Hloop Hbody fuel self max_pages pause
                (initial_params self per_page updated_since query) 0 st w
                (conj (Z.le_refl _) (Z.le_refl _))).
  rewrite H in Hloop. exact Hloop.
Qed.

End Counters.

(** C1. Provided the delivery stream reports a failed count that is not
    negative: when the stream answers a delivery, [flush] in non-dry-run mode
    returns the sent counter raised by exactly the length of the batch,
    whatever the failed count, and the failed counter raised by exactly the
    [FailedPutCount] of the answer (0 when the answer has none); a [flush]
    that returns has done just that; and neither counter ever decreases,
    across one [flush], one pass of [main]'s loop, or the whole loop. *)
Theorem counters_account_for_attempts :
  (forall t stream entries resp t',
      put_record_batch t stream entries = (inr resp, t') -> 0 <= failed_put_count resp) ->
  (forall batch sink total failed (w : World) resp w1,
      put_records sink (map model_dump batch) w = (Ok resp, w1) ->
      exists w2,
        flush batch sink false total failed w
        = (Ok (total + len batch, failed + default 0 (FailedPutCount resp)), w2))
  /\ (forall batch sink total failed (w : World) total' failed' w',
        flush batch sink false total failed w = (Ok (total', failed'), w') ->
        exists resp w1,
          put_records sink (map model_dump batch) w = (Ok resp, w1)
          /\ total' = total + len batch
          /\ failed' = failed + default 0 (FailedPutCount resp)
          /\ total <= total' /\ failed <= failed')
  /\ (forall cfg sink dry eff st raw (w : World) st' w',
        main_body cfg sink dry eff st raw w = (Ok st', w') ->
        total_sent st <= total_sent st' /\ total_failed st <= total_failed st')
  /\ (forall fuel self per_page updated_since max_pages pause query cfg sink dry eff
             st (w : World) st' w',
        works_stream fuel self per_page updated_since max_pages pause query
          (main_body cfg sink dry eff) st w = (Ok st', w') ->
        total_sent st <= total_sent st' /\ total_failed st <= total_failed st').
Proof.
  intros Hsink. split; [| split; [| split]].
  - intros batch sink total failed w resp w1 Hput.
    destruct (flush_returns batch sink total failed w resp w1 Hput) as (w2 & _ & Hrun & _).
    exists w2. exact Hrun.
  - intros batch sink total failed w total' failed' w' Hrun.
    pose proof (flush_monotone Hsink _ _ _ _ _ _ _ _ Hrun) as Hmono.
    apply flush_inv in Hrun as (resp & w1 & Hput & Hc). inversion Hc. subst.
    exists resp, w1. simpl in Hmono. unfold failed_put_count in *. tauto.
  - intros. eapply main_body_monotone; eauto.
  - intros. eapply works_stream_monotone; eauto.
Qed.

Lemma put_ok_fetch (e : Event) : is_fetch e = true -> put_ok e.
Proof. destruct e; simpl; intros H; try discriminate; exact Logic.I. Qed.

Lemma put_ok_plain (m : Msg) : plain m -> put_ok (EvPrint m).
Proof. intros _. exact Logic.I. Qed.

Lemma length_entries_of (records : list Json) :
  length (entries_of records) = length records.
Proof. unfold entries_of. apply length_map. Qed.

(** C2 (as amended). [put_records] has no size check: for every batch, of
    whatever length, it makes one PutRecordBatch call that carries one entry
    per record, none dropped. The ceiling of 500 is kept by [main]: every
    delivery call of a run of [main] carries between 1 and 500 entries. *)
Theorem put_records_forwards_every_batch :
  (forall (self : FirehoseSink) (records : list Json) (w : World),
      w_log (snd (put_records self records w))
      = w_log w ++ [EvPut (stream_name self) (entries_of records)]
      /\ length (entries_of records) = length records)
  /\ (forall (fuel : nat) (cfg : Settings) (per_page : Z) (updated_since : option string)
             (max_pages arg : option Z) (batch_sleep : option Q) (dry_run : bool)
             (w : World),
        exists new,
          w_log (snd (main fuel cfg per_page updated_since max_pages arg batch_sleep
                        dry_run w))
          = w_log w ++ new
          /\ Forall put_ok new).
Proof.
  split.
  - intros self records w. split; [| apply length_entries_of].
    destruct (put_records_world self records w) as [_ [t ->]]. reflexivity.
  - intros fuel cfg per_page updated_since max_pages arg batch_sleep dry_run w.
    set (eff := eff_batch_size_of arg cfg).
    pose proof (hoare_main put_ok (w_log w) put_ok_fetch put_ok_plain
                  (fun st => 1 <= eff <= 500 /\ len (batch st) < eff)
                  cfg {| stream_name := firehose_name cfg |} dry_run eff) as H.
    assert (Hlen : forall (b : list Envelope),
               Z.of_nat (length (entries_of (map model_dump b))) = len b).
    { intros b. rewrite length_entries_of, length_map. reflexivity. }
    assert (Hsnoc : forall (b : list Envelope) env, len (b ++ [env]) = len b + 1).
    { intros b env. unfold len. rewrite length_app. simpl. lia. }
    specialize (H
      ltac:(intros st env [Hr Hb] Hfull; split;
            [intros _; simpl; rewrite Hlen, Hsnoc; unfold len in *; lia
            | intros c _; simpl; split; [exact Hr | unfold len; simpl; lia]])
      ltac:(intros st env [Hr Hb] Hfull; simpl; split; [exact Hr |];
            apply Z.leb_gt in Hfull; exact Hfull)
      ltac:(intros st [Hr Hb] Hne _; simpl; rewrite Hlen;
            destruct (batch st); [congruence | unfold len in *; simpl in *; lia])
      ltac:(intros; exact Logic.I)
      fuel per_page updated_since max_pages arg batch_sleep
      eq_refl eq_refl ltac:(intros Hr; simpl; split; [exact Hr | unfold len; simpl; lia])
      w (grows_start _ w)).
    destruct (fst (main _ _ _ _ _ _ _ dry_run w)).
    + destruct H as (sent & failed & new & Hnew & Hall & _). eauto.
    + exact H.
    + exact H.
Qed.

(** X23. Configuration errors are raised before anything is fetched,
    delivered or printed, each with a message naming the setting. *)
Lemma config_error_fails_fast (fuel : nat) (cfg : Settings) (per_page : Z)
    (updated_since : option string) (max_pages arg : option Z)
    (batch_sleep : option Q) (dry_run : bool) (w : World) :
  (openalex_email cfg = "" ->
   main fuel cfg per_page updated_since max_pages arg batch_sleep dry_run w
   = (Raised (ValueError "OPENALEX_EMAIL is required for polite use of the OpenAlex API."),
      w))
  /\ (openalex_email cfg <> "" -> aws_region cfg = "" ->
      main fuel cfg per_page updated_since max_pages arg batch_sleep dry_run w
      = (Raised (ValueError "AWS_REGION is required."), w))
  /\ (openalex_email cfg <> "" -> aws_region cfg <> "" -> firehose_name cfg = "" ->
      main fuel cfg per_page updated_since max_pages arg batch_sleep dry_run w
      = (Raised (ValueError "FIREHOSE_NAME is required."), w))
  /\ (openalex_email cfg <> "" -> aws_region cfg <> "" -> firehose_name cfg <> "" ->
      ~ 1 <= eff_batch_size_of arg cfg <= 500 ->
      main fuel cfg per_page updated_since max_pages arg batch_sleep dry_run w
      = (Raised (BadParameter
                   "batch_size must be between 1 and 500 for Firehose PutRecordBatch"),
         w)).
Proof.
  unfold main, validate.
  destruct (openalex_email cfg) as [| c1 r1]; simpl.
  { repeat split; intros; try congruence; reflexivity. }
  destruct (aws_region cfg) as [| c2 r2]; simpl.
  { repeat split; intros; try congruence; reflexivity. }
  destruct (firehose_name cfg) as [| c3 r3]; simpl.
  { repeat split; intros; try congruence; reflexivity. }
  repeat split; intros; try congruence.
  unfold bind at 1. simpl.
  destruct (eff_batch_size_of arg cfg <=? 0) eqn:Hlo; [reflexivity |].
  destruct (500 <? eff_batch_size_of arg cfg) eqn:Hhi; [reflexivity |].
  apply Z.leb_gt in Hlo. apply Z.ltb_ge in Hhi. lia.
Qed.




End ProducerClaims.

(** ** The scenarios of the test suite and of the specification *)

Section Scenarios.

#[local] Existing Instance Fake.platform.

Lemma fake_page_is_page (items : list Json) (cursor : Json) :
  is_page (Fake.page items cursor) items cursor.
Proof. split; [reflexivity |]. eexists. repeat split. Qed.

Lemma fake_sink_counts :
  forall t stream entries resp t',
    Fake.pop_answer t stream entries = (inr resp, t') -> 0 <= failed_put_count resp.
Proof.
  intros t stream entries resp t' H. unfold Fake.pop_answer in H.
  inversion H. unfold failed_put_count. simpl. lia.
Qed.

(** C1 at [test_flush_updates_counts_and_reports_failures]: 3 records, 1
    reported as failed, from counters 5 and 2. *)
Lemma flush_counts_example :
  (forall t stream entries resp t',
      Fake.pop_answer t stream entries = (inr resp, t') -> 0 <= failed_put_count resp)
  /\ fst (flush [Fake.envelope 0; Fake.envelope 1; Fake.envelope 2] Fake.sink false 5 2
            (Fake.world [] [1%nat]))
     = Ok (8, 3).
Proof.
  split; [exact fake_sink_counts |].
  destruct (counters_account_for_attempts (P := Fake.platform) fake_sink_counts)
    as [Hflush _].
  destruct (put_records Fake.sink
              (map model_dump [Fake.envelope 0; Fake.envelope 1; Fake.envelope 2])
              (Fake.world [] [1%nat])) as [[resp | e |] w1] eqn:Hput.
  all: pose proof (f_equal fst Hput) as Hanswer; cbn [fst] in Hanswer.
  all: vm_compute in Hanswer; try discriminate.
  destruct (Hflush _ _ 5 2 _ _ _ Hput) as [w2 Hrun]. rewrite Hrun.
  inversion Hanswer. reflexivity.
Defined.

(** C2 as stated fails: handed 501 records, [put_records] raises nothing and
    makes the call with all 501 entries. *)
Lemma put_records_accepts_501 :
  match put_records Fake.sink (repeat (JObj []) 501) (Fake.world [] []) with
  | (Ok _, w') =>
      match w_log w' with
      | [EvPut _ entries] => length entries = 501%nat
      | _ => False
      end
  | _ => False
  end.
Proof. vm_compute. reflexivity. Qed.

(** [test_works_stream_handles_429_and_pagination] *)
Example works_stream_429_then_two_pages :
  fst (works_list 10 Fake.client 2 None None 0 None
         (Fake.world [Fake.too_many_requests (Some "0"); Fake.page1; Fake.page2] []))
  = Ok [JObj [("id", JNum 1)]; JObj [("id", JNum 2)]; JObj [("id", JNum 3)]].
Proof. vm_compute. reflexivity. Qed.

(** C3 at the responses of that test: the run behind the rate-limit signal
    yields what a run on the two pages alone yields. *)
Lemma rate_limit_backoff_example :
  Fake.pop_response [Fake.too_many_requests (Some "0"); Fake.page1; Fake.page2]
    (request Fake.client (initial_params Fake.client 2 None None))
  = (inr (Fake.too_many_requests (Some "0")), [Fake.page1; Fake.page2])
  /\ fst (works_loop 5 Fake.client None 0 (initial_params Fake.client 2 None None) 0
            collect []
            (Fake.world [Fake.too_many_requests (Some "0"); Fake.page1; Fake.page2] []))
     = fst (works_loop 4 Fake.client None 0 (initial_params Fake.client 2 None None) 0
              collect [] (Fake.world [Fake.page1; Fake.page2] [])).
Proof.
  split; [reflexivity |].
  refine (proj2 (proj2 (rate_limit_backoff (A := list Json) 4 Fake.client None 0
            (initial_params Fake.client 2 None None) 0 collect []
            (Fake.world [Fake.too_many_requests (Some "0"); Fake.page1; Fake.page2] [])
            (Fake.too_many_requests (Some "0")) [Fake.page1; Fake.page2] 0
            _ _ _ _ _)) []).
  - reflexivity.
  - reflexivity.
  - vm_compute. reflexivity.
  - lia.
  - vm_compute. discriminate.
Defined.

(** C3 as stated fails when the hint is a date: the signal is not followed
    by a sleep and a retry, and the items of the page behind it are lost. *)
Lemma http_date_hint_aborts :
  fst (works_list 5 Fake.client 2 None None 0 None
         (Fake.world [Fake.too_many_requests (Some Fake.http_date); Fake.page2] []))
  = Raised (ValueError "invalid literal for int() with base 10")
  /\ fst (works_list 5 Fake.client 2 None None 0 None (Fake.world [Fake.page2] []))
     = Ok [JObj [("id", JNum 3)]]
  /\ Forall (fun e => match e with EvSleep _ => False | _ => True end)
       (w_log (snd (works_list 5 Fake.client 2 None None 0 None
                      (Fake.world [Fake.too_many_requests (Some Fake.http_date);
                                   Fake.page2] [])))).
Proof.
  split; [vm_compute; reflexivity |]. split; [vm_compute; reflexivity |].
  vm_compute. repeat constructor.
Qed.

(** C10 at a Retry-After in HTTP-date form. *)
Lemma retry_after_parse_error_example :
  Py.int Fake.http_date = None
  /\ fst (works_loop 5 Fake.client None 0 (initial_params Fake.client 2 None None) 0
            collect []
            (Fake.world [Fake.too_many_requests (Some Fake.http_date); Fake.page2] []))
     = Raised (ValueError "invalid literal for int() with base 10").
Proof.
  split; [reflexivity |].
  rewrite (retry_after_parse_error (A := list Json) 4 Fake.client None 0
             (initial_params Fake.client 2 None None) 0 collect []
             (Fake.world [Fake.too_many_requests (Some Fake.http_date); Fake.page2] [])
             (Fake.too_many_requests (Some Fake.http_date)) [Fake.page2] Fake.http_date).
  - reflexivity.
  - reflexivity.
  - reflexivity.
  - vm_compute. reflexivity.
  - reflexivity.
Defined.

(** C4 at the two pages of the unit test. *)
Lemma two_pages_example :
  exists w',
    works_list 2 Fake.client 2 None None 0 None (Fake.world [Fake.page1; Fake.page2] [])
    = (Ok [JObj [("id", JNum 1)]; JObj [("id", JNum 2)]; JObj [("id", JNum 3)]], w')
    /\ w_server w' = []
    /\ length (w_log w') = 2%nat.
Proof.
  destruct (two_pages_in_order 0 Fake.client 2 None None 0 None
              (Fake.world [Fake.page1; Fake.page2] [])
              Fake.page1 Fake.page2 [Fake.page2] []
              [JObj [("id", JNum 1)]; JObj [("id", JNum 2)]] [JObj [("id", JNum 3)]]
              (JStr "abc") JNull)
    as (w' & Hrun & Hsrv & Hlog).
  - reflexivity.
  - apply fake_page_is_page.
  - reflexivity.
  - reflexivity.
  - apply fake_page_is_page.
  - reflexivity.
  - reflexivity.
  - discriminate.
  - exists w'. split; [exact Hrun |]. split; [exact Hsrv |]. rewrite Hlog. reflexivity.
Defined.

(** The end-to-end scenario: 3 records by batches of 2, the second delivery
    reporting one failure, give 3 sent and 1 failed. *)
Example three_records_one_failure :
  let run := main 10 Fake.settings 2 None None (Some 2) (Some 0%Q) false
               (Fake.world [Fake.page [Fake.work 0; Fake.work 1; Fake.work 2] JNull]
                           [0%nat; 1%nat]) in
  fst run = Ok tt
  /\ List.filter (fun e => match e with EvPrint (MsgSummary _ _) => true | _ => false end)
       (w_log (snd run)) = [EvPrint (MsgSummary 3 1)]
  /\ map (fun e => match e with EvPut _ entries => length entries | _ => O end)
       (List.filter (fun e => match e with EvPut _ _ => true | _ => false end)
          (w_log (snd run))) = [2%nat; 1%nat].
Proof. vm_compute. repeat split. Qed.

(** The dry-run scenario: 5 records by batches of 2. *)
Example five_records_dry_run :
  let run := main 10 Fake.settings 2 None None (Some 2) (Some 0%Q) true
               (Fake.world [Fake.page [Fake.work 0; Fake.work 1; Fake.work 2;
                                       Fake.work 3; Fake.work 4] JNull] []) in
  fst run = Ok tt
  /\ List.filter (fun e => negb (is_fetch e)) (w_log (snd run))
     = [EvPrint (MsgStarting "stream" "us-east-1" 2 2 0 true);
        EvPrint (MsgDryRun 2); EvPrint (MsgDryRun 2); EvPrint (MsgDryRun 1);
        EvPrint (MsgSummary 0 0)]
  /\ w_ticks (snd run) = 5%nat.
Proof. vm_compute. repeat split. Qed.

(** C7 (the part the code misses). A batch-size argument of 0 is not
    rejected: [main] takes it for a missing argument and runs exactly as it
    does without one, with the batch size of the settings. With settings
    whose batch size is 2, the run fetches and delivers by batches of 2. *)
Theorem batch_size_zero_is_not_rejected :
  (forall (P : Platform) (fuel : nat) (cfg : Settings) (per_page : Z)
          (updated_since : option string) (max_pages : option Z)
          (batch_sleep : option Q) (dry_run : bool),
      eff_batch_size_of (Some 0) cfg = batch_size cfg
      /\ @main P fuel cfg per_page updated_since max_pages (Some 0) batch_sleep dry_run
         = @main P fuel cfg per_page updated_since max_pages None batch_sleep dry_run)
  /\ fst (main 10 Fake.settings 2 None None (Some 0) (Some 0%Q) false
            (Fake.world [Fake.page [Fake.work 0; Fake.work 1; Fake.work 2] JNull] []))
     = Ok tt
  /\ map (fun e => match e with EvPut _ entries => length entries | _ => O end)
       (List.filter (fun e => match e with EvPut _ _ => true | _ => false end)
          (w_log (snd (main 10 Fake.settings 2 None None (Some 0) (Some 0%Q) false
                         (Fake.world [Fake.page [Fake.work 0; Fake.work 1; Fake.work 2]
                                        JNull] [])))))
     = [2%nat; 1%nat].
Proof.
  split.
  - intros P fuel cfg per_page updated_since max_pages batch_sleep dry_run.
    split; reflexivity.
  - split; vm_compute; reflexivity.
Qed.

(** [test_strip_run_alias_removes_second_token] *)
Example strip_run_alias_example :
  _strip_run_alias ["-m"; "run"; "--batch-size"; "10"] = ["-m"; "--batch-size"; "10"].
Proof. reflexivity. Qed.

(** C8 on an envelope without title, doi and email. *)
Example bare_envelope_keys :
  map fst (dump_fields
             {| id := Some "W1"; doi := None; title := None; publication_year := None;
                host_venue := None; primary_author := None; email := None;
                event_ts := 0; ingest_ts := 0; source := "openalex";
                load_id := "uuid-0" |})
  = ["id"; "event_ts"; "ingest_ts"; "source"; "_LOAD_ID"].
Proof. reflexivity. Qed.

End Scenarios.

(** * Further properties *)

(** ** openalex_client.py *)

Section FetcherMore.

Context {P : Platform}.

(** X1. A response whose status is an error for [raise_for_status] (400 to
    599, 429 apart) ends the run with that [HTTPError]: the request is logged,
    nothing is yielded from it, and there is neither a sleep nor a retry. *)
Theorem fatal_status_aborts {A} (fuel : nat) (self : OpenAlexClient)
    (max_pages : option Z) (pause : Q) (params : gmap string Json) (page_count : Z)
    (body : A -> Json -> M World A) (acc : A) (w : World)
    (resp : Response) (srv : server) :
  session_get (w_server w) (request self params) = (inr resp, srv) ->
  status_code resp <> 429 ->
  400 <= status_code resp < 600 ->
  works_loop (S fuel) self max_pages pause params page_count body acc w
  = (Raised (HTTPError (status_code resp)), after_get w (request self params) srv).
Proof.
  intros Hget H429 Herr. cbn [works_loop]. apply bind_raised. unfold iteration.
  rewrite (bind_ok _ _ _ _ _ (get_ok _ _ _ _ Hget)).
  apply Z.eqb_neq in H429. rewrite H429. unfold raise_for_status.
  assert (Hrange : (400 <=? status_code resp) && (status_code resp <? 600) = true).
  { apply andb_true_iff. split; [apply Z.leb_le | apply Z.ltb_lt]; lia. }
  rewrite Hrange. reflexivity.
Qed.

(** X2. A successful response whose body is a JSON object with neither a
    "results" nor a "meta" key is an empty last page: nothing is yielded and
    the run returns normally. *)
Theorem page_without_keys_ends {A} (fuel : nat) (self : OpenAlexClient)
    (max_pages : option Z) (pause : Q) (params : gmap string Json) (page_count : Z)
    (body : A -> Json -> M World A) (acc : A) (w : World)
    (resp : Response) (srv : server) (kvs : list (string * Json)) :
  session_get (w_server w) (request self params) = (inr resp, srv) ->
  is_success (status_code resp) = true ->
  json_body resp = Some (JObj kvs) ->
  Py.assoc "results" kvs = None ->
  Py.assoc "meta" kvs = None ->
  works_loop (S fuel) self max_pages pause params page_count body acc w
  = (Ok acc, after_get w (request self params) srv).
Proof.
  intros Hget Hok Hbody Hres Hmeta.
  rewrite (last_page_ends fuel self max_pages pause params page_count body acc w
             resp srv [] JNull Hget); [reflexivity | | reflexivity].
  split; [exact Hok |]. exists (JObj kvs). split; [exact Hbody |].
  unfold page_items, page_cursor. simpl. rewrite Hres, Hmeta. split; reflexivity.
Qed.

(** X3. A successful response whose body is not a JSON object (a list, a
    string, a number, null) ends the run with [AttributeError] before
    anything is yielded; one whose body cannot be decoded ends it with
    [JSONDecodeError]. *)
Theorem malformed_body_aborts {A} (fuel : nat) (self : OpenAlexClient)
    (max_pages : option Z) (pause : Q) (params : gmap string Json) (page_count : Z)
    (body : A -> Json -> M World A) (acc : A) (w : World)
    (resp : Response) (srv : server) :
  session_get (w_server w) (request self params) = (inr resp, srv) ->
  is_success (status_code resp) = true ->
  match json_body resp with Some (JObj _) => False | _ => True end ->
  works_loop (S fuel) self max_pages pause params page_count body acc w
  = (Raised (match json_body resp with
             | Some _ => AttributeError
             | None => JSONDecodeError
             end),
     after_get w (request self params) srv).
Proof.
  intros Hget Hok Hbody. apply is_success_inv in Hok as [H429 Herr].
  cbn [works_loop]. apply bind_raised. unfold iteration.
  rewrite (bind_ok _ _ _ _ _ (get_ok _ _ _ _ Hget)).
  rewrite H429. unfold raise_for_status. rewrite Herr, bind_ret_l. unfold resp_json.
  destruct (json_body resp) as [payload |]; [| reflexivity].
  rewrite bind_ret_l. destruct payload; try contradiction; reflexivity.
Qed.

Lemma gets_app (l1 l2 : list Event) : gets (l1 ++ l2) = gets l1 ++ gets l2.
Proof. apply List.filter_app. Qed.

Lemma gets_pause (pause : Q) : gets (pause_events pause) = [].
Proof. unfold pause_events. destruct (Py.q_truthy pause); reflexivity. Qed.

(** A page with a next-cursor token that brings the page count to the cap. *)
Lemma capped_page_ends (fuel : nat) self max_pages pause params page_count acc w resp
    srv items cursor :
  session_get (w_server w) (request self params) = (inr resp, srv) ->
  is_page resp items cursor ->
  Py.truthy cursor = true ->
  cap_reached max_pages (page_count + 1) = true ->
  works_loop (S fuel) self max_pages pause params page_count collect acc w
  = (Ok (acc ++ items), after_get w (request self params) srv).
Proof.
  intros Hget Hpage Hc Hcap. cbn [works_loop].
  unfold bind at 1. rewrite (iteration_page _ _ _ _ _ _ _ _ _ _ _ _ Hget Hpage).
  rewrite Hc, Hcap. simpl. unfold bind at 1. rewrite for_each_collect. reflexivity.
Qed.

Lemma page_cap_counts (self : OpenAlexClient) (pause : Q) (m : Z)
    (pages : list (list Json)) (srv : server) (params : gmap string Json)
    (srv' : server) :
  serves self srv params pages srv' ->
  (Py.q_truthy pause = true -> sleepable pause) ->
  forall (k fuel : nat) (page_count : Z) (acc : list Json) (w : World),
    w_server w = srv ->
    0 <= page_count -> m = page_count + Z.of_nat (S k) ->
    (S k < length pages)%nat -> (S k <= fuel)%nat ->
    exists w',
      works_loop fuel self (Some m) pause params page_count collect acc w
      = (Ok (acc ++ concat (firstn (S k) pages)), w')
      /\ length (gets (w_log w')) = (length (gets (w_log w)) + S k)%nat.
Proof.
  intros Hserves Hpause.
  induction Hserves as [srv params resp srv' items cursor Hget Hpage Hc
                       | srv params resp srv1 items cursor rest srv' Hget Hpage Hc Hrest IH];
    intros k fuel page_count acc w Hsrv Hpc Hm Hlen Hfuel.
  - simpl in Hlen. lia.
  - subst srv. destruct fuel as [| fuel]; [lia |]. destruct k as [| k].
    + rewrite (capped_page_ends fuel self (Some m) pause params page_count acc w resp
                 srv1 items cursor Hget Hpage Hc).
      * eexists. split; [simpl; rewrite app_nil_r; reflexivity |].
        simpl. rewrite gets_app, length_app. reflexivity.
      * simpl. apply andb_true_iff. split.
        -- apply negb_true_iff. apply Z.eqb_neq. lia.
        -- apply Z.leb_le. lia.
    + rewrite (next_page_follows fuel self (Some m) pause params page_count acc w resp
                 srv1 items cursor Hget Hpage Hc); [| | exact Hpause].
      * match goal with
        | |- context [works_loop _ _ _ _ _ _ _ _ ?w0] =>
            destruct (IH k fuel (page_count + 1) (acc ++ items) w0)
              as (w' & Hrun & Hcount);
              [reflexivity | lia | lia | simpl in Hlen; lia | lia |]
        end.
        exists w'. split.
        -- rewrite Hrun. cbn [firstn concat]. rewrite <- app_assoc. reflexivity.
        -- rewrite Hcount. simpl. rewrite !gets_app, gets_pause, app_nil_r, length_app.
           simpl. lia.
      * simpl. apply andb_false_iff. right. apply Z.leb_gt. lia.
Qed.

(** X4. A page cap of [m >= 1] stops the run after exactly [m] pages: when
    the server has more than [m] pages to serve, the run makes [m] requests
    and yields the items of the first [m] pages, in order. *)
Theorem page_cap_stops (self : OpenAlexClient) (pause : Q) (m : Z)
    (pages : list (list Json)) (w : World) (params : gmap string Json)
    (srv' : server) (fuel : nat) (acc : list Json) :
  serves self (w_server w) params pages srv' ->
  (Py.q_truthy pause = true -> sleepable pause) ->
  1 <= m ->
  (Z.to_nat m < length pages)%nat ->
  (Z.to_nat m <= fuel)%nat ->
  exists w',
    works_loop fuel self (Some m) pause params 0 collect acc w
    = (Ok (acc ++ concat (firstn (Z.to_nat m) pages)), w')
    /\ length (gets (w_log w')) = (length (gets (w_log w)) + Z.to_nat m)%nat.
Proof.
  intros Hserves Hpause Hm Hlen Hfuel.
  destruct (Z.to_nat m) as [| k] eqn:Hk; [lia |].
  apply (page_cap_counts self pause m pages (w_server w) params srv' Hserves Hpause);
    auto; lia.
Qed.

(** X5. The parameters of the first request: a key of [query_params] has
    the caller's value, also when it is one of the fetcher's own keys; any
    other key has the fetcher's value, that is the page size, the contact
    address, the cursor "*", and the "updated since" filter when that one is
    a non-empty string, and nothing else. *)
Theorem initial_params_lookup (self : OpenAlexClient) (per_page : Z)
    (updated_since : option string) (query_params : option (gmap string Json)) :
  (forall (q : gmap string Json) (k : string) (v : Json),
      query_params = Some q -> q !! k = Some v ->
      initial_params self per_page updated_since query_params !! k = Some v)
  /\ (forall k : string,
        (forall q : gmap string Json, query_params = Some q -> q !! k = None) ->
        initial_params self per_page updated_since query_params !! k
        = if decide (k = "from_updated_date") then
            match updated_since with
            | Some u => if Str.truthy u then Some (JStr u) else None
            | None => None
            end
          else if decide (k = "per_page") then Some (JNum per_page)
          else if decide (k = "mailto") then Some (JStr (mailto self))
          else if decide (k = "cursor") then Some (JStr "*")
          else None).
Proof.
  split.
  - intros q k v -> Hq. unfold initial_params. apply lookup_union_Some_l. exact Hq.
  - intros k Hq. unfold initial_params.
    assert (Hbase :
      (match updated_since with
       | Some u =>
           if Str.truthy u
           then <["from_updated_date" := JStr u]>
                  ({[ "per_page" := JNum per_page; "mailto" := JStr (mailto self);
                      "cursor" := JStr "*" ]} : gmap string Json)
           else {[ "per_page" := JNum per_page; "mailto" := JStr (mailto self);
                   "cursor" := JStr "*" ]}
       | None => {[ "per_page" := JNum per_page; "mailto" := JStr (mailto self);
                    "cursor" := JStr "*" ]}
       end) !! k
      = if decide (k = "from_updated_date") then
          match updated_since with
          | Some u => if Str.truthy u then Some (JStr u) else None
          | None => None
          end
        else if decide (k = "per_page") then Some (JNum per_page)
        else if decide (k = "mailto") then Some (JStr (mailto self))
        else if decide (k = "cursor") then Some (JStr "*")
        else None).
    { destruct updated_since as [u |]; [destruct (Str.truthy u) |];
        repeat case_decide; subst; simplify_map_eq; reflexivity. }
    destruct query_params as [q |]; [| exact Hbase].
    rewrite lookup_union_r by (apply Hq; reflexivity). exact Hbase.
Qed.

Lemma append_empty_l (s : string) : "" +:+ s = s.
Proof. reflexivity. Qed.

Lemma append_cons (c : ascii) (s t : string) : String c s +:+ t = String c (s +:+ t).
Proof. reflexivity. Qed.

Lemma append_not_empty (t : string) : t +:+ "/" <> "".
Proof. destruct t; discriminate. Qed.

Lemma rstrip_slash_spec (s : string) :
  (exists n, s = Str.rstrip_slash s +:+ slashes n)
  /\ (forall t, Str.rstrip_slash s <> t +:+ "/").
Proof.
  induction s as [| c r [[n Hn] Hend]]; cbn [Str.rstrip_slash].
  - split; [exists O; reflexivity |]. intros t H. symmetry in H.
    exact (append_not_empty t H).
  - destruct (Str.rstrip_slash r) as [| d r'] eqn:Hr.
    + rewrite append_empty_l in Hn. destruct (Ascii.eqb c "/"%char) eqn:Hc.
      * apply Ascii.eqb_eq in Hc. subst c. split.
        -- exists (S n). rewrite append_empty_l. cbn [slashes]. congruence.
        -- intros t H. symmetry in H. exact (append_not_empty t H).
      * split.
        -- exists n. rewrite append_cons, append_empty_l. congruence.
        -- intros [| x t] H.
           ++ rewrite append_empty_l in H. inversion H. subst c.
              rewrite Ascii.eqb_refl in Hc. discriminate.
           ++ rewrite append_cons in H. inversion H as [[Hx Ht]]. symmetry in Ht.
              exact (append_not_empty t Ht).
    + split.
      * exists n. rewrite append_cons. congruence.
      * intros [| x t] H.
        -- rewrite append_empty_l in H. inversion H.
        -- rewrite append_cons in H. inversion H as [[Hx Ht]]. apply (Hend t). exact Ht.
Qed.

(** X6. [OpenAlexClient] refuses an empty contact address with a
    [ValueError], and otherwise keeps the address and the base URL with its
    trailing slashes removed: the URL differs from the one kept only by a run
    of "/" at the end, and the one kept does not end in "/", so that the
    address requested is <base>/works with a single separator. *)
Theorem client_init_spec (url mail : string) :
  match OpenAlexClient_init url mail with
  | inr self =>
      mail <> "" /\ mailto self = mail
      /\ (exists n, url = base_url self +:+ slashes n)
      /\ (forall t, base_url self <> t +:+ "/")
      /\ (forall params, req_url (request self params) = base_url self +:+ "/works")
  | inl e =>
      mail = ""
      /\ e = ValueError "OpenAlex requires a contact email (mailto). Set OPENALEX_EMAIL."
  end.
Proof.
  unfold OpenAlexClient_init. destruct mail as [| c m]; simpl.
  - split; reflexivity.
  - destruct (rstrip_slash_spec url) as [Hn Hend].
    split; [discriminate |]. split; [reflexivity |]. split; [exact Hn |].
    split; [exact Hend |]. reflexivity.
Qed.

Lemma sleep_cases (d : Q) (w : World) :
  sleep d w = (Ok tt, log (EvSleep d) w) \/ exists e, sleep d w = (Raised e, w).
Proof.
  unfold sleep. destruct (Qnum d <? 0); [right; eauto |].
  destruct (Qle_bool d sleep_max); [left; reflexivity | right; eauto].
Qed.

Lemma get_cases (r : Request) (w : World) :
  exists srv,
    snd (get r w) = after_get w r srv
    /\ ((exists resp, fst (get r w) = Ok resp) \/ (exists e, fst (get r w) = Raised e)).
Proof.
  unfold get. destruct (session_get (w_server w) r) as [[e | resp] srv]; simpl.
  - exists srv. split; [reflexivity | right; eauto].
  - exists srv. split; [reflexivity | left; eauto].
Qed.

(** What one pass with the collecting body appends to the log: its request,
    then at most one sleep; and the parameters it hands on differ from its own
    at most in the cursor. *)
Lemma iteration_trace self max_pages pause params page_count acc (w : World) :
  exists sleeps,
    w_log (snd (iteration self max_pages pause params page_count collect acc w))
    = w_log w ++ EvGet (request self params) :: sleeps
    /\ Forall (fun e => match e with EvSleep _ => True | _ => False end) sleeps
    /\ match fst (iteration self max_pages pause params page_count collect acc w) with
       | Ok (Again params' _ _) => delete "cursor" params' = delete "cursor" params
       | _ => True
       end.
Proof.
  pose (good := fun out : result (Next (list Json)) * World =>
    exists sleeps,
      w_log (snd out) = w_log w ++ EvGet (request self params) :: sleeps
      /\ Forall (fun e => match e with EvSleep _ => True | _ => False end) sleeps
      /\ match fst out with
         | Ok (Again params' _ _) => delete "cursor" params' = delete "cursor" params
         | _ => True
         end).
  change (good (iteration self max_pages pause params page_count collect acc w)).
  assert (Hsleep : forall d (w0 : World) (p' : gmap string Json) n (a : list Json),
    w_log w0 = w_log w ++ [EvGet (request self params)] ->
    delete "cursor" p' = delete "cursor" params ->
    good ((let! _ := sleep d in ret (Again p' n a)) w0)).
  { intros d w0 p' n a Hlog Hdel. unfold bind, good.
    destruct (sleep_cases d w0) as [Hs | [e Hs]]; rewrite Hs; simpl.
    - exists [EvSleep d]. rewrite Hlog, <- app_assoc. repeat split; auto.
    - exists []. rewrite Hlog. repeat split; auto. }
  assert (Hstop : forall (r : result (Next (list Json))) (w0 : World),
    w_log w0 = w_log w ++ [EvGet (request self params)] ->
    match r with Ok (Again _ _ _) => False | _ => True end ->
    good (r, w0)).
  { intros r w0 Hlog Hr. exists []. simpl. rewrite Hlog. repeat split; auto.
    destruct r as [[a | p c a] | e |]; auto. contradiction. }
  assert (Hnext : forall (w0 : World) (p' : gmap string Json) n (a : list Json),
    w_log w0 = w_log w ++ [EvGet (request self params)] ->
    delete "cursor" p' = delete "cursor" params ->
    good (Ok (Again p' n a), w0)).
  { intros w0 p' n a Hlog Hdel. exists []. simpl. rewrite Hlog. repeat split; auto. }
  clearbody good. unfold iteration. unfold bind at 1.
  destruct (get_cases (request self params) w) as (srv & Hw & Hres).
  destruct (get (request self params) w) as [r w0]. simpl in Hw, Hres. subst w0.
  assert (Hlog : w_log (after_get w (request self params) srv)
                 = w_log w ++ [EvGet (request self params)]) by reflexivity.
  destruct Hres as [[resp ->] | [e ->]]; [| apply Hstop; simpl; auto].
  destruct (status_code resp =? 429).
  - destruct (retry_after resp) as [delay |]; [| apply Hstop; simpl; auto].
    apply Hsleep; [exact Hlog | reflexivity].
  - unfold raise_for_status. destruct (_ && _); [apply Hstop; simpl; auto |].
    rewrite bind_ret_l. unfold resp_json.
    destruct (json_body resp) as [payload |]; [| apply Hstop; simpl; auto].
    rewrite bind_ret_l.
    destruct (page_items payload) as [e | items]; [apply Hstop; simpl; auto |].
    cbn [lift]. rewrite bind_ret_l. unfold bind at 1. rewrite for_each_collect.
    destruct (page_cursor payload) as [e | cursor]; [apply Hstop; simpl; auto |].
    cbn [lift]. rewrite bind_ret_l.
    destruct (negb (Py.truthy cursor)); [apply Hstop; simpl; auto |].
    destruct (cap_reached max_pages (page_count + 1)); [apply Hstop; simpl; auto |].
    destruct (Py.q_truthy pause).
    + apply Hsleep; [exact Hlog | apply delete_insert_eq].
    + rewrite bind_ret_l. apply Hnext; [exact Hlog | apply delete_insert_eq].
Qed.

(** X7. Every request of a run of [works_stream] goes to <base>/works with
    the same timeout and the same headers, and with the parameters of the
    first request but for the cursor: page size, contact address and filters
    never change while paging. The run logs nothing but requests and
    sleeps, and the first thing it logs is the first request. *)
Theorem requests_differ_in_cursor_only (fuel : nat) (self : OpenAlexClient)
    (per_page : Z) (updated_since : option string) (max_pages : option Z) (pause : Q)
    (query_params : option (gmap string Json)) (w : World) :
  exists new,
    w_log (snd (works_list fuel self per_page updated_since max_pages pause
                  query_params w))
    = w_log w ++ new
    /\ Forall (paging_request self
                 (initial_params self per_page updated_since query_params)) new
    /\ match new with
       | [] => True
       | e :: _ =>
           e = EvGet (request self
                        (initial_params self per_page updated_since query_params))
       end.
Proof.
  unfold works_list, works_stream.
  set (p0 := initial_params self per_page updated_since query_params).
  assert (Hgen : forall fuel params page_count acc (w0 : World),
    delete "cursor" params = delete "cursor" p0 ->
    exists new,
      w_log (snd (works_loop fuel self max_pages pause params page_count collect acc w0))
      = w_log w0 ++ new
      /\ Forall (paging_request self p0) new
      /\ match new with [] => True | e :: _ => e = EvGet (request self params) end).
  { clear fuel w. induction fuel as [| fuel IH]; intros params page_count acc w0 Hdel.
    - exists []. simpl. rewrite app_nil_r. auto.
    - cbn [works_loop]. unfold bind.
      destruct (iteration_trace self max_pages pause params page_count acc w0)
        as (sleeps & Hlog & Hsleeps & Hnext).
      destruct (iteration self max_pages pause params page_count collect acc w0)
        as [r w1]. simpl in Hlog, Hnext.
      assert (Hstep : Forall (paging_request self p0)
                        (EvGet (request self params) :: sleeps)).
      { constructor; [simpl; repeat split; auto |].
        eapply Forall_impl; [exact Hsleeps |]. intros [] He; simpl in *; tauto. }
      destruct r as [[a | params' c a] | e |]; simpl.
      1, 3, 4: exists (EvGet (request self params) :: sleeps); auto.
      destruct (IH params' c a w1) as (new & Hnew & Hall & _); [congruence |].
      exists ((EvGet (request self params) :: sleeps) ++ new).
      rewrite Hnew, Hlog, <- app_assoc. split; [reflexivity |].
      split; [apply Forall_app; auto | reflexivity]. }
  apply Hgen. reflexivity.
Qed.

End FetcherMore.

(** ** schema.py and the normalising step of producer.py *)

Section NormaliserMore.

Context {P : Platform}.

Lemma assoc_skip (k k' : string) (v : Json) (l1 l2 : list (string * Json)) :
  k' <> k -> Py.assoc k' (l1 ++ (k, v) :: l2) = Py.assoc k' (l1 ++ l2).
Proof.
  intros Hne. induction l1 as [| [k0 v0] l1 IH]; simpl.
  - destruct (String.eqb k' k) eqn:He; [| reflexivity].
    apply String.eqb_eq in He. contradiction.
  - rewrite IH. reflexivity.
Qed.

(** X8. [OpenAlexWork.model_validate] ignores the keys it does not declare:
    a raw record validates to the same work, or fails alike, with or without
    an extra key, wherever the key stands and whatever its value. *)
Theorem unknown_keys_are_ignored (k : string) (v : Json) (l1 l2 : list (string * Json)) :
  ~ In k declared_fields ->
  model_validate (JObj (l1 ++ (k, v) :: l2)) = model_validate (JObj (l1 ++ l2)).
Proof.
  intros Hk. unfold model_validate, validate_model.
  rewrite !assoc_skip; [reflexivity | ..].
  all: intros <-; apply Hk; unfold declared_fields; simpl; tauto.
Qed.

(** X9. The edges of [model_validate]: a raw record that is not a JSON
    object is a [ValidationError]; an object with none of the declared keys
    is the work with every field [None]; and a declared text field holding
    anything but a string or null is a [ValidationError]. *)
Theorem model_validate_edges :
  (forall raw, match raw with JObj _ => True | _ => model_validate raw = inl ValidationError end)
  /\ (forall kvs,
        (forall k, In k declared_fields -> Py.assoc k kvs = None) ->
        model_validate (JObj kvs) = inr empty_work)
  /\ (forall kvs k v,
        In k ["id"; "doi"; "title"; "email"] ->
        Py.assoc k kvs = Some v ->
        match v with JStr _ | JNull => False | _ => True end ->
        model_validate (JObj kvs) = inl ValidationError).
Proof.
  split; [| split].
  - intros raw. destruct raw; auto.
  - intros kvs Hnone. unfold model_validate, validate_model.
    rewrite !Hnone by (unfold declared_fields; simpl; tauto). reflexivity.
  - intros kvs k v Hk Hv Hbad. unfold model_validate, validate_model.
    assert (Hfail : optional validate_str (Some v) = None).
    { destruct v; simpl in *; try contradiction; reflexivity. }
    simpl in Hk. destruct Hk as [<- | [<- | [<- | [<- | []]]]]; rewrite Hv.
    + rewrite Hfail. reflexivity.
    + rewrite Hfail. destruct (optional validate_str (Py.assoc "id" kvs)); reflexivity.
    + rewrite Hfail.
      destruct (optional validate_str (Py.assoc "id" kvs)); [| reflexivity].
      destruct (optional validate_str (Py.assoc "doi" kvs)); reflexivity.
    + rewrite Hfail.
      destruct (optional validate_str (Py.assoc "id" kvs)); [| reflexivity].
      destruct (optional validate_str (Py.assoc "doi" kvs)); [| reflexivity].
      destruct (optional validate_str (Py.assoc "title" kvs)); [| reflexivity].
      destruct (optional validate_int (Py.assoc "publication_year" kvs)); [| reflexivity].
      destruct (optional HostVenue_validate (Py.assoc "host_venue" kvs)); [| reflexivity].
      destruct (optional (validate_list Authorship_validate)
                  (Py.assoc "authorships" kvs)); reflexivity.
Qed.

Lemma main_body_valid (cfg : Settings) (sink : FirehoseSink) (dry_run : bool)
    (eff : Z) (st : Loop) (raw : Json) (w : World) (work : OpenAlexWork) :
  model_validate raw = inr work ->
  main_body cfg sink dry_run eff st raw w
  = (if eff <=? len (batch st ++ [envelope_of cfg work (utcnow (w_ticks w))
                                    (uuid4 (w_uuids w))])
     then
       let! counters :=
         flush (batch st ++ [envelope_of cfg work (utcnow (w_ticks w))
                               (uuid4 (w_uuids w))])
           sink dry_run (total_sent st) (total_failed st) in
       ret {| batch := []; total_sent := fst counters; total_failed := snd counters |}
     else
       ret {| batch := batch st ++ [envelope_of cfg work (utcnow (w_ticks w))
                                      (uuid4 (w_uuids w))];
              total_sent := total_sent st; total_failed := total_failed st |})
      (advance w).
Proof.
  intros Hvalid. unfold main_body. unfold bind at 1. unfold now at 1. cbn [fst snd].
  rewrite Hvalid. cbn [lift]. rewrite bind_ret_l.
  unfold bind at 1. unfold from_openalex, bind at 1, new_uuid, ret. cbn [fst snd].
  reflexivity.
Qed.

Lemma main_body_invalid (cfg : Settings) (sink : FirehoseSink) (dry_run : bool)
    (eff : Z) (st : Loop) (raw : Json) (w : World) (e : exn) :
  model_validate raw = inl e ->
  main_body cfg sink dry_run eff st raw w = (Raised e, tick w).
Proof.
  intros Hbad. unfold main_body. unfold bind at 1. unfold now at 1. cbn [fst snd].
  rewrite Hbad. reflexivity.
Qed.

(** X11. A raw record that fails validation ends the run at that record:
    the pass raises [ValidationError] once the clock is read, no identifier
    is drawn, nothing is delivered or printed, and the records after it in
    the page are never looked at. *)
Theorem invalid_record_aborts (cfg : Settings) (sink : FirehoseSink) (dry_run : bool)
    (eff : Z) (st : Loop) (raw : Json) (w : World) (e : exn) :
  model_validate raw = inl e ->
  main_body cfg sink dry_run eff st raw w = (Raised e, tick w)
  /\ forall rest,
       for_each (main_body cfg sink dry_run eff) (raw :: rest) st w = (Raised e, tick w).
Proof.
  intros Hbad. pose proof (main_body_invalid cfg sink dry_run eff st raw w e Hbad) as Hone.
  split; [exact Hone |]. intros rest. cbn [for_each]. apply bind_raised. exact Hone.
Qed.


(** X13. The record dumped for an envelope always carries the two
    timestamps, the source tag and the identifier, the last under the alias
    "_LOAD_ID" and never under "load_id"; its keys are pairwise distinct and
    stand in field order. *)
Theorem dump_fields_shape (b : Envelope) :
  Py.assoc "_LOAD_ID" (dump_fields b) = Some (JStr (load_id b))
  /\ Py.assoc "load_id" (dump_fields b) = None
  /\ Py.assoc "source" (dump_fields b) = Some (JStr (source b))
  /\ Py.assoc "event_ts" (dump_fields b) = Some (datetime_json (event_ts b))
  /\ Py.assoc "ingest_ts" (dump_fields b) = Some (datetime_json (ingest_ts b))
  /\ map fst (dump_fields b) `sublist_of` dumped_keys
  /\ NoDup (map fst (dump_fields b)).
Proof.
  assert (Hsub : map fst (dump_fields b) `sublist_of` dumped_keys).
  { unfold dump_fields, dumped_keys.
    destruct (id b), (doi b), (title b), (publication_year b), (host_venue b),
             (primary_author b), (email b); cbn;
      repeat first [apply sublist_skip | apply sublist_cons | apply sublist_nil_l]. }
  repeat split; try exact Hsub.
  1-5: unfold dump_fields;
    destruct (id b), (doi b), (title b), (publication_year b), (host_venue b),
             (primary_author b), (email b); reflexivity.
  eapply sublist_NoDup; [| exact Hsub].
  unfold dumped_keys. refine (bool_decide_unpack _ _). vm_compute. exact Logic.I.
Qed.

End NormaliserMore.

(** ** firehose_client.py and the delivering side of producer.py *)

Section DeliveryMore.

Context {P : Platform}.

Lemma chars_append (s t : string) : Str.chars (s +:+ t) = Str.chars s ++ Str.chars t.
Proof.
  induction s as [| c s IH]; [reflexivity |].
  rewrite append_cons. unfold Str.chars in *. simpl. rewrite IH. reflexivity.
Qed.

Lemma encode_utf8_append (s t : string) :
  Str.encode_utf8 (s +:+ t) = Str.encode_utf8 s ++ Str.encode_utf8 t.
Proof. unfold Str.encode_utf8. rewrite chars_append. apply flat_map_app. Qed.

Lemma utf8_char_bytes (c : ascii) :
  forallb (fun b => (0 <=? b) && (b <? 256)) (Str.utf8_char c) = true.
Proof. destruct c as [[] [] [] [] [] [] [] []]; vm_compute; reflexivity. Qed.

Lemma encode_utf8_bytes (s : string) :
  forallb (fun b => (0 <=? b) && (b <? 256)) (Str.encode_utf8 s) = true.
Proof.
  unfold Str.encode_utf8. induction (Str.chars s) as [| c l IH]; [reflexivity |].
  simpl. rewrite forallb_app, utf8_char_bytes, IH. reflexivity.
Qed.

(** X14. The entries [put_records] sends: one per record, in the order of
    the records, each the UTF-8 bytes of the record's JSON text followed by
    one line feed (byte 10), and each a list of bytes (0 to 255). *)
Theorem entries_are_lines (records : list Json) :
  entries_of records = map (fun r => Str.encode_utf8 (json_dumps r) ++ [10]) records
  /\ Forall (fun entry => forallb (fun b => (0 <=? b) && (b <? 256)) entry = true)
       (entries_of records)
  /\ forall more, entries_of (records ++ more) = entries_of records ++ entries_of more.
Proof.
  split; [| split].
  - unfold entries_of. apply map_ext. intros r. apply encode_utf8_append.
  - unfold entries_of. apply List.Forall_forall. intros entry Hin.
    apply in_map_iff in Hin as (r & <- & _). apply encode_utf8_bytes.
  - intros more. unfold entries_of. apply map_app.
Qed.

Lemma examples_loop_spec (rr : list RequestResponse)
    (acc : list (option string * option string)) :
  (length acc < 3)%nat ->
  examples_loop rr acc
  = firstn 3 (acc ++ map (fun r => (ErrorCode r, ErrorMessage r))
                        (List.filter has_error rr)).
Proof.
  revert acc. induction rr as [| r rr IH]; intros acc Hacc.
  - simpl. rewrite app_nil_r. symmetry. apply firstn_all2. lia.
  - cbn [examples_loop List.filter]. fold (has_error r).
    destruct (has_error r).
    + cbn [map]. replace (acc ++ (ErrorCode r, ErrorMessage r) :: map _ _)
        with ((acc ++ [(ErrorCode r, ErrorMessage r)])
              ++ map (fun r => (ErrorCode r, ErrorMessage r)) (List.filter has_error rr))
        by (rewrite <- app_assoc; reflexivity).
      assert (Hlen : length (acc ++ [(ErrorCode r, ErrorMessage r)]) = S (length acc)).
      { rewrite length_app. simpl. lia. }
      destruct (3 <=? len (acc ++ [(ErrorCode r, ErrorMessage r)])) eqn:Hfull.
      * apply Z.leb_le in Hfull. unfold len in Hfull.
        rewrite firstn_app. replace (3 - length _)%nat with O by lia.
        rewrite firstn_all2 by lia. simpl. rewrite app_nil_r. reflexivity.
      * apply Z.leb_gt in Hfull. unfold len in Hfull. apply IH. lia.
    + assert (Hnot : (3 <=? len acc) = false) by (apply Z.leb_gt; unfold len; lia).
      rewrite Hnot. apply IH. exact Hacc.
Qed.

Lemma prints_log {X} (f : X -> Msg) (xs : list X) (w : World) :
  fst (for_each (fun _ x => print (f x)) xs tt w) = Ok tt
  /\ w_log (snd (for_each (fun _ x => print (f x)) xs tt w))
     = w_log w ++ map (fun x => EvPrint (f x)) xs.
Proof.
  revert w. induction xs as [| x xs IH]; intros w; simpl.
  - rewrite app_nil_r. auto.
  - unfold bind, print at 1 3. destruct (IH (log (EvPrint (f x)) w)) as [Hok Hlog].
    split; [exact Hok |]. rewrite Hlog. simpl. rewrite <- app_assoc. reflexivity.
Qed.

Lemma print_examples_log (resp : PutResponse) (w : World) :
  fst (print_examples resp w) = Ok tt
  /\ w_log (snd (print_examples resp w))
     = w_log w
       ++ match examples_loop (default [] (RequestResponses resp)) [] with
          | [] => []
          | examples =>
              EvPrint MsgBatchHadFailures
              :: map (fun ex => EvPrint (MsgFailure (fst ex) (snd ex))) examples
          end.
Proof.
  unfold print_examples.
  destruct (examples_loop (default [] (RequestResponses resp)) []) as [| ex exs].
  - simpl. rewrite app_nil_r. auto.
  - unfold bind, print at 1 3.
    destruct (prints_log (fun ex => MsgFailure (fst ex) (snd ex)) (ex :: exs)
                (log (EvPrint MsgBatchHadFailures) w)) as [Hok Hlog].
    split; [exact Hok |]. rewrite Hlog. simpl. rewrite <- app_assoc. reflexivity.
Qed.

(** X15. The diagnostics [flush] prints for an answer with failures: the
    error code and message of the first three entries of [RequestResponses]
    that have a non-empty code or message, in order, under one heading; and
    nothing at all, heading included, when no entry has one or the key is
    missing. *)
Theorem print_examples_first_three (resp : PutResponse) (w : World) :
  examples_loop (default [] (RequestResponses resp)) []
  = firstn 3 (map (fun r => (ErrorCode r, ErrorMessage r))
                (List.filter has_error (default [] (RequestResponses resp))))
  /\ fst (print_examples resp w) = Ok tt
  /\ w_log (snd (print_examples resp w))
     = w_log w
       ++ match examples_loop (default [] (RequestResponses resp)) [] with
          | [] => []
          | examples =>
              EvPrint MsgBatchHadFailures
              :: map (fun ex => EvPrint (MsgFailure (fst ex) (snd ex))) examples
          end.
Proof.
  split; [apply (examples_loop_spec _ []); simpl; lia | apply print_examples_log].
Qed.

Lemma delivered_app (l1 l2 : list Event) :
  delivered (l1 ++ l2) = delivered l1 ++ delivered l2.
Proof. apply flat_map_app. Qed.

Lemma delivered_prints {X} (f : X -> Msg) (xs : list X) :
  delivered (map (fun x => EvPrint (f x)) xs) = [].
Proof. induction xs as [| x xs IH]; [reflexivity | exact IH]. Qed.

Lemma prints_world {X} (f : X -> Msg) (xs : list X) (w : World) :
  same_sources w (snd (for_each (fun _ x => print (f x)) xs tt w)).
Proof.
  revert w. induction xs as [| x xs IH]; intros w; simpl; [repeat split |].
  unfold bind, print at 1. apply (IH (log (EvPrint (f x)) w)).
Qed.

Lemma print_examples_quiet (resp : PutResponse) (w : World) :
  delivered (w_log (snd (print_examples resp w))) = delivered (w_log w)
  /\ same_sources w (snd (print_examples resp w)).
Proof.
  split.
  - destruct (print_examples_log resp w) as (_ & ->).
    rewrite delivered_app.
    destruct (examples_loop _ _) as [| ex exs]; simpl; [apply app_nil_r |].
    rewrite (delivered_prints (fun ex => MsgFailure (fst ex) (snd ex))).
    apply app_nil_r.
  - unfold print_examples. destruct (examples_loop _ _) as [| ex exs];
      [repeat split |].
    unfold bind, print at 1.
    apply (prints_world (fun ex => MsgFailure (fst ex) (snd ex)) (ex :: exs)
             (log (EvPrint MsgBatchHadFailures) w)).
Qed.

(** A delivery that returns: what it hands to the stream, and its counters. *)
Lemma flush_delivers batch sink total failed (w : World) c w' :
  flush batch sink false total failed w = (Ok c, w') ->
  delivered (w_log w') = delivered (w_log w) ++ entries_of (map model_dump batch)
  /\ fst c = total + len batch
  /\ same_sources w w'.
Proof.
  intros Hrun. pose proof Hrun as Hinv.
  apply flush_inv in Hinv as (resp & w1 & Hput & ->).
  destruct (put_records_world sink (map model_dump batch) w) as [_ [t Hw1]].
  rewrite Hput in Hw1. simpl in Hw1.
  unfold flush in Hrun. rewrite (bind_ok _ _ _ _ _ Hput) in Hrun.
  assert (Hw' : delivered (w_log w') = delivered (w_log w1) /\ same_sources w1 w').
  { destruct (negb (failed_put_count resp =? 0)).
    - pose proof (print_examples_quiet resp w1) as Hquiet.
      destruct (print_examples_log resp w1) as (Hok & _).
      unfold bind in Hrun. destruct (print_examples resp w1) as [r w2].
      simpl in Hok, Hquiet. subst r. inversion Hrun. subst w2. exact Hquiet.
    - inversion Hrun. repeat split. }
  destruct Hw' as (Hd & Hs & Ht & Hu). unfold same_sources.
  rewrite Hd, Hs, Ht, Hu, Hw1. simpl.
  rewrite delivered_app. simpl. rewrite app_nil_r. auto.
Qed.

Lemma entries_of_cons (r : Json) (records : list Json) :
  entries_of (r :: records) = entries_of [r] ++ entries_of records.
Proof. reflexivity. Qed.

Lemma pending_snoc (b : list Envelope) (env : Envelope) :
  entries_of (map model_dump (b ++ [env]))
  = entries_of (map model_dump b) ++ entries_of [model_dump env].
Proof. rewrite map_app. unfold entries_of. rewrite map_app. reflexivity. Qed.

(** One pass of [main]'s loop that returns, in non-dry-run mode. *)
Lemma main_body_step cfg sink eff st raw (w : World) st1 w1 :
  main_body cfg sink false eff st raw w = (Ok st1, w1) ->
  exists work,
    model_validate raw = inr work
    /\ delivered (w_log w1) ++ pending st1
       = delivered (w_log w) ++ pending st
         ++ entries_of [model_dump (envelope_of cfg work (utcnow (w_ticks w))
                                      (uuid4 (w_uuids w)))]
    /\ w_ticks w1 = S (w_ticks w) /\ w_uuids w1 = S (w_uuids w)
    /\ total_sent st1 - total_sent st
       = len (delivered (w_log w1)) - len (delivered (w_log w))
    /\ w_server w1 = w_server w.
Proof.
  intros Hrun. destruct (model_validate raw) as [e | work] eqn:Hvalid.
  { rewrite (main_body_invalid cfg sink false eff st raw w e Hvalid) in Hrun.
    discriminate. }
  exists work. split; [reflexivity |].
  rewrite (main_body_valid cfg sink false eff st raw w work Hvalid) in Hrun.
  set (env := envelope_of cfg work (utcnow (w_ticks w)) (uuid4 (w_uuids w))) in *.
  destruct (eff <=? len (batch st ++ [env])).
  - apply bind_inv in Hrun as (c & w2 & Hflush & Hret). inversion Hret. subst st1 w1.
    apply flush_delivers in Hflush as (Hd & Hc & Hs & Ht & Hu).
    unfold pending. cbn [batch total_sent]. rewrite Hd, Hc, Hs, Ht, Hu. cbn [advance w_log
      w_ticks w_uuids w_server]. rewrite pending_snoc.
    split; [exact (app_nil_r _) |].
    split; [reflexivity |]. split; [reflexivity |]. split; [| reflexivity].
    unfold len. rewrite !length_app, !length_entries_of, !length_map, ?length_app.
    simpl. lia.
  - inversion Hrun. subst st1 w1. unfold pending. cbn [batch total_sent advance w_log
      w_ticks w_uuids w_server]. rewrite pending_snoc.
    split; [reflexivity |]. split; [reflexivity |]. split; [reflexivity |].
    split; [lia | reflexivity].
Qed.

(** X16. Records are delivered in the order they are fetched, none lost and
    none twice: over any sequence of raw records that [main]'s loop gets
    through in non-dry-run mode, what has been handed to the stream followed
    by the batch in flight grows by exactly the entries of these records'
    envelopes, in the order of the records, each normalised with its own
    clock reading and identifier. *)
Theorem deliveries_keep_order (cfg : Settings) (sink : FirehoseSink) (eff : Z)
    (raws : list Json) (st : Loop) (w : World) (st' : Loop) (w' : World) :
  for_each (main_body cfg sink false eff) raws st w = (Ok st', w') ->
  exists works,
    Forall2 (fun raw work => model_validate raw = inr work) raws works
    /\ delivered (w_log w') ++ pending st'
       = delivered (w_log w) ++ pending st
         ++ entries_of (map model_dump
                          (envelopes_of cfg works (w_ticks w) (w_uuids w)))
    /\ total_sent st' - total_sent st
       = len (delivered (w_log w')) - len (delivered (w_log w)).
Proof.
  revert st w. induction raws as [| raw raws IH]; intros st w Hrun.
  - inversion Hrun. subst st' w'. exists []. split; [constructor |].
    split; [| lia]. symmetry. rewrite app_assoc. exact (app_nil_r _).
  - cbn [for_each] in Hrun. apply bind_inv in Hrun as (st1 & w1 & Hstep & Hrest).
    apply main_body_step in Hstep as (work & Hvalid & Hd & Ht & Hu & Hsent & _).
    apply IH in Hrest as (works & Hall & Hd' & Hsent').
    exists (work :: works). split; [constructor; assumption |].
    split; [| lia].
    rewrite Hd', app_assoc, Hd, Ht, Hu. cbn [envelopes_of map].
    rewrite (entries_of_cons (model_dump (envelope_of cfg work (utcnow (w_ticks w))
                                            (uuid4 (w_uuids w))))).
    rewrite <- !app_assoc. reflexivity.
Qed.

End DeliveryMore.

(** ** producer.py: the sizes of the batches *)

Section BatchingMore.

Context {P : Platform}.
Variables (base : list Event) (eff : Z).

Lemma hoare_failure {A} (F F' Pre : World -> Prop) (c : M World A)
    (Post : A -> World -> Prop) :
  (forall w, F w -> F' w) -> hoare F Pre c Post -> hoare F' Pre c Post.
Proof.
  intros HF Hc w Hw. specialize (Hc w Hw). destruct (fst (c w)); auto.
Qed.

Lemma put_of_fetch (e : Event) : is_fetch e = true -> put_of eff e.
Proof. destruct e; simpl; intros H; try discriminate; exact Logic.I. Qed.

Lemma put_of_plain (m : Msg) : plain m -> put_of eff (EvPrint m).
Proof. intros _. exact Logic.I. Qed.

Lemma full_batched w : grows (put_of eff) base w -> batched eff base w.
Proof.
  intros (new & Hnew & Hall). exists new, []. rewrite app_nil_r.
  split; [exact Hnew |]. split; [exact Hall |]. split; [constructor | simpl; lia].
Qed.

Lemma batched_on_log : on_log (batched eff base).
Proof.
  intros w w' Hlog (full & rest & Hnew & H). exists full, rest. rewrite <- Hlog.
  split; [exact Hnew | exact H].
Qed.

Lemma batched_print m w : batched eff base w -> batched eff base (log (EvPrint m) w).
Proof.
  intros (full & rest & Hnew & Hfull & Hrest & Hone).
  exists full, (rest ++ [EvPrint m]). simpl. rewrite Hnew, <- !app_assoc.
  split; [reflexivity |]. split; [exact Hfull |].
  split; [apply Forall_app; split; [exact Hrest | constructor; [exact Logic.I | constructor]] |].
  rewrite List.filter_app, length_app. simpl. lia.
Qed.

Lemma full_put stream entries w :
  grows (put_of eff) base w -> 1 <= len entries < eff ->
  batched eff base (log (EvPut stream entries) w).
Proof.
  intros (new & Hnew & Hall) Hlen. exists new, [EvPut stream entries]. simpl.
  rewrite Hnew, <- app_assoc. split; [reflexivity |]. split; [exact Hall |].
  split; [constructor; [exact Hlen | constructor] | lia].
Qed.

Lemma hoare_prints {X} (Q : World -> Prop) (f : X -> Msg) (xs : list X) :
  (forall m w, Q w -> Q (log (EvPrint m) w)) ->
  hoare Q Q (for_each (fun _ x => print (f x)) xs tt) (fun _ => Q).
Proof.
  intros HQ. apply (hoare_for_each Q (fun _ => Q)). intros ? x.
  apply hoare_print. intros w. apply HQ.
Qed.

(** The remainder and the summary, after the loop. *)
Lemma hoare_remainder sink dry (st : Loop) (k : Z * Z -> Msg)
    (last : Z * Z -> M World unit) :
  len (batch st) < eff ->
  (forall c, hoare (batched eff base) (batched eff base) (last c)
               (fun _ => batched eff base)) ->
  hoare (batched eff base) (grows (put_of eff) base)
    (let! counters :=
       (match batch st with
        | [] => ret (total_sent st, total_failed st)
        | _ => flush (batch st) sink dry (total_sent st) (total_failed st)
        end) in
     let! _ := print (k counters) in
     last counters)
    (fun _ => batched eff base).
Proof.
  intros Hshort Hlast.
  eapply hoare_bind with (Mid := fun _ => batched eff base).
  - destruct (batch st) as [| env rest] eqn:Hbatch.
    + apply hoare_ret. apply full_batched.
    + rewrite <- Hbatch. unfold flush. destruct dry.
      * eapply hoare_bind with (Mid := fun _ => batched eff base).
        { apply hoare_print. intros w Hw. apply batched_print, full_batched, Hw. }
        intros ?. apply hoare_ret. auto.
      * eapply hoare_bind with (Mid := fun _ => batched eff base).
        { apply hoare_put_records; [apply batched_on_log | | auto].
          intros w Hw. apply full_put; [exact Hw |].
          unfold len in *. rewrite length_entries_of, length_map, Hbatch in *.
          simpl in *. lia. }
        intros resp. eapply hoare_bind with (Mid := fun _ => batched eff base).
        { destruct (negb _); [| apply hoare_ret; auto].
          unfold print_examples. destruct (examples_loop _ _) as [| ex exs].
          - apply hoare_ret. auto.
          - eapply hoare_bind with (Mid := fun _ => batched eff base).
            + apply hoare_print. intros w. apply batched_print.
            + intros ?. apply (hoare_prints (batched eff base)
                                 (fun ex => MsgFailure (fst ex) (snd ex))).
              intros m w. apply batched_print. }
        intros ?. apply hoare_ret. auto.
  - intros c. eapply hoare_bind with (Mid := fun _ => batched eff base).
    + apply hoare_print. intros w. apply batched_print.
    + intros ?. apply Hlast.
Qed.

End BatchingMore.

Section BatchingMain.

Context {P : Platform}.

(** X17. Only the last batch is short: in every run of [main], however it
    ends, every delivery call made while records are being fetched carries
    exactly the effective batch size, and after these comes at most one
    further delivery call, the remainder, of at least one entry and fewer
    than the effective batch size. *)
Theorem only_the_last_batch_is_short (fuel : nat) (cfg : Settings) (per_page : Z)
    (updated_since : option string) (max_pages arg : option Z)
    (batch_sleep : option Q) (dry_run : bool) (w : World) :
  batched (eff_batch_size_of arg cfg) (w_log w)
    (snd (main fuel cfg per_page updated_since max_pages arg batch_sleep dry_run w)).
Proof.
  set (eff := eff_batch_size_of arg cfg). set (base := w_log w).
  set (Q := batched eff base). set (G := grows (put_of eff) base).
  assert (HGQ : forall w0, G w0 -> Q w0) by (apply full_batched).
  assert (Hprint : forall m w0, G w0 -> G (log (EvPrint m) w0)).
  { intros m w0. apply grows_log. exact Logic.I. }
  assert (Hmain : hoare Q G
            (main fuel cfg per_page updated_since max_pages arg batch_sleep dry_run)
            (fun _ => Q)).
  { unfold main. fold eff.
    eapply hoare_bind with (Mid := fun _ => G).
    { apply (hoare_failure G); [exact HGQ | apply hoare_validate]. }
    intros ?. destruct ((eff <=? 0) || (500 <? eff)) eqn:Hguard;
      [apply hoare_raise; exact HGQ |].
    apply orb_false_iff in Hguard as [Hlo _]. apply Z.leb_gt in Hlo.
    eapply hoare_bind with (Mid := fun _ => G).
    { apply hoare_print. intros w0. apply Hprint. }
    intros ?. eapply hoare_bind; [apply hoare_lift; exact HGQ |]. intros oa.
    eapply hoare_bind with (Mid := fun st w0 => G w0 /\ len (batch st) < eff).
    { eapply hoare_conseq;
        [| | apply (hoare_works_loop Q (fun st w0 => G w0 /\ 0 < eff - len (batch st))
                      (main_body cfg {| stream_name := firehose_name cfg |} dry_run eff))].
      - intros w0 Hw0. split; [exact Hw0 |]. unfold len. simpl. lia.
      - intros st w0 [Hg Hj]. split; [exact Hg | lia].
      - intros st w0 w0' Hlog [Hg Hj]. split; [eapply grows_on_log; eauto | exact Hj].
      - intros st e w0 He [Hg Hj].
        split; [apply grows_log; [apply put_of_fetch; exact He | exact Hg] | exact Hj].
      - intros st w0 [Hg _]. apply HGQ, Hg.
      - intros st raw. apply (hoare_failure G); [exact HGQ |].
        apply (hoare_main_body (put_of eff) base (put_of_plain eff)
                 (fun st => 0 < eff - len (batch st))).
        + intros st0 env Hj Hfull. apply Z.leb_le in Hfull.
          assert (Hsnoc : len (batch st0 ++ [env]) = len (batch st0) + 1).
          { unfold len. rewrite length_app. simpl. lia. }
          split.
          * intros _. simpl. unfold len in *.
            rewrite length_entries_of, length_map. lia.
          * intros c _. simpl. unfold len in *. simpl. lia.
        + intros st0 env Hj Hfull. apply Z.leb_gt in Hfull. simpl. lia. }
    intros st w0 [Hg Hshort].
    refine (hoare_remainder base eff {| stream_name := firehose_name cfg |} dry_run st
              (fun c => MsgSummary (fst c) (snd c))
              (fun c => if negb (snd c =? 0) then print MsgSomeFailed else ret tt)
              Hshort _ w0 Hg).
    intros c. destruct (negb _); [| apply hoare_ret; auto].
    apply hoare_print. intros w1. apply batched_print. }
  pose proof (Hmain w (grows_start _ w)) as H.
  destruct (fst (main _ _ _ _ _ _ _ dry_run w)); exact H.
Qed.

End BatchingMain.

(** ** producer.py and openalex_client.py: a run from end to end *)

Section Follow.

Context {P : Platform} {A : Type}.
Variable body : A -> Json -> M World A.
Variable Inv : list Json -> A -> World -> Prop.

Hypothesis Inv_get : forall seen a w r srv, Inv seen a w -> Inv seen a (after_get w r srv).
Hypothesis Inv_sleep : forall seen a w d, Inv seen a w -> Inv seen a (log (EvSleep d) w).
Hypothesis Inv_body : forall seen a x w a' w',
  Inv seen a w -> body a x w = (Ok a', w') ->
  Inv (seen ++ [x]) a' w' /\ w_server w' = w_server w.

Lemma get_inv (r : Request) (w : World) resp w' :
  get r w = (Ok resp, w') ->
  exists srv, session_get (w_server w) r = (inr resp, srv) /\ w' = after_get w r srv.
Proof.
  unfold get. destruct (session_get (w_server w) r) as [[e | resp'] srv];
    intros H; inversion H. exists srv. split; reflexivity.
Qed.

Lemma sleep_inv (d : Q) (w : World) u w' :
  sleep d w = (Ok u, w') ->
  w' = log (EvSleep d) w /\ forall w2, sleep d w2 = (Ok tt, log (EvSleep d) w2).
Proof.
  unfold sleep. destruct (Qnum d <? 0); [discriminate |].
  destruct (Qle_bool d sleep_max); [| discriminate].
  intros H. inversion H. split; reflexivity.
Qed.

Lemma for_each_follow items : forall seen a w a' w',
  for_each body items a w = (Ok a', w') -> Inv seen a w ->
  Inv (seen ++ items) a' w' /\ w_server w' = w_server w.
Proof.
  induction items as [| x items IH]; intros seen a w a' w' Hrun Hinv.
  - inversion Hrun. subst. rewrite app_nil_r. split; [exact Hinv | reflexivity].
  - cbn [for_each] in Hrun. apply bind_inv in Hrun as (a1 & w1 & Hone & Hrest).
    destruct (Inv_body _ _ _ _ _ _ Hinv Hone) as [Hinv1 Hsrv1].
    destruct (IH _ _ _ _ _ Hrest Hinv1) as [Hinv' Hsrv'].
    rewrite <- app_assoc in Hinv'. split; [exact Hinv' | congruence].
Qed.

(** One pass that returns, beside the pass of the collecting loop from a
    world with the same server. *)
Lemma iteration_follow self max_pages pause params page_count seen a w1 w2 n1 w1' :
  iteration self max_pages pause params page_count body a w1 = (Ok n1, w1') ->
  w_server w1 = w_server w2 ->
  Inv seen a w1 ->
  exists items w2',
    iteration self max_pages pause params page_count collect seen w2
    = (Ok match n1 with
          | Break _ => Break (seen ++ items)
          | Again p c _ => Again p c (seen ++ items)
          end, w2')
    /\ next_inv (Inv (seen ++ items)) n1 w1'
    /\ w_server w1' = w_server w2'.
Proof.
  intros Hrun Hsrv Hinv. unfold iteration in Hrun |- *.
  apply bind_inv in Hrun as (resp & wa & Hget & Hrun).
  apply get_inv in Hget as (srv & Hsg & ->).
  rewrite (bind_ok _ _ _ _ _ (get_ok w2 _ resp srv ltac:(rewrite <- Hsrv; exact Hsg))).
  pose proof (Inv_get _ _ _ (request self params) srv Hinv) as Hinv1.
  destruct (status_code resp =? 429).
  - destruct (retry_after resp) as [delay |]; [| discriminate].
    apply bind_inv in Hrun as (u & ws & Hsleep & Hret). inversion Hret. subst n1 w1'.
    apply sleep_inv in Hsleep as [-> Hany]. rewrite (bind_ok _ _ _ _ _ (Hany _)).
    exists [], (log (EvSleep (inject_Z delay)) (after_get w2 (request self params) srv)).
    rewrite app_nil_r. split; [reflexivity |]. split; [| reflexivity].
    apply Inv_sleep, Hinv1.
  - unfold raise_for_status, resp_json in Hrun |- *.
    destruct ((400 <=? status_code resp) && (status_code resp <? 600)); [discriminate |].
    rewrite bind_ret_l in Hrun. rewrite bind_ret_l.
    destruct (json_body resp) as [payload |]; [| discriminate].
    rewrite bind_ret_l in Hrun. rewrite bind_ret_l.
    destruct (page_items payload) as [e | items]; [discriminate |].
    cbn [lift] in Hrun |- *. rewrite bind_ret_l in Hrun. rewrite bind_ret_l.
    apply bind_inv in Hrun as (a' & wb & Hitems & Hrun).
    destruct (for_each_follow _ _ _ _ _ _ Hitems Hinv1) as [Hinv' Hsrv'].
    rewrite (bind_ok _ _ _ _ _ (for_each_collect items seen _)).
    destruct (page_cursor payload) as [e | cursor]; [discriminate |].
    cbn [lift] in Hrun |- *. rewrite bind_ret_l in Hrun. rewrite bind_ret_l.
    exists items.
    destruct (negb (Py.truthy cursor)).
    { inversion Hrun. subst n1 w1'. eexists. split; [reflexivity |].
      split; [exact Hinv' | exact Hsrv']. }
    destruct (cap_reached max_pages (page_count + 1)).
    { inversion Hrun. subst n1 w1'. eexists. split; [reflexivity |].
      split; [exact Hinv' | exact Hsrv']. }
    destruct (Py.q_truthy pause).
    + apply bind_inv in Hrun as (u & ws & Hsleep & Hret). inversion Hret. subst n1 w1'.
      apply sleep_inv in Hsleep as [-> Hany]. rewrite (bind_ok _ _ _ _ _ (Hany _)).
      eexists. split; [reflexivity |]. split; [apply Inv_sleep, Hinv' | exact Hsrv'].
    + rewrite bind_ret_l in Hrun. rewrite bind_ret_l.
      inversion Hrun. subst n1 w1'. eexists. split; [reflexivity |].
      split; [exact Hinv' | exact Hsrv'].
Qed.

(** A run of the loop that returns has drawn exactly the items the
    collecting loop returns from a world with the same server, and the
    invariant has followed them. *)
Lemma works_loop_follow fuel self max_pages pause :
  forall params page_count seen a w1 w2 a' w1',
    works_loop fuel self max_pages pause params page_count body a w1 = (Ok a', w1') ->
    w_server w1 = w_server w2 ->
    Inv seen a w1 ->
    exists items,
      fst (works_loop fuel self max_pages pause params page_count collect seen w2)
      = Ok (seen ++ items)
      /\ Inv (seen ++ items) a' w1'.
Proof.
  induction fuel as [| fuel IH]; intros params page_count seen a w1 w2 a' w1' Hrun Hsrv Hinv;
    [discriminate |].
  cbn [works_loop] in Hrun |- *.
  apply bind_inv in Hrun as (n1 & wa & Hpass & Hrun).
  destruct (iteration_follow _ _ _ _ _ _ _ _ w2 _ _ Hpass Hsrv Hinv)
    as (items & wb & Hpass2 & Hinv1 & Hsrv1).
  rewrite (bind_ok _ _ _ _ _ Hpass2).
  destruct n1 as [a1 | p c a1]; simpl in Hinv1.
  - inversion Hrun. subst. exists items. split; [reflexivity | exact Hinv1].
  - destruct (IH _ _ _ _ _ wb _ _ Hrun Hsrv1 Hinv1) as (more & Hrun2 & Hinv2).
    exists (items ++ more). rewrite app_assoc. split; [exact Hrun2 | exact Hinv2].
Qed.

End Follow.

Section EndToEnd.

Context {P : Platform}.

Lemma validate_inv (cfg : Settings) (w : World) u w' :
  validate cfg w = (Ok u, w') -> w' = w.
Proof.
  unfold validate. repeat (destruct (negb _); [discriminate |]).
  intros H. inversion H. reflexivity.
Qed.

Lemma envelopes_of_snoc (cfg : Settings) (works : list OpenAlexWork)
    (work : OpenAlexWork) : forall t u,
  envelopes_of cfg (works ++ [work]) t u
  = envelopes_of cfg works t u
    ++ [envelope_of cfg work (utcnow (t + length works)) (uuid4 (u + length works))].
Proof.
  induction works as [| x works IH]; intros t u; simpl.
  - rewrite !Nat.add_0_r. reflexivity.
  - rewrite IH. rewrite <- !Nat.add_succ_comm. reflexivity.
Qed.

Lemma len_pending (st : Loop) : len (pending st) = len (batch st).
Proof. unfold pending, len. rewrite length_entries_of, length_map. reflexivity. Qed.

Lemma accounted_fetch cfg base t0 u0 seen st (e : Event) (w : World) :
  is_fetch e = true ->
  accounted cfg base t0 u0 seen st w -> accounted cfg base t0 u0 seen st (log e w).
Proof.
  intros He (works & Hall & Hd & H). exists works. split; [exact Hall |].
  split; [| exact H]. simpl. rewrite delivered_app.
  destruct e; try discriminate; simpl; rewrite app_nil_r; exact Hd.
Qed.

(** The invariant follows one pass of [main]'s loop. *)
Lemma accounted_step cfg sink eff base t0 u0 seen st raw (w : World) st' w' :
  accounted cfg base t0 u0 seen st w ->
  main_body cfg sink false eff st raw w = (Ok st', w') ->
  accounted cfg base t0 u0 (seen ++ [raw]) st' w' /\ w_server w' = w_server w.
Proof.
  intros (works & Hall & Hd & Ht & Hu & Hsent) Hrun.
  apply main_body_step in Hrun as (work & Hvalid & Hd' & Ht' & Hu' & Hsent' & Hsrv).
  split; [| exact Hsrv]. exists (works ++ [work]).
  pose proof (Forall2_length _ _ _ Hall) as Hlen.
  split; [apply Forall2_app; [exact Hall | constructor; [exact Hvalid | constructor]] |].
  split.
  - rewrite Hd', app_assoc, Hd, envelopes_of_snoc, <- Hlen, <- Ht, <- Hu.
    rewrite pending_snoc, <- app_assoc. reflexivity.
  - rewrite Ht', Hu', Ht, Hu, length_app. simpl. split; [lia |]. split; [lia |].
    apply (f_equal len) in Hd'. unfold len in Hd', Hsent' |- *.
    rewrite !length_app in Hd'. fold (len (pending st')) in Hd'.
    pose proof (len_pending st) as Hp. pose proof (len_pending st') as Hp'.
    unfold len in Hp, Hp', Hsent |- *. rewrite length_app. simpl in Hd' |- *. lia.
Qed.

(** X18. A non-dry run of [main] that returns has delivered every record the
    fetcher yields, once and in order: the entries handed to the stream
    during the run are, in fetch order, the lines of the envelopes of the
    yielded records, each carrying its own clock reading and identifier;
    nothing is left in flight; every delivery precedes the summary line; and
    the sent count of the summary is the number of records yielded. *)
Theorem returned_run_delivers_every_record (fuel : nat) (cfg : Settings)
    (per_page : Z) (updated_since : option string) (max_pages arg : option Z)
    (batch_sleep : option Q) (w : World) :
  fst (main fuel cfg per_page updated_since max_pages arg batch_sleep false w) = Ok tt ->
  exists oa raws works failed before,
    OpenAlexClient_init (openalex_base_url cfg) (openalex_email cfg) = inr oa
    /\ fst (works_list fuel oa per_page updated_since max_pages
              (default (sleep_seconds cfg) batch_sleep) None w) = Ok raws
    /\ Forall2 (fun raw work => model_validate raw = inr work) raws works
    /\ w_log (snd (main fuel cfg per_page updated_since max_pages arg batch_sleep
                     false w))
       = before ++ EvPrint (MsgSummary (len raws) failed)
                   :: (if negb (failed =? 0) then [EvPrint MsgSomeFailed] else [])
    /\ delivered before
       = delivered (w_log w)
         ++ entries_of (map model_dump
                          (envelopes_of cfg works (w_ticks w) (w_uuids w))).
Proof.
  intros Hok.
  destruct (main fuel cfg per_page updated_since max_pages arg batch_sleep false w)
    as [r w'] eqn:Hmain.
  cbn [fst snd] in Hok |- *. subst r. unfold main in Hmain.
  apply bind_inv in Hmain as (u & w0 & Hvalid & Hmain).
  apply validate_inv in Hvalid. subst w0.
  destruct ((eff_batch_size_of arg cfg <=? 0) || (500 <? eff_batch_size_of arg cfg));
    [discriminate |].
  apply bind_inv in Hmain as (u1 & w1 & Hprint & Hmain). inversion Hprint. subst u1 w1.
  apply bind_inv in Hmain as (oa & w2 & Hinit & Hmain).
  destruct (OpenAlexClient_init (openalex_base_url cfg) (openalex_email cfg))
    as [e | oa'] eqn:Hclient; [discriminate |].
  inversion Hinit. subst oa' w2.
  apply bind_inv in Hmain as (st & w3 & Hloop & Hmain).
  unfold works_stream in Hloop.
  destruct (works_loop_follow
              (main_body cfg {| stream_name := firehose_name cfg |} false
                 (eff_batch_size_of arg cfg))
              (accounted cfg (delivered (w_log w)) (w_ticks w) (w_uuids w))
              ltac:(intros seen a w4 r srv H;
                    exact (accounted_fetch _ _ _ _ _ _ (EvGet r) (with_server w4 srv)
                             eq_refl H))
              ltac:(intros seen a w4 d H;
                    exact (accounted_fetch _ _ _ _ _ _ (EvSleep d) w4 eq_refl H))
              ltac:(intros seen a x w4 a' w4' Hacc Hrun;
                    exact (accounted_step _ _ _ _ _ _ _ _ _ _ _ _ Hacc Hrun))
              _ _ _ _ _ _ [] _ _ w _ _ Hloop eq_refl)
    as (raws & Hraws & works & Hall & Hd & _ & _ & Hsent).
  { exists []. split; [constructor |]. simpl. rewrite delivered_app. simpl.
    rewrite !app_nil_r, !Nat.add_0_r. repeat split. }
  cbn [app] in Hraws, Hall, Hd, Hsent.
  apply bind_inv in Hmain as (c & w4 & Hrest & Hmain).
  apply bind_inv in Hmain as (u2 & w5 & Hsummary & Hlast). inversion Hsummary.
  subst u2 w5.
  assert (Hflushed : delivered (w_log w4)
                     = delivered (w_log w)
                       ++ entries_of (map model_dump
                                        (envelopes_of cfg works (w_ticks w) (w_uuids w)))
                     /\ fst c = len raws).
  { destruct (batch st) as [| env rest] eqn:Hbatch.
    - inversion Hrest. subst c w4. unfold pending in Hd. rewrite Hbatch in Hd.
      simpl in Hd. rewrite app_nil_r in Hd. split; [exact Hd |].
      simpl. rewrite Hsent. unfold len. simpl. lia.
    - rewrite <- Hbatch in Hrest. apply flush_delivers in Hrest as (Hd' & Hc & _).
      rewrite Hd'. split; [exact Hd | rewrite Hc, Hsent, Hbatch; lia]. }
  destruct Hflushed as [Hd4 Hc]. exists oa, raws, works, (snd c), (w_log w4).
  split; [reflexivity |]. split; [exact Hraws |]. split; [exact Hall |].
  split; [| exact Hd4]. rewrite <- Hc.
  destruct (negb (snd c =? 0)); inversion Hlast; simpl; rewrite <- ?app_assoc; reflexivity.
Qed.

End EndToEnd.

(** ** openalex_client.py: a delay [time.sleep] refuses *)

Section BackoffMore.

Context {P : Platform}.


End BackoffMore.

(** ** sql/apply.py: the order of the scripts *)

Section ApplyMore.

Lemma ascii_compare_lt (a b : ascii) :
  Ascii.compare a b = Lt <-> (N_of_ascii a < N_of_ascii b)%N.
Proof. unfold Ascii.compare. apply N.compare_lt_iff. Qed.

Lemma compare_lt_trans : forall s1 s2 s3,
  String.compare s1 s2 = Lt -> String.compare s2 s3 = Lt -> String.compare s1 s3 = Lt.
Proof.
  induction s1 as [| c1 s1 IH]; intros [| c2 s2] [| c3 s3]; simpl; try congruence.
  destruct (Ascii.compare c1 c2) eqn:H12; try discriminate;
    destruct (Ascii.compare c2 c3) eqn:H23; try discriminate; intros Ha Hb.
  - apply Ascii.compare_eq_iff in H12, H23. subst.
    unfold Ascii.compare. rewrite N.compare_refl. eapply IH; eassumption.
  - apply Ascii.compare_eq_iff in H12. subst. rewrite H23. reflexivity.
  - apply Ascii.compare_eq_iff in H23. subst. rewrite H12. reflexivity.
  - apply ascii_compare_lt in H12. apply ascii_compare_lt in H23.
    assert (H13 : Ascii.compare c1 c3 = Lt).
    { apply ascii_compare_lt. eapply N.lt_trans; eassumption. }
    rewrite H13. reflexivity.
Qed.

Lemma compare_refl (s : string) : String.compare s s = Eq.
Proof.
  induction s as [| c s IH]; simpl; [reflexivity |].
  unfold Ascii.compare. rewrite N.compare_refl. exact IH.
Qed.

Lemma leb_trans (s1 s2 s3 : string) :
  String.leb s1 s2 = true -> String.leb s2 s3 = true -> String.leb s1 s3 = true.
Proof.
  unfold String.leb.
  destruct (String.compare s1 s2) eqn:H12; try discriminate;
    destruct (String.compare s2 s3) eqn:H23; try discriminate; intros _ _.
  - apply String.compare_eq_iff in H12, H23. subst. rewrite compare_refl. reflexivity.
  - apply String.compare_eq_iff in H12. subst. rewrite H23. reflexivity.
  - apply String.compare_eq_iff in H23. subst. rewrite H12. reflexivity.
  - rewrite (compare_lt_trans _ _ _ H12 H23). reflexivity.
Qed.

Lemma ltb_leb (s1 s2 : string) : String.ltb s1 s2 = true -> String.leb s1 s2 = true.
Proof. unfold String.ltb, String.leb. destruct (String.compare s1 s2); congruence. Qed.

Lemma not_ltb_leb (s1 s2 : string) : String.ltb s1 s2 = false -> String.leb s2 s1 = true.
Proof.
  unfold String.ltb, String.leb. rewrite (String.compare_antisym s2 s1).
  destruct (String.compare s1 s2); simpl; congruence.
Qed.

Lemma key_lt_le (k1 k2 : Z * string) : Apply.key_lt k1 k2 = true -> Apply.key_le k1 k2.
Proof.
  unfold Apply.key_lt, Apply.key_le. destruct (fst k1 =? fst k2) eqn:Heq.
  - apply Z.eqb_eq in Heq. intros H. right. split; [exact Heq | apply ltb_leb, H].
  - intros H. left. apply Z.ltb_lt, H.
Qed.

Lemma not_key_lt_le (k1 k2 : Z * string) : Apply.key_lt k1 k2 = false -> Apply.key_le k2 k1.
Proof.
  unfold Apply.key_lt, Apply.key_le. destruct (fst k1 =? fst k2) eqn:Heq.
  - apply Z.eqb_eq in Heq. intros H. right. split; [symmetry; exact Heq | apply not_ltb_leb, H].
  - apply Z.eqb_neq in Heq. intros H. apply Z.ltb_ge in H. left. lia.
Qed.

Lemma key_le_trans (k1 k2 k3 : Z * string) : Apply.key_le k1 k2 -> Apply.key_le k2 k3 -> Apply.key_le k1 k3.
Proof.
  unfold Apply.key_le. intros [H12 | [E12 L12]] [H23 | [E23 L23]].
  - left. lia.
  - left. lia.
  - left. lia.
  - right. split; [lia | eapply leb_trans; eassumption].
Qed.

Context {Path : Type}.
Variables (name suffix : Path -> string).

Abbreviation R := (fun a b : (Z * string) * Path => Apply.key_le (fst a) (fst b)).

Lemma insert_perm (x : (Z * string) * Path) (l : list ((Z * string) * Path)) :
  Permutation (Apply.insert Path x l) (x :: l).
Proof.
  induction l as [| y r IH]; simpl; [reflexivity |].
  destruct (Apply.key_lt (fst x) (fst y)); [reflexivity |].
  rewrite IH. apply perm_swap.
Qed.

Lemma insert_sorted (x : (Z * string) * Path) (l : list ((Z * string) * Path)) :
  StronglySorted R l -> StronglySorted R (Apply.insert Path x l).
Proof.
  induction l as [| y r IH]; simpl; intros Hs.
  - constructor; [constructor | constructor].
  - apply StronglySorted_inv in Hs as [Hr Hy].
    destruct (Apply.key_lt (fst x) (fst y)) eqn:Hlt.
    + apply key_lt_le in Hlt. constructor.
      * constructor; assumption.
      * constructor; [exact Hlt |].
        eapply Forall_impl; [exact Hy |]. intros z Hz. simpl in *.
        eapply key_le_trans; eassumption.
    + apply not_key_lt_le in Hlt. constructor; [apply IH, Hr |].
      rewrite insert_perm. constructor; assumption.
Qed.

Lemma sorted_spec (l : list ((Z * string) * Path)) : forall acc,
  StronglySorted R acc ->
  StronglySorted R (fold_left (fun acc x => Apply.insert Path x acc) l acc)
  /\ Permutation (fold_left (fun acc x => Apply.insert Path x acc) l acc) (acc ++ l).
Proof.
  induction l as [| x l IH]; intros acc Hacc; simpl.
  - rewrite app_nil_r. split; [exact Hacc | reflexivity].
  - destruct (IH (Apply.insert Path x acc) (insert_sorted x acc Hacc)) as [Hs Hp].
    split; [exact Hs |]. rewrite Hp, insert_perm. apply Permutation_middle.
Qed.

Lemma key_spec (p : Path) (k : Z * string) :
  Apply.key Path name p = inr k -> k = (Apply.sort_number Path name p, name p).
Proof.
  unfold Apply.key, Apply.sort_number.
  destruct (Apply.leading_digits (name p)) as [| c ds]; [congruence |].
  destruct (Py.int (String c ds)); simpl; congruence.
Qed.

Lemma keyed_spec (files : list Path) : forall ks,
  Apply.keyed Path name files = inr ks ->
  map snd ks = files
  /\ Forall (fun kf => fst kf = (Apply.sort_number Path name (snd kf), name (snd kf))) ks.
Proof.
  induction files as [| f files IH]; simpl; intros ks H.
  - inversion H. split; [reflexivity | constructor].
  - destruct (Apply.key Path name f) as [e | k] eqn:Hk; [discriminate |].
    destruct (Apply.keyed Path name files) as [e | ks'] eqn:Hks; [discriminate |].
    inversion H. subst ks. destruct (IH ks' eq_refl) as [Hmap Hall].
    split; [simpl; rewrite Hmap; reflexivity |].
    constructor; [apply key_spec, Hk | exact Hall].
Qed.

Lemma sorted_before (l : list ((Z * string) * Path)) :
  Forall (fun kf => fst kf = (Apply.sort_number Path name (snd kf), name (snd kf))) l ->
  StronglySorted R l ->
  StronglySorted (Apply.before Path name) (map snd l).
Proof.
  intros Hall Hs. induction Hs as [| a l Hs IH Ha]; simpl; [constructor |].
  apply Forall_cons_1 in Hall as [Hka Hall]. constructor; [apply IH, Hall |].
  rewrite List.Forall_forall in Ha, Hall |- *. intros q Hq.
  apply in_map_iff in Hq as (b & <- & Hb).
  pose proof (Ha b Hb) as Hab. pose proof (Hall b Hb) as Hkb.
  simpl in Hab. rewrite Hka, Hkb in Hab. exact Hab.
Qed.

Lemma digit_plain (c : ascii) :
  Py.digit c <> None ->
  Py.is_space c = false /\ Ascii.eqb c "-"%char = false /\ Ascii.eqb c "+"%char = false
  /\ Ascii.eqb c "_"%char = false /\ exists d, Py.digit c = Some d.
Proof.
  intros Hd.
  assert (Hrange : 48 <= Str.code c <= 57).
  { unfold Py.digit in Hd.
    destruct ((48 <=? Str.code c) && (Str.code c <=? 57)) eqn:Hr; [| congruence].
    apply andb_true_iff in Hr as [H1 H2]. apply Z.leb_le in H1. apply Z.leb_le in H2.
    lia. }
  split.
  { unfold Py.is_space. cbv zeta.
    repeat (apply orb_false_iff; split); try (apply Z.eqb_neq; lia).
    apply andb_false_iff. right. apply Z.leb_gt. lia. }
  assert (Hne : forall x, ~ 48 <= Str.code x <= 57 -> Ascii.eqb c x = false).
  { intros x Hx. destruct (Ascii.eqb_spec c x); [subst; contradiction | reflexivity]. }
  split; [apply Hne; vm_compute; intros [H1 H2]; auto |].
  split; [apply Hne; vm_compute; intros [H1 H2]; auto |].
  split; [apply Hne; vm_compute; intros [H1 H2]; auto |].
  destruct (Py.digit c); [eauto | congruence].
Qed.

Lemma lstrip_plain (l : list ascii) :
  Forall (fun c => Py.digit c <> None) l -> Py.lstrip l = l.
Proof.
  destruct 1 as [| c r Hc Hr]; simpl; [reflexivity |].
  destruct (digit_plain c Hc) as (-> & _). reflexivity.
Qed.

Lemma strip_plain (l : list ascii) :
  Forall (fun c => Py.digit c <> None) l -> Py.strip l = l.
Proof.
  intros Hl. unfold Py.strip. rewrite (lstrip_plain l Hl).
  rewrite lstrip_plain; [apply rev_involutive |]. apply Forall_rev, Hl.
Qed.

Lemma digits_plain (l : list ascii) : forall acc count b,
  Forall (fun c => Py.digit c <> None) l ->
  l <> [] \/ b = true ->
  exists v, Py.digits l acc count b = Some (v, (count + length l)%nat).
Proof.
  induction l as [| c r IH]; intros acc count b Hl Hne; simpl.
  - destruct Hne as [Hne | ->]; [congruence |]. rewrite Nat.add_0_r. eauto.
  - apply Forall_cons_1 in Hl as [Hc Hr].
    destruct (digit_plain c Hc) as (_ & _ & _ & -> & d & ->).
    destruct (IH (10 * acc + d) (S count) true Hr (or_intror eq_refl)) as [v Hv].
    exists v. rewrite Hv. f_equal. f_equal. lia.
Qed.

Lemma leading_digits_plain (s : string) :
  Forall (fun c => Py.digit c <> None) (Str.chars (Apply.leading_digits s)).
Proof.
  induction s as [| c s IH]; simpl; [constructor |].
  destruct (Py.digit c) eqn:Hc; [| constructor].
  unfold Str.chars in *. simpl. constructor; [congruence | exact IH].
Qed.

Lemma length_chars (s : string) : length (Str.chars s) = String.length s.
Proof. induction s as [| c s IH]; simpl; [reflexivity |]. unfold Str.chars in *. simpl. lia. Qed.

Lemma int_leading_digits (s : string) :
  Apply.leading_digits s <> "" ->
  (String.length (Apply.leading_digits s) <= Py.max_str_digits)%nat ->
  exists n, Py.int (Apply.leading_digits s) = Some n.
Proof.
  intros Hne Hlen. pose proof (leading_digits_plain s) as Hall.
  unfold Py.int. rewrite (strip_plain _ Hall).
  destruct (Str.chars (Apply.leading_digits s)) as [| c r] eqn:Hchars.
  { destruct (Apply.leading_digits s); [congruence | discriminate]. }
  pose proof Hall as Hall'. apply Forall_cons_1 in Hall' as [Hc _].
  destruct (digit_plain c Hc) as (_ & -> & -> & _).
  unfold Py.unsigned.
  assert (Hcons : c :: r <> [] \/ false = true) by (left; discriminate).
  destruct (digits_plain (c :: r) 0 O false Hall Hcons) as [v Hv].
  rewrite Hv. rewrite <- Hchars, length_chars. cbn [Nat.add].
  apply Nat.leb_le in Hlen. rewrite Hlen. eauto.
Qed.

Lemma keyed_total (files : list Path) :
  (forall f, In f files ->
             (String.length (Apply.leading_digits (name f)) <= Py.max_str_digits)%nat) ->
  exists ks, Apply.keyed Path name files = inr ks.
Proof.
  induction files as [| f files IH]; intros Hlen; simpl; [eauto |].
  assert (Hk : exists k, Apply.key Path name f = inr k).
  { unfold Apply.key.
    destruct (Apply.leading_digits (name f)) as [| c ds] eqn:Hds; [eauto |].
    destruct (int_leading_digits (name f)) as [n Hn].
    - rewrite Hds. discriminate.
    - apply Hlen. left. reflexivity.
    - rewrite Hds in Hn. rewrite Hn. eauto. }
  destruct Hk as [k ->].
  destruct IH as [ks ->]; [intros g Hg; apply Hlen; right; exact Hg |]. eauto.
Qed.

(** X20. [_natural_sql_order] keeps exactly the files whose suffix is .sql
    in any letter case, none lost and none twice, and returns them in
    ascending order of their numeric prefix, read as a number: a file without
    one stands at 1000000, and equal numbers are ordered by name. It raises
    only when a prefix has more digits than [int] takes. *)
Theorem natural_sql_order_sorts (files : list Path) :
  (forall f, In f files -> Apply.is_sql Path suffix f = true ->
             (String.length (Apply.leading_digits (name f)) <= Py.max_str_digits)%nat) ->
  exists out,
    Apply._natural_sql_order Path name suffix files = inr out
    /\ Permutation out (List.filter (Apply.is_sql Path suffix) files)
    /\ StronglySorted (Apply.before Path name) out.
Proof.
  intros Hlen. unfold Apply._natural_sql_order.
  destruct (keyed_total (List.filter (Apply.is_sql Path suffix) files)) as [ks Hks].
  { intros f Hf. apply filter_In in Hf as [Hin Hsql]. apply Hlen; assumption. }
  rewrite Hks. destruct (keyed_spec _ _ Hks) as [Hmap Hall].
  destruct (sorted_spec ks [] (SSorted_nil _)) as [Hs Hp]. simpl in Hp.
  fold (Apply.sorted Path ks) in Hs, Hp.
  exists (map snd (Apply.sorted Path ks)). split; [reflexivity |]. split.
  - rewrite Hp. rewrite Hmap. reflexivity.
  - apply sorted_before; [| exact Hs]. rewrite Hp. exact Hall.
Qed.

End ApplyMore.

(** ** app/home.py: the choice of an option *)

Section HomeMore.

Lemma contains_In (x : string) (options : list string) :
  Home.contains x options = true <-> In x options.
Proof.
  unfold Home.contains. rewrite existsb_exists. split.
  - intros (y & Hy & Heq). apply String.eqb_eq in Heq. subst. exact Hy.
  - intros Hx. exists x. split; [exact Hx | apply String.eqb_refl].
Qed.

Lemma index_spec (x : string) (options : list string) :
  In x options ->
  (Home.index x options < length options)%nat
  /\ nth_error options (Home.index x options) = Some x
  /\ forall j, (j < Home.index x options)%nat -> nth_error options j <> Some x.
Proof.
  induction options as [| o rest IH]; simpl; [contradiction |].
  intros Hin. destruct (String.eqb_spec o x) as [-> | Hne].
  - split; [lia |]. split; [reflexivity |]. intros j Hj. lia.
  - destruct Hin as [Heq | Hin]; [congruence |].
    destruct (IH Hin) as (Hlt & Hnth & Hfirst).
    split; [lia |]. split; [exact Hnth |].
    intros [| j] Hj; simpl; [congruence | apply Hfirst; lia].
Qed.

(** X21. [pick] always answers with one of the options when there is any:
    the default when it is a non-empty string among them, the first option
    otherwise; without options it answers with the default as it is. *)
Theorem pick_is_an_option (options : list string) (default : option string) :
  (options = [] -> Home.pick options default = default)
  /\ (options <> [] -> exists o, Home.pick options default = Some o /\ In o options)
  /\ (forall d, default = Some d -> d <> "" -> In d options ->
                Home.pick options default = Some d)
  /\ ((forall d, default = Some d -> d = "" \/ ~ In d options) ->
      options <> [] -> Home.pick options default = head options).
Proof.
  split; [intros ->; reflexivity |]. split; [| split].
  - destruct options as [| first rest]; [congruence |]. intros _. cbn [Home.pick].
    destruct default as [d |]; [| exists first; split; [reflexivity | left; reflexivity]].
    destruct (Str.truthy d && Home.contains d (first :: rest)) eqn:Hd.
    + apply andb_true_iff in Hd as [_ Hin]. apply contains_In in Hin.
      exists d. split; [reflexivity | exact Hin].
    + exists first. split; [reflexivity | left; reflexivity].
  - intros d -> Hne Hin. destruct options as [| first rest]; [contradiction |].
    cbn [Home.pick]. apply contains_In in Hin. rewrite Hin.
    destruct d; [congruence |]. reflexivity.
  - intros Hnot Hne. destruct options as [| first rest]; [congruence |].
    cbn [Home.pick head]. destruct default as [d |]; [| reflexivity].
    destruct (Str.truthy d && Home.contains d (first :: rest)) eqn:Hd; [| reflexivity].
    apply andb_true_iff in Hd as [Ht Hin]. apply contains_In in Hin.
    destruct (Hnot d eq_refl) as [-> | Hout]; [discriminate | contradiction].
Qed.

(** X22. [selectbox_with_default] never hands an index out of range to the
    select box: the options are never empty (a lone empty entry stands for
    none), the index is that of the first occurrence of the default when the
    default is among the options, and 0 otherwise. *)
Theorem selectbox_index_is_valid (options : list string) (default : option string) :
  fst (Home.selectbox_with_default options default) <> []
  /\ (options <> [] -> fst (Home.selectbox_with_default options default) = options)
  /\ (snd (Home.selectbox_with_default options default)
      < length (fst (Home.selectbox_with_default options default)))%nat
  /\ (forall d, default = Some d ->
                In d (fst (Home.selectbox_with_default options default)) ->
                nth_error (fst (Home.selectbox_with_default options default))
                  (snd (Home.selectbox_with_default options default)) = Some d
                /\ forall j, (j < snd (Home.selectbox_with_default options default))%nat ->
                             nth_error (fst (Home.selectbox_with_default options default)) j
                             <> Some d)
  /\ ((forall d, default = Some d ->
                 ~ In d (fst (Home.selectbox_with_default options default))) ->
      snd (Home.selectbox_with_default options default) = O).
Proof.
  unfold Home.selectbox_with_default. cbn [fst snd].
  set (opts := match options with [] => [""] | _ => options end).
  assert (Hne : opts <> []) by (subst opts; destruct options; discriminate).
  split; [exact Hne |].
  split; [intros H; subst opts; destruct options; [congruence | reflexivity] |].
  split; [| split].
  - destruct default as [d |]; [| destruct opts; [congruence | simpl; lia]].
    destruct (Home.contains d opts) eqn:Hd; [| destruct opts; [congruence | simpl; lia]].
    apply contains_In in Hd. apply (index_spec d opts Hd).
  - intros d -> Hin. pose proof Hin as Hc. apply contains_In in Hc. rewrite Hc.
    destruct (index_spec d opts Hin) as (_ & Hnth & Hfirst). split; assumption.
  - intros Hout. destruct default as [d |]; [| reflexivity].
    destruct (Home.contains d opts) eqn:Hd; [| reflexivity].
    apply contains_In in Hd. destruct (Hout d eq_refl Hd).
Qed.

End HomeMore.

(** ** sql/apply.py: the run of the scripts *)

Section RunnerMore.

Context {H : Apply.Host}.

(** What the loop over the scripts does. *)
Lemma run_files_spec (continue_on_error : bool) (files : list Apply.Path) :
  forall conn,
  exists done rest,
    files = done ++ rest
    /\ Apply.executed (snd (Apply.run_files continue_on_error conn files)) = done
    /\ forallb (fun s => negb (Apply.is_connect s) && negb (Apply.is_close s))
         (snd (Apply.run_files continue_on_error conn files)) = true
    /\ (if fst (fst (Apply.run_files continue_on_error conn files))
        then continue_on_error = false
             /\ exists p, last done = Some p
                          /\ Apply.failures (snd (Apply.run_files continue_on_error conn
                                                    files))
                             = [Apply.path_name p]
        else rest = []
             /\ (continue_on_error = false ->
                 Apply.failures (snd (Apply.run_files continue_on_error conn files)) = [])).
Proof.
  induction files as [| path files IH]; intros conn; cbn [Apply.run_files].
  - exists [], []. simpl. auto.
  - destruct (Apply.execute_sql_file conn path) as [[e |] conn'].
    + destruct continue_on_error.
      * destruct (IH conn') as (done & rest & Hfiles & Hdone & Hsteps & Hend).
        destruct (Apply.run_files true conn' files) as [[returned conn''] steps].
        cbn [fst snd] in *. exists (path :: done), rest.
        split; [rewrite Hfiles; reflexivity |].
        split; [simpl; rewrite Hdone; reflexivity |].
        split; [simpl; exact Hsteps |].
        destruct returned; [destruct Hend as [Hc _]; discriminate |].
        destruct Hend as [Hrest _]. split; [exact Hrest | discriminate].
      * exists [path], files. cbn [fst snd]. split; [reflexivity |].
        split; [reflexivity |]. split; [reflexivity |].
        split; [reflexivity |]. exists path. split; reflexivity.
    + destruct (IH conn') as (done & rest & Hfiles & Hdone & Hsteps & Hend).
      destruct (Apply.run_files continue_on_error conn' files) as [[returned conn''] steps].
      cbn [fst snd] in *. exists (path :: done), rest.
      split; [rewrite Hfiles; reflexivity |].
      split; [simpl; rewrite Hdone; reflexivity |].
      split; [simpl; exact Hsteps |].
      destruct returned.
      * destruct Hend as (Hc & p & Hlast & Hfail). split; [exact Hc |].
        exists p. split; [| exact Hfail].
        destruct done as [| d done']; [discriminate | exact Hlast].
      * exact Hend.
Qed.

Lemma shown_is_log (files : list Apply.Path) :
  forallb Apply.is_log
    (Apply.SLog false (Apply.NoteOrder (len files))
     :: map (fun f => Apply.SLog false (Apply.NoteFile (Apply.path_name f))) files) = true.
Proof. simpl. induction files as [| f files IH]; [reflexivity | exact IH]. Qed.

Lemma executed_app (l1 l2 : list Apply.Step) :
  Apply.executed (l1 ++ l2) = Apply.executed l1 ++ Apply.executed l2.
Proof. apply flat_map_app. Qed.

Lemma failures_app (l1 l2 : list Apply.Step) :
  Apply.failures (l1 ++ l2) = Apply.failures l1 ++ Apply.failures l2.
Proof. apply flat_map_app. Qed.

Lemma log_quiet (l : list Apply.Step) :
  forallb Apply.is_log l = true -> Apply.executed l = [].
Proof.
  induction l as [| s l IH]; [reflexivity |]. simpl. intros Hl.
  apply andb_true_iff in Hl as [Hs Hl]. destruct s; try discriminate. exact (IH Hl).
Qed.

Lemma shown_no_failures (files : list Apply.Path) :
  Apply.failures
    (Apply.SLog false (Apply.NoteOrder (len files))
     :: map (fun f => Apply.SLog false (Apply.NoteFile (Apply.path_name f))) files) = [].
Proof. simpl. induction files as [| f files IH]; [reflexivity | exact IH]. Qed.

(** X24. A dry run never touches the database: it opens no connection,
    executes no script and closes nothing; all it does is log, and its exit
    code is never 4 or 5. *)
Theorem dry_run_touches_nothing (args : Apply.Args) :
  Apply.arg_dry_run args = true ->
  forallb Apply.is_log (snd (Apply.main args)) = true
  /\ fst (Apply.main args) <> inr 4
  /\ fst (Apply.main args) <> inr 5.
Proof.
  intros Hdry. unfold Apply.main. rewrite Hdry.
  destruct (negb _ || negb _); [repeat split; discriminate |].
  destruct (Apply._resolve_files _ _) as [e | files]; [repeat split; discriminate |].
  destruct (map Apply.resolve (List.filter Apply.path_exists files)) as [| f rest];
    [repeat split; discriminate |].
  cbn [fst snd]. split; [apply shown_is_log |]. split; discriminate.
Qed.

(** X25. The connection is closed exactly once whenever it was opened,
    after the last script and before the closing line, also when the run
    stops at a failing script; nothing is executed outside the connection;
    and a run that fails to connect, or never tries, closes nothing. *)
Theorem connection_is_closed_once (args : Apply.Args) :
  exists before body after,
    snd (Apply.main args) = before ++ body ++ after
    /\ forallb Apply.is_log before = true
    /\ forallb Apply.is_log after = true
    /\ (body = []
        \/ (body = [Apply.SConnect] /\ exists e, Apply.connect_from_env = inl e)
        \/ (exists scripts,
              body = Apply.SConnect :: scripts ++ [Apply.SClose]
              /\ forallb (fun s => negb (Apply.is_connect s) && negb (Apply.is_close s))
                   scripts = true
              /\ exists conn, Apply.connect_from_env = inr conn)).
Proof.
  unfold Apply.main.
  destruct (negb _ || negb _).
  { eexists _, [], []. cbn [snd]. split; [symmetry; apply app_nil_r |].
    repeat split. left. reflexivity. }
  destruct (Apply._resolve_files _ _) as [e | files].
  { exists [], [], []. repeat split. left. reflexivity. }
  destruct (map Apply.resolve (List.filter Apply.path_exists files)) as [| f rest].
  { eexists _, [], []. cbn [snd]. split; [symmetry; apply app_nil_r |].
    repeat split. left. reflexivity. }
  set (todo := f :: rest).
  set (shown := Apply.SLog false (Apply.NoteOrder (len todo))
                :: map (fun f => Apply.SLog false (Apply.NoteFile (Apply.path_name f))) todo).
  assert (Hshown : forallb Apply.is_log shown = true) by apply shown_is_log.
  destruct (Apply.arg_dry_run args).
  { exists shown, [], []. cbn [snd]. split; [symmetry; apply app_nil_r |].
    split; [exact Hshown |]. split; [reflexivity |]. left. reflexivity. }
  destruct Apply.connect_from_env as [e | conn] eqn:Hconn.
  { exists shown, [Apply.SConnect], [Apply.SLog true (Apply.NoteConnectFailed e)].
    cbn [snd]. split; [reflexivity |]. split; [exact Hshown |]. split; [reflexivity |].
    right. left. split; [reflexivity | eauto]. }
  destruct (run_files_spec (Apply.arg_continue_on_error args) todo conn)
    as (done & rest' & _ & _ & Hscripts & _).
  destruct (Apply.run_files (Apply.arg_continue_on_error args) conn todo)
    as [[returned conn'] steps].
  cbn [snd] in Hscripts. destruct returned; cbn [snd].
  - exists shown, (Apply.SConnect :: steps ++ [Apply.SClose]), [].
    split; [rewrite app_nil_r; reflexivity |]. split; [exact Hshown |].
    split; [reflexivity |]. right. right. exists steps. eauto.
  - exists shown, (Apply.SConnect :: steps ++ [Apply.SClose]),
      [Apply.SLog false Apply.NoteAllDone].
    split; [rewrite <- app_assoc; reflexivity |]. split; [exact Hshown |].
    split; [reflexivity |]. right. right. exists steps. eauto.
Qed.

Lemma main_at_database (args : Apply.Args) :
  Apply.reaches_database args ->
  exists conn shown,
    Apply.connect_from_env = inr conn
    /\ forallb Apply.is_log shown = true
    /\ Apply.failures shown = []
    /\ Apply.main args
       = (if fst (fst (Apply.run_files (Apply.arg_continue_on_error args) conn
                         (Apply.planned args)))
          then (inr 5,
                shown ++ Apply.SConnect
                  :: snd (Apply.run_files (Apply.arg_continue_on_error args) conn
                            (Apply.planned args)) ++ [Apply.SClose])
          else (inr 0,
                (shown ++ Apply.SConnect
                   :: snd (Apply.run_files (Apply.arg_continue_on_error args) conn
                             (Apply.planned args)) ++ [Apply.SClose])
                ++ [Apply.SLog false Apply.NoteAllDone])).
Proof.
  intros (Hexists & Hdir & Hplan & Hdry & conn & Hconn).
  unfold Apply.main, Apply.planned in *. rewrite Hexists, Hdir, Hdry, Hconn. cbn [negb orb].
  destruct (Apply._resolve_files _ _) as [e | files]; [congruence |].
  destruct (map Apply.resolve (List.filter Apply.path_exists files)) as [| f rest] eqn:Hfiles;
    [congruence |].
  exists conn. eexists. split; [reflexivity |].
  split; [apply (shown_is_log (f :: rest)) |]. split; [apply (shown_no_failures (f :: rest)) |].
  destruct (Apply.run_files (Apply.arg_continue_on_error args) conn (f :: rest))
    as [[returned conn'] steps].
  cbn [fst snd]. destruct returned; reflexivity.
Qed.

(** X26. With --continue-on-error a run that reaches the database executes
    every planned script, in order, whether or not some of them fail, and
    exits with code 0 all the same. *)
Theorem continue_on_error_runs_everything (args : Apply.Args) :
  Apply.reaches_database args ->
  Apply.arg_continue_on_error args = true ->
  fst (Apply.main args) = inr 0
  /\ Apply.executed (snd (Apply.main args)) = Apply.planned args
  /\ last (snd (Apply.main args)) = Some (Apply.SLog false Apply.NoteAllDone).
Proof.
  intros Hreach Hcontinue.
  destruct (main_at_database args Hreach) as (conn & shown & _ & Hshown & _ & Hmain).
  rewrite Hmain, Hcontinue.
  destruct (run_files_spec true (Apply.planned args) conn)
    as (done & rest & Hfiles & Hdone & _ & Hend).
  destruct (Apply.run_files true conn (Apply.planned args)) as [[returned conn'] steps].
  cbn [fst snd] in *. destruct returned; [destruct Hend as [Hc _]; discriminate |].
  destruct Hend as [-> _]. rewrite app_nil_r in Hfiles. cbn [fst snd].
  split; [reflexivity |]. split.
  - rewrite !executed_app, (log_quiet shown Hshown). simpl.
    rewrite executed_app, Hdone. simpl. rewrite !app_nil_r. symmetry. exact Hfiles.
  - apply last_snoc.
Qed.

Lemma executed_scripts (files : list Apply.Path) :
  Apply.executed (map Apply.SExecute files) = files.
Proof. induction files as [| f files IH]; [reflexivity |]. simpl. rewrite IH. reflexivity. Qed.

Lemma failures_scripts (files : list Apply.Path) :
  Apply.failures (map Apply.SExecute files) = [].
Proof. induction files as [| f files IH]; [reflexivity | exact IH]. Qed.

(** The loop over scripts that all succeed. *)
Lemma run_files_all (continue_on_error : bool) conn files conn' :
  Apply.all_succeed conn files conn' ->
  Apply.run_files continue_on_error conn files = (false, conn', map Apply.SExecute files).
Proof.
  induction 1 as [conn | conn path conn1 rest conn2 Hpath Hrest IH]; [reflexivity |].
  cbn [Apply.run_files]. rewrite Hpath, IH. reflexivity.
Qed.

(** The loop, in stopping mode, over scripts the first failing one of which
    is [path]. *)
Lemma run_files_stops conn done path rest conn1 e conn2 :
  Apply.all_succeed conn done conn1 ->
  Apply.execute_sql_file conn1 path = (Some e, conn2) ->
  Apply.run_files false conn (done ++ path :: rest)
  = (true, conn2,
     map Apply.SExecute done
     ++ [Apply.SExecute path;
         Apply.SLog true (Apply.NoteScriptFailed (Apply.path_name path) e)]).
Proof.
  intros Hdone Hpath.
  induction Hdone as [conn | conn p conn' more conn'' Hp Hmore IH].
  - cbn [app Apply.run_files map]. rewrite Hpath. reflexivity.
  - cbn [app Apply.run_files map]. rewrite Hp, (IH Hpath). reflexivity.
Qed.

(** X27. Without --continue-on-error a run that reaches the database stops
    at the first script that fails. When the planned scripts before some
    script all succeed and [execute_sql_file] raises on that script, the
    scripts executed are exactly those up to and including it, in order, the
    scripts after it are not touched, that one failure is reported with its
    exception and the exit code is 5. When [execute_sql_file] raises on no
    planned script, every planned script is executed, no failure is reported
    and the exit code is 0. *)
Theorem first_failure_stops_the_run (args : Apply.Args) (conn : Apply.connection) :
  Apply.reaches_database args ->
  Apply.arg_continue_on_error args = false ->
  Apply.connect_from_env = inr conn ->
  (forall done path rest conn1 e conn2,
      Apply.planned args = done ++ path :: rest ->
      Apply.all_succeed conn done conn1 ->
      Apply.execute_sql_file conn1 path = (Some e, conn2) ->
      fst (Apply.main args) = inr 5
      /\ Apply.executed (snd (Apply.main args)) = done ++ [path]
      /\ Apply.failures (snd (Apply.main args)) = [Apply.path_name path]
      /\ In (Apply.SLog true (Apply.NoteScriptFailed (Apply.path_name path) e))
           (snd (Apply.main args))
      /\ last (snd (Apply.main args)) = Some Apply.SClose)
  /\ (forall conn1,
        Apply.all_succeed conn (Apply.planned args) conn1 ->
        fst (Apply.main args) = inr 0
        /\ Apply.executed (snd (Apply.main args)) = Apply.planned args
        /\ Apply.failures (snd (Apply.main args)) = []).
Proof.
  intros Hreach Hstop Hconn.
  destruct (main_at_database args Hreach) as (conn' & shown & Hconn' & Hshown & Hquiet & Hmain).
  rewrite Hconn in Hconn'. inversion Hconn'. subst conn'.
  rewrite Hmain, Hstop. split.
  - intros done path rest conn1 e conn2 Hplan Hdone Hpath.
    rewrite Hplan, (run_files_stops conn done path rest conn1 e conn2 Hdone Hpath).
    cbn [fst snd]. split; [reflexivity |]. split; [| split; [| split]].
    + rewrite executed_app, (log_quiet shown Hshown). cbn [app Apply.executed flat_map].
      rewrite <- app_assoc. fold (Apply.executed (map Apply.SExecute done
        ++ [Apply.SExecute path;
            Apply.SLog true (Apply.NoteScriptFailed (Apply.path_name path) e)]
        ++ [Apply.SClose])).
      rewrite executed_app, executed_scripts. reflexivity.
    + rewrite failures_app, Hquiet. cbn [app Apply.failures flat_map].
      rewrite <- app_assoc. fold (Apply.failures (map Apply.SExecute done
        ++ [Apply.SExecute path;
            Apply.SLog true (Apply.NoteScriptFailed (Apply.path_name path) e)]
        ++ [Apply.SClose])).
      rewrite failures_app, failures_scripts. reflexivity.
    + apply in_or_app. right. right. apply in_or_app. left.
      apply in_or_app. right. right. left. reflexivity.
    + rewrite app_comm_cons, app_assoc. apply last_snoc.
  - intros conn1 Hall. rewrite (run_files_all false conn _ conn1 Hall). cbn [fst snd].
    split; [reflexivity |]. split.
    + rewrite !executed_app, (log_quiet shown Hshown). cbn [app Apply.executed flat_map].
      fold (Apply.executed (map Apply.SExecute (Apply.planned args) ++ [Apply.SClose])).
      rewrite executed_app, executed_scripts. simpl. rewrite !app_nil_r. reflexivity.
    + rewrite !failures_app, Hquiet. cbn [app Apply.failures flat_map].
      fold (Apply.failures (map Apply.SExecute (Apply.planned args) ++ [Apply.SClose])).
      rewrite failures_app, failures_scripts. reflexivity.
Qed.

End RunnerMore.

(** ** The further properties on the test doubles *)

Section MoreScenarios.

#[local] Existing Instance Fake.platform.

(** X1 at a server error. *)
Lemma fatal_status_aborts_example :
  fst (works_loop 1 Fake.client None 0 (initial_params Fake.client 2 None None) 0
         collect []
         (Fake.world [{| status_code := 500; headers := ∅; json_body := None |};
                      Fake.page2] []))
  = Raised (HTTPError 500).
Proof.
  rewrite (fatal_status_aborts (A := list Json) 0 Fake.client None 0
             (initial_params Fake.client 2 None None) 0 collect []
             (Fake.world [{| status_code := 500; headers := ∅; json_body := None |};
                          Fake.page2] [])
             {| status_code := 500; headers := ∅; json_body := None |} [Fake.page2]).
  - reflexivity.
  - reflexivity.
  - simpl. lia.
  - simpl. lia.
Defined.

(** X2 at an empty JSON object. *)
Lemma page_without_keys_ends_example :
  fst (works_loop 1 Fake.client None 0 (initial_params Fake.client 2 None None) 0
         collect [JNum 7]
         (Fake.world [{| status_code := 200; headers := ∅; json_body := Some (JObj []) |}]
            []))
  = Ok [JNum 7].
Proof.
  rewrite (page_without_keys_ends (A := list Json) 0 Fake.client None 0
             (initial_params Fake.client 2 None None) 0 collect [JNum 7]
             (Fake.world [{| status_code := 200; headers := ∅;
                             json_body := Some (JObj []) |}] [])
             {| status_code := 200; headers := ∅; json_body := Some (JObj []) |} [] []).
  - reflexivity.
  - reflexivity.
  - reflexivity.
  - reflexivity.
  - reflexivity.
  - reflexivity.
Defined.

(** X3 at a body that is a JSON list. *)
Lemma malformed_body_aborts_example :
  fst (works_loop 1 Fake.client None 0 (initial_params Fake.client 2 None None) 0
         collect []
         (Fake.world [{| status_code := 200; headers := ∅;
                         json_body := Some (JArr [JNum 1]) |}] []))
  = Raised AttributeError.
Proof.
  rewrite (malformed_body_aborts (A := list Json) 0 Fake.client None 0
             (initial_params Fake.client 2 None None) 0 collect []
             (Fake.world [{| status_code := 200; headers := ∅;
                             json_body := Some (JArr [JNum 1]) |}] [])
             {| status_code := 200; headers := ∅; json_body := Some (JArr [JNum 1]) |}
             []).
  - reflexivity.
  - reflexivity.
  - reflexivity.
  - exact Logic.I.
Defined.

(** X4 at the two pages of the unit test, capped at one page. *)
Lemma page_cap_stops_example :
  exists w',
    works_loop 1 Fake.client (Some 1) 0 (initial_params Fake.client 2 None None) 0
      collect [] (Fake.world [Fake.page1; Fake.page2] [])
    = (Ok [JObj [("id", JNum 1)]; JObj [("id", JNum 2)]], w')
    /\ length (gets (w_log w')) = 1%nat.
Proof.
  destruct (page_cap_stops Fake.client 0 1
              [[JObj [("id", JNum 1)]; JObj [("id", JNum 2)]]; [JObj [("id", JNum 3)]]]
              (Fake.world [Fake.page1; Fake.page2] [])
              (initial_params Fake.client 2 None None) [] 1 [])
    as (w' & Hrun & Hgets).
  - eapply serves_next with (resp := Fake.page1) (cursor := JStr "abc").
    + reflexivity.
    + apply fake_page_is_page.
    + reflexivity.
    + eapply serves_last with (resp := Fake.page2) (cursor := JNull).
      * reflexivity.
      * apply fake_page_is_page.
      * reflexivity.
  - discriminate.
  - lia.
  - simpl. lia.
  - simpl. lia.
  - exists w'. split; [exact Hrun | exact Hgets].
Defined.

(** X8 at a record with one key too many. *)
Lemma unknown_keys_are_ignored_example :
  model_validate (JObj [("id", JStr "W1"); ("cited_by_count", JNum 3); ("title", JStr "T")])
  = model_validate (JObj [("id", JStr "W1"); ("title", JStr "T")]).
Proof.
  apply (unknown_keys_are_ignored "cited_by_count" (JNum 3) [("id", JStr "W1")]
           [("title", JStr "T")]).
  unfold declared_fields. simpl. intros H.
  repeat (destruct H as [H | H]; [discriminate H |]). exact H.
Defined.

(** X11 at a record that is not a JSON object. *)
Lemma invalid_record_aborts_example :
  fst (for_each (main_body Fake.settings Fake.sink false 2)
         [JNull; Fake.work 1]
         {| batch := []; total_sent := 0; total_failed := 0 |} (Fake.world [] []))
  = Raised ValidationError.
Proof.
  rewrite (proj2 (invalid_record_aborts Fake.settings Fake.sink false 2
                    {| batch := []; total_sent := 0; total_failed := 0 |} JNull
                    (Fake.world [] []) ValidationError eq_refl) [Fake.work 1]).
  reflexivity.
Defined.




(** X16 at three records by batches of 2: one delivery of two entries, the
    third record in flight. *)
Lemma deliveries_keep_order_example :
  exists st' w' works,
    for_each (main_body Fake.settings Fake.sink false 2)
      [Fake.work 0; Fake.work 1; Fake.work 2]
      {| batch := []; total_sent := 0; total_failed := 0 |} (Fake.world [] [])
    = (Ok st', w')
    /\ Forall2 (fun raw work => model_validate raw = inr work)
         [Fake.work 0; Fake.work 1; Fake.work 2] works
    /\ delivered (w_log w') ++ pending st'
       = entries_of (map model_dump (envelopes_of Fake.settings works 0 0))
    /\ total_sent st' = 2.
Proof.
  assert (Hok : returned (fst (for_each (main_body Fake.settings Fake.sink false 2)
                                 [Fake.work 0; Fake.work 1; Fake.work 2]
                                 {| batch := []; total_sent := 0; total_failed := 0 |}
                                 (Fake.world [] []))) = true)
    by (vm_compute; reflexivity).
  assert (Hsent : len (delivered (w_log (snd
                    (for_each (main_body Fake.settings Fake.sink false 2)
                       [Fake.work 0; Fake.work 1; Fake.work 2]
                       {| batch := []; total_sent := 0; total_failed := 0 |}
                       (Fake.world [] []))))) = 2)
    by (vm_compute; reflexivity).
  destruct (for_each (main_body Fake.settings Fake.sink false 2)
              [Fake.work 0; Fake.work 1; Fake.work 2]
              {| batch := []; total_sent := 0; total_failed := 0 |} (Fake.world [] []))
    as [[st' | e |] w'] eqn:Hrun; try discriminate Hok.
  destruct (deliveries_keep_order Fake.settings Fake.sink 2
              [Fake.work 0; Fake.work 1; Fake.work 2]
              {| batch := []; total_sent := 0; total_failed := 0 |} (Fake.world [] [])
              st' w' Hrun) as (works & Hall & Hd & Hcount).
  exists st', w', works. split; [reflexivity |]. split; [exact Hall |].
  split; [exact Hd |]. cbn [snd] in Hsent. simpl in Hcount. unfold len in *. simpl in *.
  lia.
Defined.

(** X18 at the end-to-end scenario: 3 records in one page, batches of 2. *)
Lemma returned_run_delivers_every_record_example :
  exists oa raws works failed before,
    OpenAlexClient_init (openalex_base_url Fake.settings) (openalex_email Fake.settings)
    = inr oa
    /\ fst (works_list 10 oa 2 None None (default (sleep_seconds Fake.settings) (Some 0%Q))
              None
              (Fake.world [Fake.page [Fake.work 0; Fake.work 1; Fake.work 2] JNull] []))
       = Ok raws
    /\ Forall2 (fun raw work => model_validate raw = inr work) raws works
    /\ w_log (snd (main 10 Fake.settings 2 None None None (Some 0%Q) false
                     (Fake.world [Fake.page [Fake.work 0; Fake.work 1; Fake.work 2] JNull]
                        [])))
       = before ++ EvPrint (MsgSummary (len raws) failed)
                   :: (if negb (failed =? 0) then [EvPrint MsgSomeFailed] else [])
    /\ delivered before
       = delivered []
         ++ entries_of (map model_dump (envelopes_of Fake.settings works 0 0)).
Proof.
  apply (returned_run_delivers_every_record 10 Fake.settings 2 None None None
           (Some 0%Q) (Fake.world [Fake.page [Fake.work 0; Fake.work 1; Fake.work 2] JNull]
                         [])).
  vm_compute. reflexivity.
Defined.

(** X20 at a directory listing: numbered scripts, one in capitals, one
    without number, one that is no script. *)
Lemma natural_sql_order_sorts_example :
  exists out,
    Apply._natural_sql_order string (fun p => p) Apply.posix_suffix
      ["10_b.sql"; "2_a.sql"; "readme.md"; "zz.sql"; "01_init.SQL"; "1000001_x.sql"]
    = inr out
    /\ Permutation out
         (List.filter (Apply.is_sql string Apply.posix_suffix)
            ["10_b.sql"; "2_a.sql"; "readme.md"; "zz.sql"; "01_init.SQL";
             "1000001_x.sql"])
    /\ StronglySorted (Apply.before string (fun p => p)) out.
Proof.
  apply natural_sql_order_sorts. intros f Hin _. apply Nat.leb_le. simpl in Hin.
  repeat (destruct Hin as [<- | Hin]; [reflexivity |]). contradiction.
Defined.

Example natural_sql_order_is_numeric :
  Apply._natural_sql_order string (fun p => p) Apply.posix_suffix
    ["10_b.sql"; "2_a.sql"; "readme.md"; "zz.sql"; "01_init.SQL"; "1000001_x.sql"]
  = inr ["01_init.SQL"; "2_a.sql"; "10_b.sql"; "zz.sql"; "1000001_x.sql"].
Proof. vm_compute. reflexivity. Qed.

End MoreScenarios.

(** ** The runner of the scripts on a directory of three, the second of
    which fails *)

Section RunnerScenarios.

Abbreviation host := (Apply.fake_host ["2_a.sql"]).

Lemma fake_reaches_database (continue_on_error : bool) :
  Apply.reaches_database (H := host) (Apply.run_args false continue_on_error).
Proof.
  split; [reflexivity |]. split; [reflexivity |].
  split; [vm_compute; discriminate |]. split; [reflexivity |].
  exists O. reflexivity.
Qed.

(** X24 on that directory. *)
Lemma dry_run_touches_nothing_example :
  forallb Apply.is_log (snd (Apply.main (H := host) (Apply.run_args true false))) = true
  /\ fst (Apply.main (H := host) (Apply.run_args true false)) <> inr 4
  /\ fst (Apply.main (H := host) (Apply.run_args true false)) <> inr 5.
Proof. apply (dry_run_touches_nothing (H := host) (Apply.run_args true false)). reflexivity. Defined.

(** X26 on that directory. *)
Lemma continue_on_error_runs_everything_example :
  fst (Apply.main (H := host) (Apply.run_args false true)) = inr 0
  /\ Apply.executed (snd (Apply.main (H := host) (Apply.run_args false true)))
     = Apply.planned (H := host) (Apply.run_args false true)
  /\ last (snd (Apply.main (H := host) (Apply.run_args false true)))
     = Some (Apply.SLog false Apply.NoteAllDone).
Proof.
  apply (continue_on_error_runs_everything (H := host) (Apply.run_args false true)).
  - apply fake_reaches_database.
  - reflexivity.
Defined.

(** X27 on that directory: the first script succeeds, the second fails, the
    third is not touched. *)
Lemma first_failure_stops_the_run_example :
  fst (Apply.main (H := host) (Apply.run_args false false)) = inr 5
  /\ Apply.executed (snd (Apply.main (H := host) (Apply.run_args false false)))
     = ["01_init.SQL"; "2_a.sql"]
  /\ Apply.failures (snd (Apply.main (H := host) (Apply.run_args false false)))
     = ["2_a.sql"]
  /\ In (Apply.SLog true
           (Apply.NoteScriptFailed "2_a.sql" (ExternalError "SQL compilation error")))
       (snd (Apply.main (H := host) (Apply.run_args false false)))
  /\ last (snd (Apply.main (H := host) (Apply.run_args false false)))
     = Some Apply.SClose.
Proof.
  refine (proj1 (first_failure_stops_the_run (H := host) (Apply.run_args false false) O
                   (fake_reaches_database false) eq_refl eq_refl)
            ["01_init.SQL"] "2_a.sql" ["10_b.sql"] 1%nat
            (ExternalError "SQL compilation error") 2%nat _ _ _).
  - vm_compute. reflexivity.
  - exact (Apply.succeed_cons (H := host) O "01_init.SQL" 1%nat [] 1%nat eq_refl
             (Apply.succeed_nil (H := host) 1%nat)).
  - reflexivity.
Defined.

Example stops_at_the_failing_script :
  fst (Apply.main (H := host) (Apply.run_args false false)) = inr 5
  /\ Apply.executed (snd (Apply.main (H := host) (Apply.run_args false false)))
     = ["01_init.SQL"; "2_a.sql"]
  /\ last (snd (Apply.main (H := host) (Apply.run_args false false))) = Some Apply.SClose.
Proof. repeat split; vm_compute; reflexivity. Qed.

Example goes_on_after_the_failing_script :
  fst (Apply.main (H := host) (Apply.run_args false true)) = inr 0
  /\ Apply.executed (snd (Apply.main (H := host) (Apply.run_args false true)))
     = ["01_init.SQL"; "2_a.sql"; "10_b.sql"]
  /\ Apply.failures (snd (Apply.main (H := host) (Apply.run_args false true))) = ["2_a.sql"].
Proof. repeat split; vm_compute; reflexivity. Qed.

End RunnerScenarios.
